(** * The setting registry of packages/coreutils/src/settingregistry.ts

    A shallow embedding of [SettingRegistry] and of the [Settings] handle,
    and the properties of the registry's cache, loading, annotation and
    notification logic.

    The registry is JavaScript: it stores objects by reference, returns
    promises, and talks to a datastore and to signal subscribers that live
    outside the file.  The embedding keeps these three things explicit:

    - a heap of objects and arrays, shared by the registry, its callers
      and the datastore, so that aliasing created by [set], [upload],
      [annotate] and [load] is visible; an object has a prototype,
      [Object.prototype] or none, and is read through it;
    - promises as data: a pending promise is the thing it waits for together
      with the [then] callbacks of the file that were chained on it;
    - the calls made on the datastore and the deliveries made to the slots
      of [pluginChanged] as two traces in the state. *)

From Stdlib Require Import ZArith NArith Ascii Lia.
From stdpp Require Import base option list strings sorting.

Local Open Scope string_scope.
Local Open Scope list_scope.
Local Open Scope nat_scope.

(** ** JSON values on a heap *)

(** A location of the heap: the identity of a JavaScript object. *)
Abbreviation loc := nat (only parsing).

(** What an expression of the declared type [JSONValue] of
    [@phosphor/coreutils] evaluates to: the primitives are values, an object
    or an array is a reference.  Numbers are the integers; [0] stands for
    the one falsy number a JSON text can hold.  [JNative k] is no JSON
    value: it is what [Object.prototype] holds at the name [k], a function,
    or, for the accessor [__proto__] read on an object that inherits from
    it directly, [Object.prototype] itself.  A read such as
    [bundle[level][key]] (l.215) gives it for a name the object inherits. *)
Inductive JSONValue : Type :=
  | JNull
  | JBool (b : bool)
  | JNum (n : Z)
  | JStr (s : string)
  | JRef (l : loc)
  | JNative (k : string).

(** The result of a JavaScript expression: a JSON value or [undefined]. *)
Abbreviation value := (option JSONValue) (only parsing).
Abbreviation undefined := (@None JSONValue) (only parsing).

(** Own properties in the order of their creation, which is the order
    [for ... in] and the datastore's serialiser see them in, but for the
    names that are array indices, which they see first ([own_keys]
    below). *)
Abbreviation props := (list (string * JSONValue)) (only parsing).

(** The objects of the heap are plain data: own properties that are
    enumerable, writable and configurable, on an extensible object.  They
    differ by their prototype: [JSONObject] is an object made by [{}], by
    [JSON.parse] or by [JSONExt.deepCopy], whose prototype is
    [Object.prototype]; [Bare] is an object made by [Object.create(null)],
    or one whose prototype was set to [null]; [Derived proto] is an object
    whose prototype an assignment to [__proto__] has replaced by the object
    [proto]. *)
Inductive cell : Type :=
  | JSONObject (ps : props)
  | JSONArray (es : list JSONValue)
  | Bare (ps : props)
  | Derived (proto : JSONValue) (ps : props).

Abbreviation heap := (list cell) (only parsing).

(** The truth value of an expression in a condition, [&&] or [||]. *)
Definition truthy (v : value) : bool :=
  match v with
  | None => false
  | Some JNull => false
  | Some (JBool b) => b
  | Some (JNum n) => negb (n =? 0)%Z
  | Some (JStr s) => negb (String.eqb s "")
  | Some (JRef _) => true
  | Some (JNative _) => true
  end.

(** [v || null], at the type [JSONValue]. *)
Definition or_null (v : value) : JSONValue :=
  match v with
  | Some j => if truthy v then j else JNull
  | None => JNull
  end.

(** *** Own properties of one object, and fields of one JSON object *)

(** An object is read at its own properties first, then along its
    prototype chain. *)

Fixpoint prop_get {A} (ps : list (string * A)) (k : string) : option A :=
  match ps with
  | [] => None
  | (k', v) :: ps' => if String.eqb k' k then Some v else prop_get ps' k
  end.

(** [o[k] = v]: an existing key keeps its place, a new one goes last. *)
Fixpoint prop_set {A} (ps : list (string * A)) (k : string) (v : A)
  : list (string * A) :=
  match ps with
  | [] => [(k, v)]
  | (k', v') :: ps' =>
      if String.eqb k' k then (k', v) :: ps' else (k', v') :: prop_set ps' k v
  end.

(** [delete o[k]]. *)
Fixpoint prop_delete {A} (ps : list (string * A)) (k : string)
  : list (string * A) :=
  match ps with
  | [] => []
  | (k', v') :: ps' =>
      if String.eqb k' k then prop_delete ps' k else (k', v') :: prop_delete ps' k
  end.

(** The names of the properties of [Object.prototype], in the engines the
    package runs in (ECMAScript with its annex B): an object whose
    prototype is [Object.prototype] has them all, unless a property of its
    own hides one. *)
Definition Object_prototype : list string :=
  ["constructor"; "__defineGetter__"; "__defineSetter__"; "hasOwnProperty";
   "__lookupGetter__"; "__lookupSetter__"; "isPrototypeOf";
   "propertyIsEnumerable"; "toString"; "valueOf"; "__proto__";
   "toLocaleString"].

(** What an object with the prototype [Object.prototype] and without own
    property [k] is read with at [k]. *)
Definition inherited (k : string) : value :=
  if bool_decide (k ∈ Object_prototype) then Some (JNative k) else None.

(** [o[k]] for an object [o] with the own properties [ps] and the prototype
    [Object.prototype]. *)
Definition member (ps : props) (k : string) : value :=
  match prop_get ps k with
  | Some v => Some v
  | None => inherited k
  end.

(** ** Completions *)

(** What a JavaScript call can throw, or a promise be rejected with.
    [Failure] carries the reason a datastore promise was rejected with. *)
Inductive exn : Type :=
  | TypeError
  | RangeError
  | Error (message : string)
  | Failure (reason : JSONValue).

(** The completion of an expression.  [Untyped] marks a step the
    TypeScript types of the file rule out (indexing an array or a string
    where a dictionary is declared, a reference to no object), or one that
    the model does not follow (a read or a write through the prototype of
    a [Derived] object, the copy of such an object or of one with a
    property of its own named [__proto__]): the model assigns it no
    behaviour, and nothing is proved of it. *)
Inductive completion (A : Type) : Type :=
  | Normal (a : A)
  | Throw (e : exn)
  | Untyped.
Arguments Normal {A} a.
Arguments Throw {A} e.
Arguments Untyped {A}.

(** ** Dictionaries *)

(** An object made by [Object.create(null)] and used as a dictionary from
    names to values, as [_plugins] and [_annotations] are (l.365, l.368):
    its own properties in the order of their creation.  It inherits
    nothing: [d !! k] is [d[k]], and [k in d] is [is_Some (d !! k)];
    [<[k := v]> d] is [d[k] = v], whatever the name [k]. *)
Record dictionary : Type := Dictionary { entries : props }.

Global Instance dictionary_lookup : Lookup string JSONValue dictionary :=
  λ k d, prop_get (entries d) k.

Global Instance dictionary_insert : Insert string JSONValue dictionary :=
  λ k v d, Dictionary (prop_set (entries d) k v).

Global Instance dictionary_empty : Empty dictionary := Dictionary [].

Global Instance dictionary_singleton : SingletonM string JSONValue dictionary :=
  λ k v, Dictionary [(k, v)].

(** The number a decimal numeral stands for. *)
Fixpoint numeral (s : string) (acc : N) : option N :=
  match s with
  | EmptyString => Some acc
  | String a s' =>
      let d := N_of_ascii a in
      if (48 <=? d)%N && (d <=? 57)%N then numeral s' (10 * acc + (d - 48))%N
      else None
  end.

(** An array index: a name that is the canonical numeral of a number
    below [2^32 - 1]. *)
Definition array_index (k : string) : option N :=
  match k with
  | EmptyString => None
  | String "0" EmptyString => Some 0%N
  | String "0" _ => None
  | _ =>
      match numeral k 0%N with
      | Some n => if (n <? 4294967295)%N then Some n else None
      | None => None
      end
  end.

Definition indexed (k : string) : option (N * string) :=
  match array_index k with Some n => Some (n, k) | None => None end.

Definition index_le (x y : N * string) : Prop := (x.1 ≤ y.1)%N.

Global Instance index_le_dec : RelDecision index_le :=
  λ x y, decide (x.1 ≤ y.1)%N.

(** The order in which an object lists its own names [ks], given in the
    order of their creation: the names that are array indices first, in
    ascending order, then the other names. *)
Definition own_keys (ks : list string) : list string :=
  (snd <$> merge_sort index_le (omap indexed ks)) ++
  filter (λ k, array_index k = None) ks.

(** [Object.keys(d)]. *)
Definition Object_keys (d : dictionary) : list string :=
  own_keys (fst <$> entries d).

(** ** The state *)

(** The identity of a datastore object, and of a slot connected to the
    [pluginChanged] signal. *)
Abbreviation datastore := nat (only parsing).
Abbreviation slot := nat (only parsing).

(** A call the registry made on the datastore: [fetch(plugin)] or
    [save(plugin, record)]. *)
Inductive call : Type :=
  | Fetch (ds : datastore) (plugin : string)
  | Save (ds : datastore) (plugin : string) (record : value).

(** The heap, the five private fields of [SettingRegistry] (l.365-369) and
    the two traces.  [_pluginChanged] is the list of connected slots of the
    signal; [_ready] tells whether the [PromiseDelegate] is resolved. *)
Record State : Type := mkState {
  objects : heap;
  _annotations : dictionary;
  _datastore : option datastore;
  _pluginChanged : list slot;
  _plugins : dictionary;
  _ready : bool;
  delivered : list (slot * string);
  calls : list call
}.

(** A registry as its field initialisers leaves it, on a given heap. *)
Definition init (h : heap) : State :=
  mkState h ∅ None [] ∅ false [] [].

Definition with_objects (h : heap) (st : State) : State :=
  mkState h (_annotations st) (_datastore st) (_pluginChanged st)
          (_plugins st) (_ready st) (delivered st) (calls st).

Definition with_annotations (a : dictionary) (st : State) : State :=
  mkState (objects st) a (_datastore st) (_pluginChanged st)
          (_plugins st) (_ready st) (delivered st) (calls st).

Definition with_datastore (d : option datastore) (st : State) : State :=
  mkState (objects st) (_annotations st) d (_pluginChanged st)
          (_plugins st) (_ready st) (delivered st) (calls st).

Definition with_slots (s : list slot) (st : State) : State :=
  mkState (objects st) (_annotations st) (_datastore st) s
          (_plugins st) (_ready st) (delivered st) (calls st).

Definition with_plugins (p : dictionary) (st : State) : State :=
  mkState (objects st) (_annotations st) (_datastore st) (_pluginChanged st)
          p (_ready st) (delivered st) (calls st).

Definition with_ready (r : bool) (st : State) : State :=
  mkState (objects st) (_annotations st) (_datastore st) (_pluginChanged st)
          (_plugins st) r (delivered st) (calls st).

Definition with_delivered (d : list (slot * string)) (st : State) : State :=
  mkState (objects st) (_annotations st) (_datastore st) (_pluginChanged st)
          (_plugins st) (_ready st) d (calls st).

Definition with_calls (c : list call) (st : State) : State :=
  mkState (objects st) (_annotations st) (_datastore st) (_pluginChanged st)
          (_plugins st) (_ready st) (delivered st) c.

(** ** The monad of the method bodies: state and completions *)

Definition M (A : Type) : Type := State → State * completion A.

Global Instance M_ret : MRet M := λ A a st, (st, Normal a).

Global Instance M_bind : MBind M := λ A B f m st,
  match m st with
  | (st', Normal a) => f a st'
  | (st', Throw e) => (st', Throw e)
  | (st', Untyped) => (st', Untyped)
  end.

Definition gets {A} (f : State → A) : M A := λ st, (st, Normal (f st)).
Definition modify (f : State → State) : M unit := λ st, (f st, Normal tt).
Definition throw {A} (e : exn) : M A := λ st, (st, Throw e).
Definition untyped {A} : M A := λ st, (st, Untyped).
Definition lift {A} (c : completion A) : M A := λ st, (st, c).

(** ** Reading and writing the heap *)

(** [o[k]].  Reading a property of [null] or [undefined] throws.  An
    object is read at its own properties, then at those of its prototype:
    the names of [Object.prototype] for a [JSONObject], none for a [Bare]
    object.  The model does not follow the chain of a [Derived] object. *)
Definition heap_read (h : heap) (o : value) (k : string) : completion value :=
  match o with
  | None | Some JNull => Throw TypeError
  | Some (JRef l) =>
      match h !! l with
      | Some (JSONObject ps) => Normal (member ps k)
      | Some (Bare ps) => Normal (prop_get ps k)
      | Some (Derived _ ps) =>
          match prop_get ps k with
          | Some v => Normal (Some v)
          | None => Untyped
          end
      | _ => Untyped
      end
  | Some _ => Untyped
  end.

(** The object at [l] is [l'] or is on the prototype chain of [l']; [n]
    bounds the length of the chain. *)
Fixpoint inherits (n : nat) (h : heap) (l' l : loc) : bool :=
  if bool_decide (l' = l) then true
  else
    match n with
    | 0 => false
    | S n' =>
        match h !! l' with
        | Some (Derived (JRef p) _) => inherits n' h p l
        | _ => false
        end
    end.

(** [o.__proto__ = v] for the object [o] at [l], with the own properties
    [ps] and the prototype [Object.prototype], whose setter this calls: an
    object becomes the prototype of [o], unless [o] is on its chain, which
    throws; [null] takes the prototype away; any other value is ignored.
    [Object.prototype] itself leaves [o] as it is. *)
Definition set_prototype (h : heap) (l : loc) (ps : props) (v : JSONValue)
  : completion heap :=
  match v with
  | JNull => Normal (<[l := Bare ps]> h)
  | JRef l' =>
      if inherits (length h) h l' l then Throw TypeError
      else Normal (<[l := Derived v ps]> h)
  | JNative k =>
      if String.eqb k "__proto__" then Normal h
      else Normal (<[l := Derived v ps]> h)
  | _ => Normal h
  end.

(** [o[k] = v].  On a [JSONObject] the name [__proto__], unless it is an
    own property, is the accessor of [Object.prototype]: the assignment
    makes no property.  Any other name becomes or stays an own property.
    The model does not follow the chain of a [Derived] object. *)
Definition heap_write (h : heap) (o : value) (k : string) (v : JSONValue)
  : completion heap :=
  match o with
  | None | Some JNull => Throw TypeError
  | Some (JRef l) =>
      match h !! l with
      | Some (JSONObject ps) =>
          match prop_get ps k with
          | None =>
              if String.eqb k "__proto__" then set_prototype h l ps v
              else Normal (<[l := JSONObject (prop_set ps k v)]> h)
          | Some _ => Normal (<[l := JSONObject (prop_set ps k v)]> h)
          end
      | Some (Bare ps) => Normal (<[l := Bare (prop_set ps k v)]> h)
      | Some (Derived p ps) =>
          match prop_get ps k with
          | Some _ => Normal (<[l := Derived p (prop_set ps k v)]> h)
          | None => Untyped
          end
      | _ => Untyped
      end
  | Some _ => Untyped
  end.

(** [delete o[k]]: only an own property is deleted. *)
Definition heap_delete (h : heap) (o : value) (k : string) : completion heap :=
  match o with
  | None | Some JNull => Throw TypeError
  | Some (JRef l) =>
      match h !! l with
      | Some (JSONObject ps) => Normal (<[l := JSONObject (prop_delete ps k)]> h)
      | Some (Bare ps) => Normal (<[l := Bare (prop_delete ps k)]> h)
      | Some (Derived p ps) => Normal (<[l := Derived p (prop_delete ps k)]> h)
      | _ => Untyped
      end
  | Some _ => Untyped
  end.

Definition readProp (o : value) (k : string) : M value :=
  λ st, (st, heap_read (objects st) o k).

Definition writeProp (o : value) (k : string) (v : JSONValue) : M unit :=
  λ st, match heap_write (objects st) o k v with
        | Normal h' => (with_objects h' st, Normal tt)
        | Throw e => (st, Throw e)
        | Untyped => (st, Untyped)
        end.

Definition deleteProp (o : value) (k : string) : M unit :=
  λ st, match heap_delete (objects st) o k with
        | Normal h' => (with_objects h' st, Normal tt)
        | Throw e => (st, Throw e)
        | Untyped => (st, Untyped)
        end.

(** [{}]: a new object without own properties. *)
Definition newObject : M JSONValue :=
  λ st, (with_objects (objects st ++ [JSONObject []]) st,
         Normal (JRef (length (objects st)))).

(** [Object.create(null)]: a new object without own properties and without
    prototype. *)
Definition newBare : M JSONValue :=
  λ st, (with_objects (objects st ++ [Bare []]) st,
         Normal (JRef (length (objects st)))).

(** *** [JSONExt.deepCopy] *)

(** [JSONExt.deepCopy] belongs to [@phosphor/coreutils], outside the
    repository.  It returns a primitive as it is, and for an array or an
    object a new one whose members are the copies of the members, in the
    same order; the copy of an object is made by [{}].  A value that is
    neither a primitive nor an array is copied as an object: of a function,
    or of [Object.prototype], which have no enumerable property, the copy
    is [{}].  The copy keeps the list of the original: [for ... in], which
    [deepCopy] goes by, lists the names that are array indices first, and
    so does every reader of the copy ([own_keys] below).  The recursion
    follows references; [n] bounds its depth.  The model does not copy a [Derived] object, nor an object that has a
    property of its own named [__proto__], which the copy would not get as
    a property: [deepCopy] assigns the members to the copy one by one. *)
Section DeepCopy.
Variable deepCopy : heap → JSONValue → completion (JSONValue * heap).

Fixpoint deepArrayCopy (h : heap) (es : list JSONValue)
  : completion (list JSONValue * heap) :=
  match es with
  | [] => Normal ([], h)
  | e :: es' =>
      match deepCopy h e with
      | Normal (e', h1) =>
          match deepArrayCopy h1 es' with
          | Normal (es'', h2) => Normal (e' :: es'', h2)
          | Throw x => Throw x
          | Untyped => Untyped
          end
      | Throw x => Throw x
      | Untyped => Untyped
      end
  end.

Fixpoint deepObjectCopy (h : heap) (ps : props) : completion (props * heap) :=
  match ps with
  | [] => Normal ([], h)
  | (k, v) :: ps' =>
      match deepCopy h v with
      | Normal (v', h1) =>
          match deepObjectCopy h1 ps' with
          | Normal (ps'', h2) => Normal ((k, v') :: ps'', h2)
          | Throw x => Throw x
          | Untyped => Untyped
          end
      | Throw x => Throw x
      | Untyped => Untyped
      end
  end.
End DeepCopy.

Fixpoint deepCopy_aux (n : nat) (h : heap) (v : JSONValue)
  : completion (JSONValue * heap) :=
  match v with
  | JRef l =>
      match n with
      | 0 => Throw RangeError
      | S n' =>
          match h !! l with
          | Some (JSONArray es) =>
              match deepArrayCopy (deepCopy_aux n') h es with
              | Normal (es', h') => Normal (JRef (length h'), h' ++ [JSONArray es'])
              | Throw x => Throw x
              | Untyped => Untyped
              end
          | Some (JSONObject ps) | Some (Bare ps) =>
              match prop_get ps "__proto__" with
              | Some _ => Untyped
              | None =>
                  match deepObjectCopy (deepCopy_aux n') h ps with
                  | Normal (ps', h') =>
                      Normal (JRef (length h'), h' ++ [JSONObject ps'])
                  | Throw x => Throw x
                  | Untyped => Untyped
                  end
              end
          | Some (Derived _ _) | None => Untyped
          end
      end
  | JNative _ => Normal (JRef (length h), h ++ [JSONObject []])
  | _ => Normal (v, h)
  end.

(** A chain of references longer than the heap comes back to an object it
    has left: the recursion would not end, and the engine's stack overflows
    with a [RangeError]. *)
Definition deepCopy (v : JSONValue) : M JSONValue :=
  λ st, match deepCopy_aux (length (objects st)) (objects st) v with
        | Normal (v', h') => (with_objects h' st, Normal v')
        | Throw e => (st, Throw e)
        | Untyped => (st, Untyped)
        end.

(** *** The JSON text a value stands for *)

Local Set Warnings "-register-all".

Inductive JSON : Type :=
  | Null
  | Bool (b : bool)
  | Num (n : Z)
  | Str (s : string)
  | Array (ts : list JSON)
  | Object (fs : list (string * JSON)).

Definition reify_field (f : JSONValue → option JSON) (p : string * JSONValue)
  : option (string * JSON) :=
  match f p.2 with Some t => Some (p.1, t) | None => None end.

(** The text of an object, from the texts [f] gives for its members: the
    own properties of a [JSONObject] or a [Bare] object, the elements of an
    array.  A [Derived] object is not taken for a JSON object, nor is an
    object with a property of its own named [__proto__], as [JSON.parse]
    can make one: the model does not copy them. *)
Definition reify_cell (f : JSONValue → option JSON) (c : cell) : option JSON :=
  match c with
  | JSONArray es => Array <$> mapM f es
  | JSONObject ps | Bare ps =>
      match prop_get ps "__proto__" with
      | Some _ => None
      | None => Object <$> mapM (reify_field f) ps
      end
  | Derived _ _ => None
  end.

(** The tree below [v] in [h], down to depth [n]; [None] when [v] reaches
    deeper, or a location without object, a [Derived] object or a value
    that is no JSON value. *)
Fixpoint reify (n : nat) (h : heap) (v : JSONValue) : option JSON :=
  match v with
  | JNull => Some Null
  | JBool b => Some (Bool b)
  | JNum z => Some (Num z)
  | JStr s => Some (Str s)
  | JRef l =>
      match n with
      | 0 => None
      | S n' =>
          match h !! l with
          | Some c => reify_cell (reify n' h) c
          | None => None
          end
      end
  | JNative _ => None
  end.

(** [v] is a JSON value of the heap [h], and [t] is its text.  The depth
    [length h] loses nothing: [reify_json] below. *)
Definition json (h : heap) (v : JSONValue) (t : JSON) : Prop :=
  reify (length h) h v = Some t.

(** The depth of a text. *)
Fixpoint height (t : JSON) : nat :=
  match t with
  | Array ts => S (foldr (λ t m, height t `max` m) 0 ts)
  | Object fs => S (foldr (λ f m, height f.2 `max` m) 0 fs)
  | _ => 0
  end.

(** ** Levels, handles and promises *)

(** [ISettingRegistry.Level], and the default [LEVEL] (l.24). *)
Inductive Level : Type := user | system.

Definition LEVEL : Level := user.

(** The property name a level is in a [Bundle]. *)
Definition level_name (level : Level) : string :=
  match level with user => "user" | system => "system" end.

(** An instance of the class [Settings] (l.376-459).  Its [registry] is the
    registry of the state. *)
Record Settings : Type := new_Settings {
  _content : value;
  plugin : string;
  _isDisposed : bool
}.

(** What a promise of the file is fulfilled with: nothing ([Promise<void>]),
    a JSON value, or a [Settings] handle. *)
Inductive answer : Type :=
  | Void
  | Value (v : JSONValue)
  | Handle (s : Settings).

(** The five [then] callbacks of the file, each with the variables it
    closes over. *)
Inductive frame : Type :=
  | ThenGet (plugin key : string) (level : Level)                     (* l.220 *)
  | ThenInstall (plugin : string)                                     (* l.251-262 *)
  | ThenLoad (plugin : string)                                        (* l.266 *)
  | ThenSet (plugin key : string) (value : JSONValue) (level : Level) (* l.311 *)
  | ThenEmit (plugin : string).                                       (* l.362 *)

(** What a pending promise waits for: the [_ready] delegate, the answer of
    the datastore to a [fetch] or a [save], or only its turn in the job
    queue (a callback chained on a promise that was fulfilled already). *)
Inductive wait : Type :=
  | OnReady
  | OnFetch (plugin : string)
  | OnSave (plugin : string)
  | OnTurn (a : answer).

Inductive promise : Type :=
  | Resolved (a : answer)
  | Rejected (e : exn)
  | Pending (w : wait) (ks : list frame).

(** [p.then(k)], without rejection handler. *)
Definition then_ (p : promise) (k : frame) : promise :=
  match p with
  | Resolved a => Pending (OnTurn a) [k]
  | Rejected e => Rejected e
  | Pending w ks => Pending w (ks ++ [k])
  end.

(** ** The signal [pluginChanged] *)

(** [Signal] belongs to [@phosphor/signaling], outside the repository:
    [connect] adds a slot unless it is connected, [disconnect] removes it,
    [emit] calls the connected slots in order, at once.  A slot is taken to
    record what it is called with. *)
Definition connect (s : slot) : M bool :=
  slots ← gets _pluginChanged;
  if bool_decide (s ∈ slots) then mret false
  else modify (with_slots (slots ++ [s]));; mret true.

Definition disconnect (s : slot) : M bool :=
  slots ← gets _pluginChanged;
  if bool_decide (s ∈ slots)
  then modify (with_slots (filter (λ s', s' ≠ s) slots));; mret true
  else mret false.

Definition emit (plugin : string) : M unit :=
  modify (λ st,
    with_delivered (delivered st ++ ((λ s, (s, plugin)) <$> _pluginChanged st)) st).

(** The plugin names a slot was called with, oldest first. *)
Definition received (s : slot) (st : State) : list string :=
  snd <$> filter (λ d, d.1 = s) (delivered st).

(** ** The methods of [SettingRegistry] *)

(** [annotate] (l.193-199). *)
Definition annotate (plugin key : string) (annotation : JSONValue) : M unit :=
  table ← gets (λ st, _annotations st !! plugin);
  (if negb (truthy table)
   then o ← newBare;
        modify (λ st, with_annotations (<[plugin := o]> (_annotations st)) st)
   else mret tt);;
  table ← gets (λ st, _annotations st !! plugin);
  writeProp table key annotation;;
  emit plugin.

(** The tail shared by the two resolving branches of [load] (l.241-246 and
    l.256-261): copy the record, put a copy of the annotations of [plugin]
    on the copy, and wrap it in a handle. *)
Definition view (plugin : string) (record : JSONValue) : M Settings :=
  content ← deepCopy record;
  table ← gets (λ st, _annotations st !! plugin);
  annotations ← deepCopy (or_null table);
  writeProp (Some content) "annotations" annotations;;
  mret (new_Settings (Some content) plugin false).

(** [this._datastore.fetch(plugin)]: the call is logged, its promise waits
    for the datastore. *)
Definition fetch (ds : datastore) (plugin : string) : M promise :=
  modify (λ st, with_calls (calls st ++ [Fetch ds plugin]) st);;
  mret (Pending (OnFetch plugin) []).

Definition save (ds : datastore) (plugin : string) (record : value) : M promise :=
  modify (λ st, with_calls (calls st ++ [Save ds plugin record]) st);;
  mret (Pending (OnSave plugin) []).

(** [this._ready.promise]. *)
Definition ready_promise : M promise :=
  gets (λ st, if _ready st then Resolved Void else Pending OnReady []).

(** [load] (l.232-267). *)
Definition load (plugin : string) (reload : bool) : M promise :=
  plugins ← gets _plugins;
  match (if reload then None else plugins !! plugin) with
  | Some record =>
      s ← view plugin record;
      mret (Resolved (Handle s))
  | None =>
      ds ← gets _datastore;
      match ds with
      | Some d =>
          p ← fetch d plugin;
          mret (then_ p (ThenInstall plugin))
      | None =>
          p ← ready_promise;
          mret (then_ p (ThenLoad plugin))
      end
  end.

(** The callback of [fetch(plugin).then] in [load] (l.251-262); [result.id]
    is a string by the type [IPlugin]. *)
Definition install (plugin : string) (result : JSONValue) : M promise :=
  id ← readProp (Some result) "id";
  match id with
  | Some (JStr i) =>
      modify (λ st, with_plugins (<[i := result]> (_plugins st)) st);;
      s ← view plugin result;
      mret (Resolved (Handle s))
  | _ => untyped
  end.

(** [get] (l.212-221). *)
Definition get (plugin key : string) (level : Level) : M promise :=
  plugins ← gets _plugins;
  match plugins !! plugin with
  | Some record =>
      bundle ← (if truthy (Some record) then readProp (Some record) "data"
                else mret (Some record));
      mapping ← (if truthy bundle then readProp bundle (level_name level)
                 else mret bundle);
      value ← (if truthy mapping then readProp mapping key else mret mapping);
      result ← deepCopy (or_null value);
      mret (Resolved (Value result))
  | None =>
      p ← load plugin false;
      mret (then_ p (ThenGet plugin key level))
  end.

(** [_save] (l.360-363).  With no datastore, [this._datastore.save] reads a
    property of [null]. *)
Definition _save (plugin : string) : M promise :=
  ds ← gets _datastore;
  match ds with
  | Some d =>
      record ← gets (λ st, _plugins st !! plugin);
      p ← save d plugin record;
      mret (then_ p (ThenEmit plugin))
  | None => throw TypeError
  end.

(** [remove] (l.280-293). *)
Definition remove (plugin key : string) (level : Level) : M promise :=
  plugins ← gets _plugins;
  match plugins !! plugin with
  | None => mret (Resolved Void)
  | Some record =>
      bundle ← readProp (Some record) "data";
      mapping ← readProp bundle (level_name level);
      if negb (truthy mapping) then mret (Resolved Void)
      else
        deleteProp mapping key;;
        _save plugin
  end.

(** [set] (l.309-322). *)
Definition set (plugin key : string) (value : JSONValue) (level : Level)
  : M promise :=
  plugins ← gets _plugins;
  match plugins !! plugin with
  | None =>
      p ← load plugin false;
      mret (then_ p (ThenSet plugin key value level))
  | Some record =>
      bundle ← readProp (Some record) "data";
      mapping ← readProp bundle (level_name level);
      (if negb (truthy mapping)
       then o ← newObject; writeProp bundle (level_name level) o
       else mret tt);;
      mapping ← readProp bundle (level_name level);
      writeProp mapping key value;;
      _save plugin
  end.

(** [setDB] (l.336-343). *)
Definition setDB (ds : datastore) : M unit :=
  d ← gets _datastore;
  match d with
  | Some _ => throw (Error "Setting registry already has a datastore.")
  | None =>
      modify (with_datastore (Some ds));;
      modify (with_ready true)
  end.

(** [upload] (l.352-355). *)
Definition upload (plugin : JSONValue) : M promise :=
  id ← readProp (Some plugin) "id";
  match id with
  | Some (JStr i) =>
      modify (λ st, with_plugins (<[i := plugin]> (_plugins st)) st);;
      _save i
  | _ => untyped
  end.

(** The callback of [map] in the getter [plugins] (l.173-181): the same
    copies as in [load], without the handle.  [plugin] comes from
    [Object.keys(plugins)] and is a name of the cache. *)
Definition plugins_entry (plugin : string) : M JSONValue :=
  record ← gets (λ st, _plugins st !! plugin);
  match record with
  | Some r =>
      result ← deepCopy r;
      table ← gets (λ st, _annotations st !! plugin);
      annotations ← deepCopy (or_null table);
      writeProp (Some result) "annotations" annotations;;
      mret result
  | None => untyped
  end.

(** The getter [plugins] (l.169-182). *)
Definition plugins : M (list JSONValue) :=
  keys ← gets (λ st, Object_keys (_plugins st));
  mapM plugins_entry keys.

(** ** The methods of [Settings] (l.424-455, l.389-413) *)

Module Settings.
Definition get (this : Settings) (key : string) (level : Level) : M promise :=
  get (plugin this) key level.

Definition remove (this : Settings) (key : string) (level : Level) : M promise :=
  remove (plugin this) key level.

Definition set (this : Settings) (key : string) (value : JSONValue)
    (level : Level) : M promise :=
  set (plugin this) key value level.

Definition isDisposed (this : Settings) : bool := _isDisposed this.

Definition dispose (this : Settings) : Settings :=
  if _isDisposed this then this
  else new_Settings (Some JNull) (plugin this) true.
End Settings.

(** ** Running a promise *)

(** What reaches a pending promise from outside the call that made it. *)
Inductive input : Type :=
  | Turn
  | Fetched (result : JSONValue)
  | FetchFailed (reason : JSONValue)
  | Saved
  | SaveFailed (reason : JSONValue).

(** The body of a callback, called with the value its promise was
    fulfilled with.  A returned [Resolved a] is a plain return of [a]. *)
Definition callback (k : frame) (a : answer) : M promise :=
  match k with
  | ThenGet plugin key level => get plugin key level
  | ThenInstall plugin =>
      match a with
      | Value result => install plugin result
      | _ => untyped
      end
  | ThenLoad plugin => load plugin false
  | ThenSet plugin key value level => set plugin key value level
  | ThenEmit plugin => emit plugin;; mret (Resolved Void)
  end.

(** The callbacks [ks] of a chain, from the fulfilment of its first promise
    with [a]: each gets what the one before returned; one that throws
    rejects the rest; one that returns a pending promise hands the rest of
    the chain over to it. *)
Fixpoint run (ks : list frame) (a : answer) : M promise :=
  match ks with
  | [] => mret (Resolved a)
  | k :: ks' => λ st,
      match callback k a st with
      | (st', Normal (Resolved a')) => run ks' a' st'
      | (st', Normal (Rejected e)) => (st', Normal (Rejected e))
      | (st', Normal (Pending w ks2)) => (st', Normal (Pending w (ks2 ++ ks')))
      | (st', Throw e) => (st', Normal (Rejected e))
      | (st', Untyped) => (st', Untyped)
      end
  end.

(** One step of a promise: [None] when the input is not what the promise
    waits for, and for [OnReady] as long as [_ready] is not resolved. *)
Definition step (p : promise) (i : input) (st : State)
  : option (State * completion promise) :=
  match p with
  | Pending w ks =>
      match w, i with
      | OnReady, Turn => if _ready st then Some (run ks Void st) else None
      | OnTurn a, Turn => Some (run ks a st)
      | OnFetch _, Fetched result => Some (run ks (Value result) st)
      | OnFetch _, FetchFailed reason => Some (st, Normal (Rejected (Failure reason)))
      | OnSave _, Saved => Some (run ks Void st)
      | OnSave _, SaveFailed reason => Some (st, Normal (Rejected (Failure reason)))
      | _, _ => None
      end
  | _ => None
  end.

(** The promise after the inputs [ins], fed one after the other; [None] when
    one of them is not what the promise waits for at that point, or a
    callback leaves the types of the file. *)
Fixpoint feed (ins : list input) (p : promise) (st : State)
  : option (State * promise) :=
  match ins with
  | [] => Some (st, p)
  | i :: ins' =>
      match step p i st with
      | Some (st', Normal p') => feed ins' p' st'
      | _ => None
      end
  end.

(** * Vocabulary of the statements *)

(** ** The shape of a cached record *)

(** [record] is an object, and its [data] is the object at [lb], with the
    own properties [bs]. *)
Definition bundle_at (h : heap) (record : JSONValue) (lb : loc) (bs : props)
  : Prop :=
  ∃ l ps, record = JRef l ∧ h !! l = Some (JSONObject ps) ∧
          prop_get ps "data" = Some (JRef lb) ∧ h !! lb = Some (JSONObject bs).

(** The bundle [bs] maps [level] to the object at [lm], with the own
    properties [ms]. *)
Definition mapping_at (h : heap) (bs : props) (level : Level) (lm : loc)
    (ms : props) : Prop :=
  prop_get bs (level_name level) = Some (JRef lm) ∧ h !! lm = Some (JSONObject ms).

(** Nothing is recorded for [key] at [level] in [record]: the record, its
    bundle, the mapping of the level or the key is missing, and [key] is
    not a name that the mapping inherits from [Object.prototype]. *)
Inductive absent (h : heap) (record : JSONValue) (key : string) (level : Level)
  : Prop :=
  | absent_record :
      truthy (Some record) = false →
      absent h record key level
  | absent_bundle l ps :
      record = JRef l →
      h !! l = Some (JSONObject ps) →
      truthy (prop_get ps "data") = false →
      absent h record key level
  | absent_mapping lb bs :
      bundle_at h record lb bs →
      truthy (prop_get bs (level_name level)) = false →
      absent h record key level
  | absent_key lb bs lm ms :
      bundle_at h record lb bs →
      mapping_at h bs level lm ms →
      prop_get ms key = None →
      key ∉ Object_prototype →
      absent h record key level.

(** The side-table of [plugin] is missing, or it is an object as l.195
    makes it, without prototype. *)
Definition table_typed (st : State) (plugin : string) : Prop :=
  _annotations st !! plugin = None ∨
  ∃ lt ts, _annotations st !! plugin = Some (JRef lt) ∧
           objects st !! lt = Some (Bare ts).

(** The state after one more call on the datastore. *)
Definition logged (c : call) (st : State) : State :=
  with_calls (calls st ++ [c]) st.

(** The state after [plugin] was emitted to the connected slots. *)
Definition notified (plugin : string) (st : State) : State :=
  with_delivered (delivered st ++ ((λ s, (s, plugin)) <$> _pluginChanged st)) st.

(** ** Copies *)

(** [v] refers to no object outside [k, m). *)
Definition within (k m : nat) (v : JSONValue) : Prop :=
  match v with JRef l => k ≤ l < m | _ => True end.

Definition cell_within (k m : nat) (c : cell) : Prop :=
  match c with
  | JSONObject ps | Bare ps => Forall (λ p, within k m p.2) ps
  | JSONArray es => Forall (within k m) es
  | Derived proto ps => within k m proto ∧ Forall (λ p, within k m p.2) ps
  end.

(** From [k] on, an object of the heap refers to older objects only, and to
    none below [k]. *)
Definition ordered_from (k : nat) (h : heap) : Prop :=
  ∀ i c, k ≤ i → h !! i = Some c → cell_within k i c.

(** [v] refers to no object below [k]. *)
Definition above (k : nat) (v : JSONValue) : Prop :=
  match v with JRef l => k ≤ l | _ => True end.

Definition cell_above (k : nat) (c : cell) : Prop :=
  match c with
  | JSONObject ps | Bare ps => Forall (λ p, above k p.2) ps
  | JSONArray es => Forall (above k) es
  | Derived proto ps => above k proto ∧ Forall (λ p, above k p.2) ps
  end.

(** From [k] on, no object of the heap refers to an object below [k]: what
    an object from [k] on stands for does not depend on the objects below. *)
Definition closed_from (k : nat) (h : heap) : Prop :=
  ∀ i c, k ≤ i → h !! i = Some c → cell_above k c.

(** [v'] is a copy, made on the heap [h], of a value that stands for the
    text [t]: it stands for [t] in a heap [h ++ hn] that keeps [h] as it was,
    and it is made of the new objects [hn] only. *)
Definition copy_of (h : heap) (t : JSON) (v' : JSONValue) (hn : heap) : Prop :=
  json (h ++ hn) v' t ∧ closed_from (length h) (h ++ hn) ∧ above (length h) v'.

(** What [deepCopy] makes: arrays, and objects as [{}] makes them. *)
Definition made_by_copy (c : cell) : Prop :=
  match c with
  | JSONObject _ | JSONArray _ => True
  | Bare _ | Derived _ _ => False
  end.

(** The outcome of [deepCopy_aux n h v] when [v] stands for [t]. *)
Definition copy_ok (n : nat) (h : heap) (t : JSON)
    (r : completion (JSONValue * heap)) : Prop :=
  ∃ v' hn, r = Normal (v', h ++ hn) ∧
           ordered_from (length h) (h ++ hn) ∧
           within (length h) (length (h ++ hn)) v' ∧
           reify n (h ++ hn) v' = Some t ∧
           Forall made_by_copy hn.

(** ** What a handle shows *)

(** The text of the annotation of [key] in the content of the handle [s]:
    [s._content.annotations[key]]. *)
Definition annotation_in (h : heap) (s : Settings) (key : string) : option JSON :=
  match _content s with
  | Some c =>
      match reify (length h) h c with
      | Some (Object fs) =>
          match prop_get fs "annotations" with
          | Some (Object afs) => prop_get afs key
          | _ => None
          end
      | _ => None
      end
  | None => None
  end.

(** ** Frames, and what goes on around a call *)

(** [m] leaves the part [proj] of the state as it is. *)
Definition kept {A B} (proj : State → B) (m : M A) : Prop :=
  ∀ st, proj (m st).1 = proj st.

(** What happens around a call: any other call of the public interface but
    [setDB], a step of any promise, and any change of the heap by the
    callers.  ([Set_], as [Set] is a sort.) *)
Inductive action : Type :=
  | Annotate (plugin key : string) (annotation : JSONValue)
  | Get (plugin key : string) (level : Level)
  | Load (plugin : string) (reload : bool)
  | Remove (plugin key : string) (level : Level)
  | Set_ (plugin key : string) (value : JSONValue) (level : Level)
  | Upload (plugin : JSONValue)
  | Connect (s : slot)
  | Disconnect (s : slot)
  | Step (p : promise) (i : input)
  | Mutate (h : heap).

Definition perform (a : action) (st : State) : State :=
  match a with
  | Annotate plugin key annotation => (annotate plugin key annotation st).1
  | Get plugin key level => (get plugin key level st).1
  | Load plugin reload => (load plugin reload st).1
  | Remove plugin key level => (remove plugin key level st).1
  | Set_ plugin key value level => (set plugin key value level st).1
  | Upload plugin => (upload plugin st).1
  | Connect s => (connect s st).1
  | Disconnect s => (disconnect s st).1
  | Step p i => match step p i st with Some (st', _) => st' | None => st end
  | Mutate h => with_objects h st
  end.

Fixpoint perform_all (acts : list action) (st : State) : State :=
  match acts with
  | [] => st
  | a :: acts' => perform_all acts' (perform a st)
  end.

(** The promises a call of [set] goes through: it waits for the [save], for
    the [fetch] of the plugin, for [_ready], or for its turn. *)
Inductive set_promise (plugin key : string) (value : JSONValue) (level : Level)
  : promise → Prop :=
  | set_saving :
      set_promise plugin key value level
        (Pending (OnSave plugin) [ThenEmit plugin])
  | set_fetching :
      set_promise plugin key value level
        (Pending (OnFetch plugin) [ThenInstall plugin; ThenSet plugin key value level])
  | set_waiting :
      set_promise plugin key value level
        (Pending OnReady [ThenLoad plugin; ThenSet plugin key value level])
  | set_queued :
      set_promise plugin key value level
        (Pending (OnTurn Void) [ThenLoad plugin; ThenSet plugin key value level]).

(** ** What the getter [plugins] lists *)

(** [t] is the text [plugins] lists for [name]: the cached record of
    [name], a JSON object, with the side-table of [name], a JSON value or
    [null] when there is none, as its [annotations]. *)
Definition listed (st : State) (name : string) (t : JSON) : Prop :=
  ∃ record fs ta,
    _plugins st !! name = Some record ∧
    json (objects st) record (Object fs) ∧
    json (objects st) (or_null (_annotations st !! name)) ta ∧
    t = Object (prop_set fs "annotations" ta).

(** ** The promises of [load] and of [get] *)

(** The promises a call of [load] goes through: resolved with a handle on
    the plugin, or waiting for the [fetch], for [_ready], or for its turn. *)
Inductive load_promise (name : string) : promise → Prop :=
  | load_resolved s :
      plugin s = name → _isDisposed s = false →
      load_promise name (Resolved (Handle s))
  | load_fetching :
      load_promise name (Pending (OnFetch name) [ThenInstall name])
  | load_waiting :
      load_promise name (Pending OnReady [ThenLoad name])
  | load_queued :
      load_promise name (Pending (OnTurn Void) [ThenLoad name]).

(** The callbacks that [get] and [load] chain, and a promise that has no
    other. *)
Definition reading (k : frame) : Prop :=
  match k with
  | ThenGet _ _ _ | ThenInstall _ | ThenLoad _ => True
  | ThenSet _ _ _ _ | ThenEmit _ => False
  end.

Definition read_promise (q : promise) : Prop :=
  match q with Pending _ ks => Forall reading ks | _ => True end.

(** ** Invariants *)

(** [m] keeps the property [P] of the state. *)
Definition stable {A} (P : State → Prop) (m : M A) : Prop :=
  ∀ st, P st → P (m st).1.

(** [m] changes no object that is there: at most it adds objects to the
    heap. *)
Definition grows {A} (m : M A) : Prop :=
  ∀ st, ∃ hn, objects (m st).1 = objects st ++ hn.

(** [st] comes after [st0]: it is [st0], or what a later state becomes by
    a call of a method, [setDB] included, by a step of a promise, or by a
    change of the heap by the callers. *)
Inductive later (st0 : State) : State → Prop :=
  | later_now : later st0 st0
  | later_perform a st : later st0 st → later st0 (perform a st)
  | later_setDB ds st : later st0 st → later st0 (setDB ds st).1.

(** The states of a registry: those that come after a new registry, on
    any heap. *)
Definition reachable (st : State) : Prop := ∃ h, later (init h) st.

(** ** A small world *)

(** The datastore's record of the plugin [pkg.a],
    [{id: "pkg.a", data: {user: {fontSize: 12}}}], at the locations 0 to 2;
    an object [{a: 1}] of a caller at 3; an annotation
    [{label: "Font size"}] at 4. *)
Definition example_heap : heap :=
  [JSONObject [("id", JStr "pkg.a"); ("data", JRef 1)];
   JSONObject [("user", JRef 2)];
   JSONObject [("fontSize", JNum 12)];
   JSONObject [("a", JNum 1)];
   JSONObject [("label", JStr "Font size")]].

(** A new registry; the registry after [setDB] of the datastore 7; and
    after [load("pkg.a")] and the datastore's answer. *)
Definition fresh : State := init example_heap.

Definition attached : State := (setDB 7 fresh).1.

Definition loaded : State :=
  match load "pkg.a" false attached with
  | (st, Normal p) =>
      match feed [Fetched (JRef 0)] p st with
      | Some (st', _) => st'
      | None => st
      end
  | (st, _) => st
  end.

(** * Properties *)

(** Unfolding of the monad and of the heap primitives, and projections out
    of updated states. *)
Ltac mred :=
  cbv beta iota zeta delta
    [mbind M_bind mret M_ret gets modify throw untyped lift
     readProp writeProp deleteProp newObject].

Ltac fields :=
  cbn [objects _annotations _datastore _pluginChanged _plugins _ready
       delivered calls with_objects with_annotations with_datastore
       with_slots with_plugins with_ready with_delivered with_calls
       logged notified].

Lemma with_objects_same st : with_objects (objects st) st = st.
Proof. by destruct st. Qed.

(** ** Own properties *)

Lemma prop_get_set_eq {A} (ps : list (string * A)) k v :
  prop_get (prop_set ps k v) k = Some v.
Proof.
  induction ps as [|[k' v'] ps IH]; cbn.
  - by rewrite String.eqb_refl.
  - destruct (String.eqb k' k) eqn:E; cbn; by rewrite E.
Qed.

Lemma prop_get_set_ne {A} (ps : list (string * A)) k k' v :
  k ≠ k' → prop_get (prop_set ps k v) k' = prop_get ps k'.
Proof.
  intros Hne. induction ps as [|[k0 v0] ps IH]; cbn.
  - destruct (String.eqb k k') eqn:E; [|done]. by apply String.eqb_eq in E.
  - destruct (String.eqb k0 k) eqn:E; cbn.
    + apply String.eqb_eq in E as ->.
      destruct (String.eqb k k') eqn:E'; [|done]. by apply String.eqb_eq in E'.
    + by rewrite IH.
Qed.

Lemma prop_get_delete_eq {A} (ps : list (string * A)) k :
  prop_get (prop_delete ps k) k = None.
Proof.
  induction ps as [|[k' v'] ps IH]; cbn; [done|].
  destruct (String.eqb k' k) eqn:E; cbn; [done|]. by rewrite E.
Qed.

Lemma prop_get_delete_ne {A} (ps : list (string * A)) k k' :
  k ≠ k' → prop_get (prop_delete ps k) k' = prop_get ps k'.
Proof.
  intros Hne. induction ps as [|[k0 v0] ps IH]; cbn; [done|].
  destruct (String.eqb k0 k) eqn:E; cbn.
  - apply String.eqb_eq in E as ->.
    destruct (String.eqb k k') eqn:E'; [|done]. by apply String.eqb_eq in E'.
  - by rewrite IH.
Qed.

Lemma Forall_prop_set {A} (P : string * A → Prop) ps k v :
  Forall P ps → (∀ k', P (k', v)) → Forall P (prop_set ps k v).
Proof.
  intros Hps Hv. induction Hps as [|[k' v'] ps Hp Hps IH]; cbn.
  - by constructor.
  - destruct (String.eqb k' k); constructor; auto.
Qed.

Lemma or_null_falsy v : truthy v = false → or_null v = JNull.
Proof. destruct v as [j|]; [|done]. unfold or_null. by intros ->. Qed.

Lemma or_null_truthy v : truthy (Some v) = true → or_null (Some v) = v.
Proof. unfold or_null. by intros ->. Qed.

(** ** Dictionaries *)

Lemma dictionary_lookup_insert_eq (d : dictionary) k v :
  <[k := v]> d !! k = Some v.
Proof. apply prop_get_set_eq. Qed.

Lemma dictionary_lookup_insert_ne (d : dictionary) k k' v :
  k ≠ k' → <[k := v]> d !! k' = d !! k'.
Proof. apply prop_get_set_ne. Qed.

Lemma prop_set_id {A} (ps : list (string * A)) k v :
  prop_get ps k = Some v → prop_set ps k v = ps.
Proof.
  induction ps as [|[k' v'] ps IH]; cbn; [done|].
  destruct (String.eqb k' k); [by intros [= ->]|]. intros H. by rewrite IH.
Qed.

Lemma dictionary_insert_id (d : dictionary) k v :
  d !! k = Some v → <[k := v]> d = d.
Proof.
  destruct d as [ps]. unfold lookup, dictionary_lookup, insert, dictionary_insert.
  cbn [entries]. intros H. by rewrite prop_set_id.
Qed.

Lemma dictionary_lookup_empty k : (∅ : dictionary) !! k = None.
Proof. done. Qed.

Lemma dictionary_lookup_insert (d : dictionary) k k' v :
  <[k := v]> d !! k' = if decide (k = k') then Some v else d !! k'.
Proof.
  destruct (decide (k = k')) as [->|Hne].
  - apply dictionary_lookup_insert_eq.
  - by apply dictionary_lookup_insert_ne.
Qed.

Lemma prop_get_elem_of {A} (ps : list (string * A)) k :
  k ∈ ps.*1 ↔ is_Some (prop_get ps k).
Proof.
  induction ps as [|[k' v'] ps IH]; cbn.
  - split; [by intros ?%elem_of_nil|by intros [? [=]]].
  - rewrite elem_of_cons, IH. destruct (String.eqb k' k) eqn:E.
    + apply String.eqb_eq in E as ->. split; eauto.
    + apply String.eqb_neq in E. split; [|by right]. by intros [->|?].
Qed.

(** The names of an object after [o[k] = v]: a new name goes last. *)
Lemma prop_set_keys {A} (ps : list (string * A)) k v :
  (prop_set ps k v).*1 =
    if prop_get ps k is Some _ then ps.*1 else ps.*1 ++ [k].
Proof.
  induction ps as [|[k' v'] ps IH]; cbn; [done|].
  destruct (String.eqb k' k) eqn:E; cbn; [done|]. rewrite IH.
  by destruct (prop_get ps k).
Qed.

Lemma prop_set_NoDup {A} (ps : list (string * A)) k v :
  NoDup ps.*1 → NoDup (prop_set ps k v).*1.
Proof.
  intros Hnd. rewrite prop_set_keys. destruct (prop_get ps k) eqn:E; [done|].
  apply NoDup_app. split; [done|]. split; [|apply NoDup_singleton].
  intros x Hx ->%list_elem_of_singleton.
  apply prop_get_elem_of in Hx as [? Hx]. by rewrite E in Hx.
Qed.

(** ** The names [Object.keys] lists *)

Lemma indexed_keys ks :
  (omap indexed ks).*2 = filter (λ k, ¬ array_index k = None) ks.
Proof.
  induction ks as [|k ks IH]; [done|]. cbn [omap list_omap].
  rewrite filter_cons. unfold indexed at 1.
  destruct (array_index k) as [n|] eqn:E.
  - rewrite decide_True by done. cbn. by rewrite <- IH.
  - by rewrite decide_False by tauto.
Qed.

Lemma own_keys_Permutation ks : own_keys ks ≡ₚ ks.
Proof.
  unfold own_keys. rewrite merge_sort_Permutation, indexed_keys.
  rewrite Permutation_app_comm. apply filter_app_complement.
Qed.

Lemma own_keys_snoc ks k :
  array_index k = None → own_keys (ks ++ [k]) = own_keys ks ++ [k].
Proof.
  intros Hk. unfold own_keys. rewrite omap_app, filter_app. cbn [omap list_omap].
  unfold indexed at 2. rewrite Hk, app_nil_r, filter_cons, decide_True by done.
  by rewrite filter_nil, app_assoc.
Qed.

Lemma Object_keys_elem_of (d : dictionary) k :
  k ∈ Object_keys d ↔ is_Some (d !! k).
Proof.
  unfold Object_keys. rewrite own_keys_Permutation. apply prop_get_elem_of.
Qed.

Lemma Object_keys_NoDup (d : dictionary) :
  NoDup (entries d).*1 → NoDup (Object_keys d).
Proof. unfold Object_keys. by rewrite own_keys_Permutation. Qed.

Lemma Object_keys_cached (d : dictionary) k v :
  is_Some (d !! k) → Object_keys (<[k := v]> d) = Object_keys d.
Proof.
  intros [v' Hk]. unfold Object_keys, insert, dictionary_insert. cbn [entries].
  rewrite prop_set_keys. unfold lookup, dictionary_lookup in Hk. by rewrite Hk.
Qed.

Lemma Object_keys_new (d : dictionary) k v :
  d !! k = None → array_index k = None →
  Object_keys (<[k := v]> d) = Object_keys d ++ [k].
Proof.
  intros Hk Hi. unfold Object_keys, insert, dictionary_insert. cbn [entries].
  rewrite prop_set_keys. unfold lookup, dictionary_lookup in Hk. rewrite Hk.
  by apply own_keys_snoc.
Qed.

(** ** Names that an object inherits *)

Lemma inherited_None k : k ∉ Object_prototype → inherited k = None.
Proof. intros Hk. unfold inherited. by rewrite bool_decide_eq_false_2. Qed.

Lemma inherited_Some k : k ∈ Object_prototype → inherited k = Some (JNative k).
Proof. intros Hk. unfold inherited. by rewrite bool_decide_eq_true_2. Qed.

Lemma member_own ps k v : prop_get ps k = Some v → member ps k = Some v.
Proof. unfold member. by intros ->. Qed.

Lemma member_other ps k : k ∉ Object_prototype → member ps k = prop_get ps k.
Proof.
  intros Hk. unfold member. destruct (prop_get ps k); [done|].
  by apply inherited_None.
Qed.

Lemma member_inherited ps k :
  prop_get ps k = None → k ∈ Object_prototype → member ps k = Some (JNative k).
Proof. intros Hp Hk. unfold member. rewrite Hp. by apply inherited_Some. Qed.

Lemma level_name_other level : level_name level ∉ Object_prototype.
Proof. destruct level; by apply (bool_decide_unpack _). Qed.

Lemma level_name_proto level : level_name level ≠ "__proto__".
Proof. by destruct level. Qed.

(** The names the file reads and writes by themselves are not names of
    [Object.prototype]. *)
Lemma heap_read_data h l ps :
  h !! l = Some (JSONObject ps) →
  heap_read h (Some (JRef l)) "data" = Normal (prop_get ps "data").
Proof.
  intros Hl. unfold heap_read. rewrite Hl, member_other; [done|].
  by apply (bool_decide_unpack _).
Qed.


Lemma heap_read_level h l ps level :
  h !! l = Some (JSONObject ps) →
  heap_read h (Some (JRef l)) (level_name level) =
    Normal (prop_get ps (level_name level)).
Proof.
  intros Hl. unfold heap_read.
  by rewrite Hl, member_other by apply level_name_other.
Qed.

Lemma heap_read_own h l ps k v :
  h !! l = Some (JSONObject ps) ∨ h !! l = Some (Bare ps) →
  prop_get ps k = Some v →
  heap_read h (Some (JRef l)) k = Normal (Some v).
Proof.
  intros [Hl|Hl] Hk; unfold heap_read; rewrite Hl; [|by rewrite Hk].
  by rewrite (member_own _ _ _ Hk).
Qed.

Lemma heap_read_object h l ps k :
  h !! l = Some (JSONObject ps) →
  heap_read h (Some (JRef l)) k = Normal (member ps k).
Proof. intros Hl. unfold heap_read. by rewrite Hl. Qed.

Lemma heap_write_object h l ps k v :
  h !! l = Some (JSONObject ps) → k ≠ "__proto__" →
  heap_write h (Some (JRef l)) k v =
    Normal (<[l := JSONObject (prop_set ps k v)]> h).
Proof.
  intros Hl Hk. unfold heap_write. rewrite Hl.
  destruct (prop_get ps k); [done|].
  destruct (String.eqb k "__proto__") eqn:E; [|done].
  by apply String.eqb_eq in E.
Qed.

(** A write changes one object, or nothing. *)
Lemma heap_write_at h l k v h' :
  heap_write h (Some (JRef l)) k v = Normal h' →
  h' = h ∨ ∃ c, h' = <[l := c]> h.
Proof.
  unfold heap_write. destruct (h !! l) as [[ps|es|ps|p ps]|]; try done.
  - destruct (prop_get ps k); [intros [= <-]; eauto|].
    destruct (String.eqb k "__proto__"); [|intros [= <-]; eauto].
    unfold set_prototype. destruct v as [| | | |l'|k']; try (intros [= <-]; eauto).
    + destruct (inherits _ _ _ _); [done|]. intros [= <-]; eauto.
    + destruct (String.eqb k' "__proto__"); intros [= <-]; eauto.
  - intros [= <-]; eauto.
  - destruct (prop_get ps k); [|done]. intros [= <-]; eauto.
Qed.

Lemma heap_write_bare h l ps k v :
  h !! l = Some (Bare ps) →
  heap_write h (Some (JRef l)) k v = Normal (<[l := Bare (prop_set ps k v)]> h).
Proof. intros Hl. unfold heap_write. by rewrite Hl. Qed.

(** ** References that stay in a part of the heap *)

Lemma within_weaken k k' m m' v :
  k' ≤ k → m ≤ m' → within k m v → within k' m' v.
Proof. destruct v; cbn; lia. Qed.

Lemma cell_within_weaken k k' m m' c :
  k' ≤ k → m ≤ m' → cell_within k m c → cell_within k' m' c.
Proof.
  intros Hk Hm. destruct c; cbn; intros H; try destruct H as [Hp H];
    try split; eauto using within_weaken;
    (eapply Forall_impl; [exact H|]); cbn; eauto using within_weaken.
Qed.

Lemma above_le k k' v : k ≤ k' → above k' v → above k v.
Proof. destruct v; cbn; lia. Qed.

Lemma cell_above_le k k' c : k ≤ k' → cell_above k' c → cell_above k c.
Proof.
  intros Hk. destruct c; cbn; intros H; try destruct H as [Hp H];
    try split; eauto using above_le;
    (eapply Forall_impl; [exact H|]); cbn; eauto using above_le.
Qed.

Lemma within_above k m v : within k m v → above k v.
Proof. destruct v; cbn; lia. Qed.

Lemma ordered_closed k h : ordered_from k h → closed_from k h.
Proof.
  intros Ho i c Hi Hc. specialize (Ho i c Hi Hc).
  destruct c; cbn in *; try destruct Ho as [Hp Ho];
    try split; eauto using within_above;
    (eapply Forall_impl; [exact Ho|]); cbn; eauto using within_above.
Qed.

Lemma ordered_from_length h : ordered_from (length h) h.
Proof. intros i c Hi Hc. apply lookup_lt_Some in Hc. lia. Qed.

Lemma ordered_from_app k h hn :
  k ≤ length h → ordered_from k h → ordered_from (length h) (h ++ hn) →
  ordered_from k (h ++ hn).
Proof.
  intros Hk Hh Hn i c Hi Hc. destruct (decide (i < length h)) as [Hlt|Hge].
  - rewrite lookup_app_l in Hc by done. by apply Hh.
  - eapply cell_within_weaken; [| |apply (Hn i c)]; [done|done|lia|done].
Qed.

Lemma ordered_from_snoc k h c :
  ordered_from k h → cell_within k (length h) c → ordered_from k (h ++ [c]).
Proof.
  intros Ho Hc i c' Hi Hl. destruct (decide (i < length h)) as [Hlt|Hge].
  - rewrite lookup_app_l in Hl by done. by apply Ho.
  - pose proof (lookup_lt_Some _ _ _ Hl) as Hlen.
    rewrite length_app in Hlen. cbn in Hlen.
    assert (i = length h) as -> by lia.
    rewrite list_lookup_middle in Hl by done. by injection Hl as <-.
Qed.

(** ** The text of a value *)

Lemma reify_ref n h l :
  reify (S n) h (JRef l) =
    match h !! l with
    | Some c => reify_cell (reify n h) c
    | None => None
    end.
Proof. done. Qed.

Lemma reify_field_ext (f g : JSONValue → option JSON) ps fs :
  (∀ v t, f v = Some t → g v = Some t) →
  mapM (reify_field f) ps = Some fs → mapM (reify_field g) ps = Some fs.
Proof.
  intros Hfg H. apply mapM_Some in H. apply mapM_Some.
  eapply Forall2_impl; [done|]. intros [k v] [k' t'] Hf.
  unfold reify_field in *. cbn [fst snd] in *.
  destruct (f v) eqn:E; [|done]. by rewrite (Hfg _ _ E).
Qed.

Lemma reify_field_Forall (f g : JSONValue → option JSON) ps fs :
  Forall (λ p, ∀ t, f p.2 = Some t → g p.2 = Some t) ps →
  mapM (reify_field f) ps = Some fs → mapM (reify_field g) ps = Some fs.
Proof.
  intros Hfg H. apply mapM_Some in H. apply mapM_Some.
  induction H as [|[k1 v1] [k2 t2] ps fs Hf H IH]; [done|].
  inversion Hfg as [|? ? Hg Hfg']; subst. constructor; [|auto].
  unfold reify_field in *. cbn [fst snd] in *.
  destruct (f v1) eqn:E; [|done]. by rewrite (Hg _ eq_refl).
Qed.

Lemma reify_elems_ext (f g : JSONValue → option JSON) es ts :
  (∀ v t, f v = Some t → g v = Some t) →
  mapM f es = Some ts → mapM g es = Some ts.
Proof.
  intros Hfg H. apply mapM_Some in H. apply mapM_Some.
  eapply Forall2_impl; [done|]. auto.
Qed.

(** The objects that stand for a text: arrays, and objects with the
    prototype [Object.prototype] or none, without a property of their own
    named [__proto__]. *)
Lemma reify_cell_Some f c t :
  reify_cell f c = Some t ↔
  (∃ es ts, c = JSONArray es ∧ mapM f es = Some ts ∧ t = Array ts) ∨
  (∃ ps fs, (c = JSONObject ps ∨ c = Bare ps) ∧
            prop_get ps "__proto__" = None ∧
            mapM (reify_field f) ps = Some fs ∧ t = Object fs).
Proof.
  split.
  - destruct c as [ps|es|ps|p ps]; cbn [reify_cell]; [| | |done];
      try (destruct (prop_get ps "__proto__") eqn:E; [done|]);
      intros H; apply fmap_Some in H as (xs & H & ->);
      [right; exists ps, xs|left; exists es, xs|right; exists ps, xs]; auto.
  - intros [(es & ts & -> & H & ->) | (ps & fs & [-> | ->] & E & H & ->)];
      cbn [reify_cell]; by rewrite ?E, H.
Qed.

(** The fields of a text have the names of the properties they come
    from. *)
Lemma Forall2_fmap_fst_reify (f : JSONValue → option JSON) ps fs :
  Forall2 (λ p x, reify_field f p = Some x) ps fs → ps.*1 = fs.*1.
Proof.
  induction 1 as [|[k v] [k' t] ps fs Hf H IH]; [done|]. cbn. rewrite IH.
  unfold reify_field in Hf. cbn [fst snd] in Hf.
  destruct (f v); [|done]. by injection Hf as <- _.
Qed.

Lemma reify_cell_ext (f g : JSONValue → option JSON) c t :
  (∀ v t, f v = Some t → g v = Some t) →
  reify_cell f c = Some t → reify_cell g c = Some t.
Proof.
  intros Hfg. rewrite !reify_cell_Some.
  intros [(es & ts & -> & H & ->) | (ps & fs & Hc & E & H & ->)].
  - left. exists es, ts. eauto using reify_elems_ext.
  - right. exists ps, fs. eauto using reify_field_ext.
Qed.

(** The own properties of an object, whatever its prototype. *)
Lemma reify_cell_object f c fs :
  reify_cell f c = Some (Object fs) →
  ∃ ps, (c = JSONObject ps ∨ c = Bare ps) ∧
        prop_get ps "__proto__" = None ∧
        mapM (reify_field f) ps = Some fs.
Proof.
  rewrite reify_cell_Some.
  intros [(es & ts & -> & H & [=]) | (ps & fs' & Hc & E & H & [= ->])]. eauto.
Qed.

(** Two functions that agree on the members of an object give it the same
    text. *)
Lemma reify_cell_agree (f g : JSONValue → option JSON) c :
  match c with
  | JSONObject ps | Bare ps | Derived _ ps => Forall (λ p, f p.2 = g p.2) ps
  | JSONArray es => Forall (λ v, f v = g v) es
  end →
  reify_cell f c = reify_cell g c.
Proof.
  assert (∀ ps, Forall (λ p : string * JSONValue, f p.2 = g p.2) ps →
                mapM (reify_field f) ps = mapM (reify_field g) ps) as Hps.
  { intros ps H. apply Forall_mapM_ext. eapply Forall_impl; [exact H|].
    intros [k v] Hv. unfold reify_field. cbn [fst snd] in *. by rewrite Hv. }
  destruct c as [ps|es|ps|p ps]; cbn [reify_cell]; intros H; [| | |done].
  - by rewrite (Hps ps H).
  - f_equal. by apply Forall_mapM_ext.
  - by rewrite (Hps ps H).
Qed.

(** New objects at the end of the heap change no text. *)
Lemma reify_app n h x v t : reify n h v = Some t → reify n (h ++ x) v = Some t.
Proof.
  revert v t. induction n as [|n IH]; intros v t; destruct v; try done.
  rewrite !reify_ref. destruct (h !! l) as [c|] eqn:Hl; [|done].
  rewrite (lookup_app_l_Some _ _ _ _ Hl). apply reify_cell_ext, IH.
Qed.

Lemma reify_S n h v t : reify n h v = Some t → reify (S n) h v = Some t.
Proof.
  revert v t. induction n as [|n IH]; intros v t; destruct v; try done.
  rewrite (reify_ref n), (reify_ref (S n)).
  destruct (h !! l) as [c|]; [|done]. apply reify_cell_ext, IH.
Qed.

Lemma reify_le n m h v t : n ≤ m → reify n h v = Some t → reify m h v = Some t.
Proof. induction 1; eauto using reify_S. Qed.

Lemma json_app h x v t : json h v t → json (h ++ x) v t.
Proof.
  unfold json. intros H. eapply reify_le; [|by apply reify_app].
  rewrite length_app. lia.
Qed.

(** The text of a value depends on the objects it reaches only. *)
Lemma reify_within k m n h h2 v :
  ordered_from k h → within k m v →
  (∀ i, k ≤ i < m → h2 !! i = h !! i) →
  reify n h2 v = reify n h v.
Proof.
  intros Ho Hv Heq. revert v Hv.
  induction n as [|n IH]; intros v Hv; destruct v; try done.
  cbn in Hv. rewrite !reify_ref, (Heq _ Hv).
  destruct (h !! l) as [c|] eqn:Hl; [|done].
  assert (cell_within k m c) as Hc.
  { eapply cell_within_weaken; [| |apply (Ho l c)]; [done| |lia|done]. lia. }
  apply reify_cell_agree.
  destruct c as [ps|es|ps|p ps]; cbn in Hc; try destruct Hc as [_ Hc];
    (eapply Forall_impl; [exact Hc|]); cbn; auto.
Qed.

Lemma reify_closed k n h h2 v :
  closed_from k h → above k v →
  (∀ i, k ≤ i → h2 !! i = h !! i) →
  reify n h2 v = reify n h v.
Proof.
  intros Hc Hv Heq. revert v Hv.
  induction n as [|n IH]; intros v Hv; destruct v; try done.
  cbn in Hv. rewrite !reify_ref, (Heq _ Hv).
  destruct (h !! l) as [c|] eqn:Hl; [|done].
  specialize (Hc _ _ Hv Hl). apply reify_cell_agree.
  destruct c as [ps|es|ps|p ps]; cbn in Hc; try destruct Hc as [_ Hc];
    (eapply Forall_impl; [exact Hc|]); cbn; auto.
Qed.

Lemma mapM_prop_set (f : JSONValue → option JSON) ps fs k v t :
  mapM (reify_field f) ps = Some fs → f v = Some t →
  mapM (reify_field f) (prop_set ps k v) = Some (prop_set fs k t).
Proof.
  intros H Hv. apply mapM_Some in H. apply mapM_Some.
  induction H as [|[k1 v1] [k2 t2] ps fs Hf H IH]; cbn.
  - constructor; [|done]. unfold reify_field. cbn. by rewrite Hv.
  - unfold reify_field in Hf. cbn [fst snd] in Hf.
    destruct (f v1) eqn:E; [|done]. injection Hf as <- <-.
    destruct (String.eqb k1 k); constructor; try done;
      unfold reify_field; cbn [fst snd]; by rewrite ?Hv, ?E.
Qed.

Lemma mapM_prop_get (f : JSONValue → option JSON) ps fs k v :
  mapM (reify_field f) ps = Some fs → prop_get ps k = Some v →
  ∃ t, prop_get fs k = Some t ∧ f v = Some t.
Proof.
  intros H. apply mapM_Some in H.
  induction H as [|[k1 v1] [k2 t2] ps fs Hf H IH]; cbn; [done|].
  unfold reify_field in Hf. cbn [fst snd] in Hf.
  destruct (f v1) eqn:E; [|done]. injection Hf as <- <-.
  destruct (String.eqb k1 k); [|done]. intros [= <-]. eauto.
Qed.

Lemma mapM_prop_get_inv (f : JSONValue → option JSON) ps fs k t :
  mapM (reify_field f) ps = Some fs → prop_get fs k = Some t →
  ∃ v, prop_get ps k = Some v ∧ f v = Some t.
Proof.
  intros H. apply mapM_Some in H.
  induction H as [|[k1 v1] [k2 t2] ps fs Hf H IH]; cbn; [done|].
  unfold reify_field in Hf. cbn [fst snd] in Hf.
  destruct (f v1) eqn:E; [|done]. injection Hf as <- <-.
  destruct (String.eqb k1 k); [|done]. intros [= <-]. eauto.
Qed.

Lemma reify_object n h v fs :
  reify n h v = Some (Object fs) →
  ∃ n' l ps, n = S n' ∧ v = JRef l ∧
             (h !! l = Some (JSONObject ps) ∨ h !! l = Some (Bare ps)) ∧
             prop_get ps "__proto__" = None ∧
             mapM (reify_field (reify n' h)) ps = Some fs.
Proof.
  destruct v; destruct n as [|n']; try done. rewrite reify_ref.
  destruct (h !! l) as [c|] eqn:Hl; [|done]. intros H.
  apply reify_cell_object in H as (ps & [-> | ->] & E & H);
    exists n', l, ps; auto.
Qed.

Lemma reify_str n h v s : reify n h v = Some (Str s) → v = JStr s.
Proof.
  destruct v; destruct n as [|n']; try done; cbn; try by intros [= ->].
  destruct (h !! l) as [c|]; [|done]. rewrite reify_cell_Some.
  by intros [(es & ts & _ & _ & [=]) | (ps & fs & _ & _ & _ & [=])].
Qed.

(** ** The depth a text needs *)

Section Height.
Variables (n : nat) (h : list cell).
Hypothesis IH : ∀ v t, reify n h v = Some t → reify (height t) h v = Some t.

Lemma fields_height ps : ∀ fs,
  mapM (reify_field (reify n h)) ps = Some fs →
  mapM (reify_field (reify (foldr (λ f m, height f.2 `max` m) 0 fs) h)) ps = Some fs.
Proof.
  induction ps as [|[k v] ps IHps]; intros fs H; apply mapM_Some in H;
    inversion H as [|? [k' t] ? fs' Hf Hps]; subst; [done|].
  apply mapM_Some in Hps. unfold reify_field in Hf. cbn [fst snd] in Hf.
  destruct (reify n h v) as [t0|] eqn:E; [|done]. injection Hf as <- <-.
  cbn [foldr snd]. apply mapM_Some. constructor.
  - unfold reify_field. cbn [fst snd].
    rewrite (reify_le (height t0) _ h v t0); [done|lia|by apply IH].
  - apply mapM_Some. eapply reify_field_ext; [|by apply IHps].
    intros v1 t1. apply reify_le. lia.
Qed.

Lemma elems_height es : ∀ ts,
  mapM (reify n h) es = Some ts →
  mapM (reify (foldr (λ t m, height t `max` m) 0 ts) h) es = Some ts.
Proof.
  induction es as [|v es IHes]; intros ts H; apply mapM_Some in H;
    inversion H as [|? t ? ts' Hf Hes]; subst; [done|].
  apply mapM_Some in Hes. cbn [foldr]. apply mapM_Some. constructor.
  - apply (reify_le (height t)); [lia|by apply IH].
  - apply mapM_Some. eapply reify_elems_ext; [|by apply IHes].
    intros v1 t1. apply reify_le. lia.
Qed.
End Height.

(** The depth of a text is fuel enough. *)
Lemma reify_height n : ∀ h v t,
  reify n h v = Some t → reify (height t) h v = Some t.
Proof.
  induction n as [|n IH]; intros h v t; destruct v; try done;
    try (by intros [= <-]).
  rewrite reify_ref. destruct (h !! l) as [c|] eqn:Hl; [|done].
  rewrite reify_cell_Some.
  intros [(es & ts & -> & H & ->) | (ps & fs & Hc & E & H & ->)];
    cbn [height]; rewrite reify_ref, Hl; apply reify_cell_Some.
  - left. exists es, ts. split; [done|]. split; [|done].
    apply (elems_height n); auto.
  - right. exists ps, fs. split; [done|]. split; [done|]. split; [|done].
    apply (fields_height n); auto.
Qed.

Lemma foldr_max_attained {A} (f : A → nat) xs :
  0 < foldr (λ x m, f x `max` m) 0 xs →
  ∃ x, x ∈ xs ∧ f x = foldr (λ x m, f x `max` m) 0 xs.
Proof.
  induction xs as [|x xs IH]; cbn [foldr]; [lia|]. intros Hpos.
  destruct (decide (foldr (λ x m, f x `max` m) 0 xs ≤ f x)) as [Hle|Hgt].
  - exists x. split; [by left|lia].
  - destruct IH as (x' & Hx' & E); [lia|]. exists x'. split; [by right|lia].
Qed.

Lemma NoDup_bounded (L : list nat) n :
  NoDup L → Forall (λ x, x < n) L → length L ≤ n.
Proof.
  intros Hnd HL. assert (L ⊆+ seq 0 n) as Hsub.
  { apply NoDup_submseteq; [done|]. intros x Hx. apply elem_of_seq.
    rewrite Forall_forall in HL. specialize (HL x Hx). lia. }
  apply submseteq_length in Hsub. by rewrite length_seq in Hsub.
Qed.

(** A child of the deepest kind below an object that stands for a text. *)
Lemma deepest_child n h l t m :
  reify (S n) h (JRef l) = Some t → height t = S m → 0 < m →
  ∃ l' t', reify n h (JRef l') = Some t' ∧ height t' = m.
Proof.
  assert (∀ v t', reify n h v = Some t' → 0 < height t' → ∃ l', v = JRef l')
    as Href.
  { intros v t' Ev Hpos. destruct v as [| | | |l'|];
      try (by destruct n; injection Ev as <-; cbn in Hpos; lia); eauto.
    by destruct n. }
  rewrite reify_ref. destruct (h !! l) as [c|]; [|done].
  rewrite reify_cell_Some.
  intros [(es & xs & -> & H & ->) | (ps & xs & Hc & _ & H & ->)];
    cbn [height]; intros [= <-] Hpos;
    destruct (foldr_max_attained _ _ Hpos) as (x & Hx & E); apply mapM_Some in H.
  - apply list_elem_of_lookup in Hx as [i Hi].
    destruct (Forall2_lookup_r _ _ _ _ _ H Hi) as (v & _ & Ev).
    rewrite <- E in *.
    destruct (Href _ _ Ev Hpos) as [l' ->]. by exists l', x.
  - apply list_elem_of_lookup in Hx as [i Hi].
    destruct (Forall2_lookup_r _ _ _ _ _ H Hi) as ([k v] & _ & Hf).
    unfold reify_field in Hf. cbn [fst snd] in Hf.
    destruct (reify n h v) as [t'|] eqn:Ev; [|done]. injection Hf as <-.
    cbn [snd] in E. rewrite <- E in *.
    destruct (Href _ _ Ev Hpos) as [l' ->]. by exists l', t'.
Qed.

(** Below an object that stands for a text of depth [d] there are [d]
    different objects. *)
Lemma reify_chain n : ∀ h l t,
  reify n h (JRef l) = Some t →
  ∃ L, length L = height t ∧ NoDup L ∧
       Forall (λ l', l' < length h ∧
                     ∃ t', reify n h (JRef l') = Some t' ∧ height t' ≤ height t) L.
Proof.
  induction n as [|n IH]; intros h l t H; [done|].
  assert (l < length h) as Hl.
  { rewrite reify_ref in H. destruct (h !! l) eqn:E; [|done].
    by eapply lookup_lt_Some. }
  assert (∃ m, height t = S m) as [m Hm].
  { rewrite reify_ref in H. destruct (h !! l) as [c|]; [|done].
    apply reify_cell_Some in H
      as [(es & xs & _ & _ & ->) | (ps & xs & _ & _ & _ & ->)]; cbn; eauto. }
  destruct (decide (m = 0)) as [->|Hpos].
  - exists [l]. rewrite Hm. split; [done|]. split; [apply NoDup_singleton|].
    constructor; [|done]. split; [done|]. exists t. split; [done|lia].
  - destruct (deepest_child n h l t m H Hm) as (l' & t' & H' & Hm'); [lia|].
    destruct (IH h l' t' H') as (L & HL & Hnd & HF).
    exists (l :: L). rewrite Hm. split; [cbn; lia|]. split.
    + constructor; [|done]. intros Hin. rewrite Forall_forall in HF.
      destruct (HF l Hin) as (_ & t0 & H0 & Hh0).
      apply reify_S in H0. rewrite H in H0. injection H0 as <-. lia.
    + constructor.
      * split; [done|]. exists t. split; [done|lia].
      * eapply Forall_impl; [exact HF|]. intros l0 (Hl0 & t0 & H0 & Hh0).
        split; [done|]. exists t0. split; [by apply reify_S|lia].
Qed.

(** Fuel beyond the size of the heap is of no use: a value that stands
    for a text does so within the depth [length h]. *)
Lemma reify_json n h v t : reify n h v = Some t → json h v t.
Proof.
  intros H. unfold json. destruct v;
    try (by destruct n, (length h); injection H as <-);
    try (by destruct n).
  destruct (reify_chain _ _ _ _ H) as (L & HL & Hnd & HF).
  apply (reify_le (height t)); [|by eapply reify_height].
  rewrite <- HL. apply NoDup_bounded; [done|].
  eapply Forall_impl; [exact HF|]. by intros ? [? _].
Qed.

(** ** [deepCopy] *)

Section DeepCopyLists.
Variable n : nat.
Hypothesis IH : ∀ h v t,
  reify n h v = Some t → copy_ok n h t (deepCopy_aux n h v).

Lemma deepObjectCopy_ok ps : ∀ h fs k,
  k ≤ length h → ordered_from k h →
  mapM (reify_field (reify n h)) ps = Some fs →
  ∃ ps' hn,
    deepObjectCopy (deepCopy_aux n) h ps = Normal (ps', h ++ hn) ∧
    ordered_from k (h ++ hn) ∧
    Forall (λ p, within k (length (h ++ hn)) p.2) ps' ∧
    mapM (reify_field (reify n (h ++ hn))) ps' = Some fs ∧
    Forall made_by_copy hn.
Proof.
  induction ps as [|[key v] ps IHps]; intros h fs k Hk Ho H.
  - exists [], []. rewrite app_nil_r. by repeat split.
  - apply mapM_Some in H. inversion H as [|? [key' t] ? fs' Hv Hps]; subst.
    apply mapM_Some in Hps. unfold reify_field in Hv. cbn [fst snd] in Hv.
    destruct (reify n h v) as [t0|] eqn:Ev; [|done]. injection Hv as <- <-.
    destruct (IH _ _ _ Ev) as (v' & hn1 & E1 & Hn1 & Hv' & Rv' & Hm1).
    destruct (IHps (h ++ hn1) fs' k)
      as (ps' & hn2 & E2 & Hn2 & Hps' & Rps' & Hm2).
    { rewrite length_app. lia. }
    { by apply ordered_from_app. }
    { eapply reify_field_ext; [|done]. intros; by apply reify_app. }
    exists ((key, v') :: ps'), (hn1 ++ hn2). cbn [deepObjectCopy].
    rewrite E1, E2, app_assoc. split; [done|]. split; [done|].
    split; [|split; [|by apply Forall_app]].
    + constructor; [|done]. cbn [snd].
      eapply within_weaken; [| |exact Hv']; [done|]. rewrite !length_app. lia.
    + apply mapM_Some. constructor; [|by apply mapM_Some].
      unfold reify_field. cbn [fst snd]. by rewrite (reify_app _ _ hn2 _ _ Rv').
Qed.

Lemma deepArrayCopy_ok es : ∀ h ts k,
  k ≤ length h → ordered_from k h →
  mapM (reify n h) es = Some ts →
  ∃ es' hn,
    deepArrayCopy (deepCopy_aux n) h es = Normal (es', h ++ hn) ∧
    ordered_from k (h ++ hn) ∧
    Forall (within k (length (h ++ hn))) es' ∧
    mapM (reify n (h ++ hn)) es' = Some ts ∧
    Forall made_by_copy hn.
Proof.
  induction es as [|v es IHes]; intros h ts k Hk Ho H.
  - exists [], []. rewrite app_nil_r. by repeat split.
  - apply mapM_Some in H. inversion H as [|? t ? ts' Ev Hes]; subst.
    apply mapM_Some in Hes.
    destruct (IH _ _ _ Ev) as (v' & hn1 & E1 & Hn1 & Hv' & Rv' & Hm1).
    destruct (IHes (h ++ hn1) ts' k)
      as (es' & hn2 & E2 & Hn2 & Hes' & Res' & Hm2).
    { rewrite length_app. lia. }
    { by apply ordered_from_app. }
    { eapply reify_elems_ext; [|done]. intros; by apply reify_app. }
    exists (v' :: es'), (hn1 ++ hn2). cbn [deepArrayCopy].
    rewrite E1, E2, app_assoc. split; [done|]. split; [done|].
    split; [|split; [|by apply Forall_app]].
    + constructor; [|done].
      eapply within_weaken; [| |exact Hv']; [done|]. rewrite !length_app. lia.
    + apply mapM_Some. constructor; [|by apply mapM_Some].
      by apply reify_app.
Qed.
End DeepCopyLists.

(** A value that stands for a text within depth [n] is copied, object by
    object, onto the end of the heap. *)
Lemma deepCopy_aux_ok n : ∀ h v t,
  reify n h v = Some t → copy_ok n h t (deepCopy_aux n h v).
Proof.
  induction n as [|n IH]; intros h v t H.
  - destruct v; try done; eexists _, []; rewrite app_nil_r;
      repeat split; auto using ordered_from_length.
  - destruct v; try done; try (eexists _, []; rewrite app_nil_r;
      repeat split; by auto using ordered_from_length).
    rewrite reify_ref in H. cbn [deepCopy_aux].
    destruct (h !! l) as [c|] eqn:Hl; [|done].
    apply reify_cell_Some in H
      as [(es & xs & -> & H & ->) | (ps & xs & Hc & Hproto & H & ->)].
    + destruct (deepArrayCopy_ok n IH es h xs (length h))
        as (es' & hn & E & Hn & Hes' & R & Hm);
        [done|apply ordered_from_length|done|].
      rewrite E. exists (JRef (length (h ++ hn))), (hn ++ [JSONArray es']).
      rewrite app_assoc. split; [done|]. split; [by apply ordered_from_snoc|].
      split; [cbn; rewrite !length_app; cbn; lia|].
      split; [|apply Forall_app; split; [done|by constructor]].
      rewrite reify_ref, list_lookup_middle by done. cbn [reify_cell].
      apply fmap_Some. exists xs. split; [|done].
      eapply reify_elems_ext; [|done]. intros; by apply reify_app.
    + destruct (deepObjectCopy_ok n IH ps h xs (length h))
        as (ps' & hn & E & Hn & Hps' & R & Hm);
        [done|apply ordered_from_length|done|].
      assert (prop_get ps' "__proto__" = None) as Hproto'.
      { apply mapM_Some in H, R.
        destruct (prop_get ps' "__proto__") as [v'|] eqn:E'; [|done].
        apply eq_None_not_Some in Hproto. exfalso. apply Hproto.
        apply prop_get_elem_of.
        assert (ps'.*1 = ps.*1) as <-.
        { transitivity (xs.*1); [|symmetry];
            eapply (Forall2_fmap_fst_reify); eassumption. }
        apply prop_get_elem_of. eauto. }
      assert (match deepObjectCopy (deepCopy_aux n) h ps with
              | Normal (ps', h') =>
                  Normal (JRef (length h'), h' ++ [JSONObject ps'])
              | Throw x => Throw x
              | Untyped => Untyped
              end = Normal (JRef (length (h ++ hn)), (h ++ hn) ++ [JSONObject ps']))
        as Hcopy by by rewrite E.
      exists (JRef (length (h ++ hn))), (hn ++ [JSONObject ps']).
      rewrite app_assoc. split.
      { by destruct Hc as [-> | ->]; rewrite Hproto. }
      split; [by apply ordered_from_snoc|].
      split; [cbn; rewrite !length_app; cbn; lia|].
      split; [|apply Forall_app; split; [done|by constructor]].
      rewrite reify_ref, list_lookup_middle by done. cbn [reify_cell].
      rewrite Hproto'. apply fmap_Some. exists xs. split; [|done].
      eapply reify_field_ext; [|done]. intros; by apply reify_app.
Qed.

Lemma deepCopy_ordered st v t :
  json (objects st) v t →
  ∃ v' hn,
    deepCopy v st = (with_objects (objects st ++ hn) st, Normal v') ∧
    ordered_from (length (objects st)) (objects st ++ hn) ∧
    within (length (objects st)) (length (objects st ++ hn)) v' ∧
    reify (length (objects st)) (objects st ++ hn) v' = Some t ∧
    Forall made_by_copy hn.
Proof.
  intros H.
  destruct (deepCopy_aux_ok _ _ _ _ H) as (v' & hn & E & Ho & Hb & R & Hm).
  exists v', hn. unfold deepCopy. by rewrite E.
Qed.

(** [deepCopy] of a JSON value returns a copy of it. *)
Lemma deepCopy_json st v t :
  json (objects st) v t →
  ∃ v' hn,
    deepCopy v st = (with_objects (objects st ++ hn) st, Normal v') ∧
    copy_of (objects st) t v' hn.
Proof.
  intros H.
  destruct (deepCopy_ordered _ _ _ H) as (v' & hn & E & Ho & Hb & R & _).
  exists v', hn. split; [done|]. repeat split.
  - unfold json. eapply reify_le; [|done]. rewrite length_app. lia.
  - by apply ordered_closed.
  - by eapply within_above.
Qed.

Lemma deepCopy_null st : deepCopy JNull st = (st, Normal JNull).
Proof.
  unfold deepCopy. destruct (length (objects st)); cbn [deepCopy_aux];
    by rewrite with_objects_same.
Qed.

(** A copy stands for the same text whatever becomes of the objects that
    were there before it was made. *)
Lemma copy_of_independent h t v' hn h2 :
  copy_of h t v' hn →
  (∀ i, length h ≤ i → h2 !! i = (h ++ hn) !! i) →
  reify (length (h ++ hn)) h2 v' = Some t.
Proof.
  intros (Hj & Hc & Ha) Heq. by rewrite (reify_closed _ _ _ _ _ Hc Ha Heq).
Qed.

(** ** The view [load] resolves with *)

Lemma view_ok st plugin record fs ta :
  json (objects st) record (Object fs) →
  json (objects st) (or_null (_annotations st !! plugin)) ta →
  ∃ c hn,
    view plugin record st =
      (with_objects (objects st ++ hn) st,
       Normal (new_Settings (Some c) plugin false)) ∧
    copy_of (objects st) (Object (prop_set fs "annotations" ta)) c hn.
Proof.
  intros Hr Ha. set (h := objects st) in *.
  destruct (deepCopy_ordered st record _ Hr)
    as (c & hn1 & E1 & Ho1 & Hb1 & R1 & Hm1).
  fold h in E1, Ho1, Hb1, R1. set (h1 := h ++ hn1) in *.
  destruct (reify_object _ _ _ _ R1)
    as (n' & lc & ps' & HN & -> & Hlc' & Hproto & Hps').
  cbn in Hb1. destruct Hb1 as [Hlo Hhi].
  assert (h1 !! lc = Some (JSONObject ps')) as Hlc.
  { destruct Hlc' as [Hlc'|Hlc']; [done|]. exfalso. unfold h1 in Hlc'.
    rewrite lookup_app_r in Hlc' by done. rewrite Forall_forall in Hm1.
    apply (Hm1 (Bare ps')). by eapply list_elem_of_lookup_2. }
  assert (json h1 (or_null (_annotations st !! plugin)) ta) as Ha1
    by by apply json_app.
  destruct (deepCopy_ordered (with_objects h1 st) _ _ Ha1)
    as (a & hn2 & E2 & Ho2 & Hb2 & R2 & Hm2).
  cbn [objects with_objects] in E2, Ho2, Hb2, R2. set (h2 := h1 ++ hn2) in *.
  assert (h2 !! lc = Some (JSONObject ps')) as Hlc2.
  { unfold h2. by rewrite lookup_app_l. }
  set (cell' := JSONObject (prop_set ps' "annotations" a)).
  set (h3 := <[lc := cell']> h2).
  assert (length h2 = length h + length hn1 + length hn2) as Hlen2.
  { unfold h2, h1. rewrite !length_app. lia. }
  assert (length h1 = length h + length hn1) as Hlen1.
  { unfold h1. by rewrite length_app. }
  exists (JRef lc), (<[lc - length h := cell']> (hn1 ++ hn2)).
  assert (h ++ <[lc - length h := cell']> (hn1 ++ hn2) = h3) as Hh3.
  { unfold h3, h2, h1. rewrite <- app_assoc.
    by rewrite (insert_app_r_alt h) by lia. }
  assert (cell_within (length h) lc (JSONObject ps')) as Hkids.
  { by apply (Ho1 lc). }
  cbn in Hkids. unfold copy_of. rewrite Hh3.
  split; [|repeat split].
  - unfold view. mred. rewrite E1. fields. rewrite E2. fields.
    fold h1 h2. by rewrite (heap_write_object _ _ _ _ _ Hlc2).
  - unfold json. unfold h3 at 1. rewrite length_insert.
    destruct (length h2) as [|m] eqn:Hm; [lia|].
    rewrite reify_ref. unfold h3 at 1. rewrite list_lookup_insert_eq by lia.
    unfold cell'. cbn [reify_cell]. rewrite prop_get_set_ne, Hproto by done.
    apply fmap_Some. eexists. split; [|done].
    apply mapM_prop_set.
    + eapply reify_field_Forall; [|exact Hps'].
      eapply Forall_impl; [exact Hkids|]. intros [k v] Hv t Ht. cbn [snd] in *.
      rewrite (reify_within (length h) lc m h1 h3 v); [|done|done|].
      * eapply reify_le; [|done]. lia.
      * intros i Hi. unfold h3, h2. rewrite list_lookup_insert_ne by lia.
        apply lookup_app_l. lia.
    + rewrite (reify_within (length h1) (S m) m h2 h3 a); [|done|done|].
      * destruct a; try (by destruct (length h1); destruct m).
        cbn in Hb2. eapply reify_le; [|done]. lia.
      * intros i Hi. unfold h3. apply list_lookup_insert_ne. lia.
  - intros i c' Hi Hc'. unfold h3 in Hc'.
    destruct (decide (i = lc)) as [->|Hne].
    + rewrite list_lookup_insert_eq in Hc' by lia. injection Hc' as <-.
      cbn. apply Forall_prop_set.
      * eapply Forall_impl; [exact Hkids|]. intros p. apply within_above.
      * intros k'. cbn [snd]. apply (within_above _ (length h2)).
        eapply within_weaken; [| |exact Hb2]; lia.
    + rewrite list_lookup_insert_ne in Hc' by done.
      destruct (decide (i < length h1)) as [Hlt|Hge].
      * unfold h2 in Hc'. rewrite lookup_app_l in Hc' by done.
        by apply (ordered_closed _ _ Ho1 i).
      * eapply cell_above_le; [|apply (ordered_closed _ _ Ho2 i); [lia|done]].
        lia.
  - cbn. lia.
Qed.

(** ** The methods, case by case *)

(** *** [get] *)

Lemma get_absent st plugin key level record :
  _plugins st !! plugin = Some record →
  absent (objects st) record key level →
  get plugin key level st = (st, Normal (Resolved (Value JNull))).
Proof.
  intros Hp Ha. unfold get. mred. rewrite Hp.
  destruct Ha as [H | l ps -> Hl H | lb bs (l & ps & -> & Hl & Hd & Hb) H
                 | lb bs lm ms (l & ps & -> & Hl & Hd & Hb) [Hm Hc] Hk Hown].
  - rewrite H. mred. rewrite H. mred. rewrite H. mred.
    by rewrite (or_null_falsy _ H), deepCopy_null.
  - cbn [truthy]. mred. rewrite (heap_read_data _ _ _ Hl). rewrite H. mred.
    rewrite H. mred. by rewrite (or_null_falsy _ H), deepCopy_null.
  - cbn [truthy]. mred. rewrite (heap_read_data _ _ _ Hl), Hd. cbn [truthy].
    mred. rewrite (heap_read_level _ _ _ _ Hb). rewrite H. mred.
    by rewrite (or_null_falsy _ H), deepCopy_null.
  - cbn [truthy]. mred. rewrite (heap_read_data _ _ _ Hl), Hd. cbn [truthy].
    mred. rewrite (heap_read_level _ _ _ _ Hb), Hm. cbn [truthy]. mred.
    rewrite (heap_read_object _ _ _ _ Hc), member_other, Hk by done.
    cbn [or_null]. by rewrite deepCopy_null.
Qed.

(** The value [get] copies when the key is there: the stored value, or
    [null] in place of a falsy one (l.215). *)
Lemma get_stored st plugin key level record lb bs lm ms v :
  _plugins st !! plugin = Some record →
  bundle_at (objects st) record lb bs →
  mapping_at (objects st) bs level lm ms →
  prop_get ms key = Some v →
  get plugin key level st =
    match deepCopy (or_null (Some v)) st with
    | (st', Normal result) => (st', Normal (Resolved (Value result)))
    | (st', Throw e) => (st', Throw e)
    | (st', Untyped) => (st', Untyped)
    end.
Proof.
  intros Hp (l & ps & -> & Hl & Hd & Hb) [Hm Hc] Hk.
  unfold get. mred. rewrite Hp. cbn [truthy]. mred.
  rewrite (heap_read_data _ _ _ Hl), Hd. cbn [truthy]. mred.
  rewrite (heap_read_level _ _ _ _ Hb), Hm. cbn [truthy]. mred.
  by rewrite (heap_read_object _ _ _ _ Hc), (member_own _ _ _ Hk).
Qed.

Lemma get_stored_falsy st plugin key level record lb bs lm ms v :
  _plugins st !! plugin = Some record →
  bundle_at (objects st) record lb bs →
  mapping_at (objects st) bs level lm ms →
  prop_get ms key = Some v →
  truthy (Some v) = false →
  get plugin key level st = (st, Normal (Resolved (Value JNull))).
Proof.
  intros Hp Hb Hm Hk Hv. rewrite (get_stored _ _ _ _ _ _ _ _ _ _ Hp Hb Hm Hk).
  by rewrite (or_null_falsy _ Hv), deepCopy_null.
Qed.

Lemma get_stored_truthy st plugin key level record lb bs lm ms v t :
  _plugins st !! plugin = Some record →
  bundle_at (objects st) record lb bs →
  mapping_at (objects st) bs level lm ms →
  prop_get ms key = Some v →
  truthy (Some v) = true →
  json (objects st) v t →
  ∃ v' hn,
    get plugin key level st =
      (with_objects (objects st ++ hn) st, Normal (Resolved (Value v'))) ∧
    copy_of (objects st) t v' hn.
Proof.
  intros Hp Hb Hm Hk Hv Hj. rewrite (get_stored _ _ _ _ _ _ _ _ _ _ Hp Hb Hm Hk).
  rewrite (or_null_truthy _ Hv).
  destruct (deepCopy_json _ _ _ Hj) as (v' & hn & E & Hc).
  exists v', hn. split; [|done]. by rewrite E.
Qed.

(** *** [load] *)

Lemma load_cached st plugin record fs ta :
  _plugins st !! plugin = Some record →
  json (objects st) record (Object fs) →
  json (objects st) (or_null (_annotations st !! plugin)) ta →
  ∃ c hn,
    load plugin false st =
      (with_objects (objects st ++ hn) st,
       Normal (Resolved (Handle (new_Settings (Some c) plugin false)))) ∧
    copy_of (objects st) (Object (prop_set fs "annotations" ta)) c hn.
Proof.
  intros Hp Hr Ha. destruct (view_ok _ plugin _ _ _ Hr Ha) as (c & hn & E & Hc).
  exists c, hn. split; [|done]. unfold load. mred. rewrite Hp. by rewrite E.
Qed.

Lemma load_fetch st d plugin (reload : bool) :
  _datastore st = Some d →
  (if reload then None else _plugins st !! plugin) = None →
  load plugin reload st =
    (logged (Fetch d plugin) st, Normal (Pending (OnFetch plugin) [ThenInstall plugin])).
Proof. intros Hd Hp. unfold load. mred. by rewrite Hp, Hd. Qed.

Lemma load_wait st plugin (reload : bool) :
  _datastore st = None →
  _ready st = false →
  (if reload then None else _plugins st !! plugin) = None →
  load plugin reload st = (st, Normal (Pending OnReady [ThenLoad plugin])).
Proof.
  intros Hd Hr Hp. unfold load, ready_promise. mred. by rewrite Hp, Hd, Hr.
Qed.

Lemma install_ok st plugin result fs id ta :
  json (objects st) result (Object fs) →
  prop_get fs "id" = Some (Str id) →
  json (objects st) (or_null (_annotations st !! plugin)) ta →
  ∃ c hn,
    install plugin result st =
      (with_objects (objects st ++ hn)
         (with_plugins (<[id := result]> (_plugins st)) st),
       Normal (Resolved (Handle (new_Settings (Some c) plugin false)))) ∧
    copy_of (objects st) (Object (prop_set fs "annotations" ta)) c hn.
Proof.
  intros Hr Hid Ha.
  destruct (reify_object _ _ _ _ Hr) as (n' & l & ps & HN & -> & Hl & _ & Hps).
  destruct (mapM_prop_get_inv _ _ _ _ _ Hps Hid) as (v & Hv & Hs).
  apply reify_str in Hs as ->.
  set (st1 := with_plugins (<[id := JRef l]> (_plugins st)) st).
  destruct (view_ok st1 plugin (JRef l) fs ta Hr Ha) as (c & hn & E & Hc).
  exists c, hn. split; [|done].
  unfold install. mred. rewrite (heap_read_own _ _ _ _ _ Hl Hv). mred.
  fold st1. by rewrite E.
Qed.

(** *** [set], [remove], [upload] *)

Lemma set_mapping st d plugin key value level record lb bs lm ms :
  _datastore st = Some d →
  _plugins st !! plugin = Some record →
  bundle_at (objects st) record lb bs →
  mapping_at (objects st) bs level lm ms →
  key ≠ "__proto__" →
  set plugin key value level st =
    (logged (Save d plugin (Some record))
       (with_objects (<[lm := JSONObject (prop_set ms key value)]> (objects st)) st),
     Normal (Pending (OnSave plugin) [ThenEmit plugin])).
Proof.
  intros Hd Hp (l & ps & -> & Hl & Hdata & Hb) [Hm Hc] Hk.
  unfold set. mred. rewrite Hp. mred.
  rewrite (heap_read_data _ _ _ Hl), Hdata, (heap_read_level _ _ _ _ Hb), Hm.
  cbn [truthy negb]. mred. rewrite (heap_read_level _ _ _ _ Hb), Hm.
  rewrite (heap_write_object _ _ _ _ _ Hc Hk).
  unfold _save. mred. fields. rewrite Hd. mred.
  unfold save. mred. fields. by rewrite Hp.
Qed.

Lemma set_no_mapping st d plugin key value level record lb bs :
  _datastore st = Some d →
  _plugins st !! plugin = Some record →
  bundle_at (objects st) record lb bs →
  truthy (prop_get bs (level_name level)) = false →
  key ≠ "__proto__" →
  set plugin key value level st =
    (logged (Save d plugin (Some record))
       (with_objects
          (<[length (objects st) := JSONObject [(key, value)]]>
             (<[lb := JSONObject
                        (prop_set bs (level_name level) (JRef (length (objects st))))]>
                (objects st ++ [JSONObject []]))) st),
     Normal (Pending (OnSave plugin) [ThenEmit plugin])).
Proof.
  intros Hd Hp (l & ps & -> & Hl & Hdata & Hb) Hm Hk.
  assert (lb < length (objects st)) as Hlt by by eapply lookup_lt_Some.
  unfold set. mred. rewrite Hp. mred.
  rewrite (heap_read_data _ _ _ Hl), Hdata, (heap_read_level _ _ _ _ Hb), Hm.
  cbn [negb]. mred. fields.
  rewrite (heap_write_object _ lb bs);
    [|by rewrite lookup_app_l|apply level_name_proto]. fields.
  rewrite (heap_read_level _ lb
             (prop_set bs (level_name level) (JRef (length (objects st)))))
    by (apply list_lookup_insert_eq; rewrite length_app; lia).
  rewrite prop_get_set_eq.
  rewrite (heap_write_object _ (length (objects st)) []); [| |done].
  - unfold _save. mred. fields. rewrite Hd. mred.
    unfold save. mred. fields. by rewrite Hp.
  - rewrite list_lookup_insert_ne by lia. by apply list_lookup_middle.
Qed.

Lemma remove_mapping st d plugin key level record lb bs lm ms :
  _datastore st = Some d →
  _plugins st !! plugin = Some record →
  bundle_at (objects st) record lb bs →
  mapping_at (objects st) bs level lm ms →
  remove plugin key level st =
    (logged (Save d plugin (Some record))
       (with_objects (<[lm := JSONObject (prop_delete ms key)]> (objects st)) st),
     Normal (Pending (OnSave plugin) [ThenEmit plugin])).
Proof.
  intros Hd Hp (l & ps & -> & Hl & Hdata & Hb) [Hm Hc].
  unfold remove. mred. rewrite Hp. mred.
  rewrite (heap_read_data _ _ _ Hl), Hdata, (heap_read_level _ _ _ _ Hb), Hm.
  cbn [truthy negb]. mred. unfold heap_delete. rewrite Hc.
  unfold _save. mred. fields. rewrite Hd. mred.
  unfold save. mred. fields. by rewrite Hp.
Qed.





(** *** The promise of [_save] *)

Lemma step_save_failed st plugin ks reason :
  step (Pending (OnSave plugin) ks) (SaveFailed reason) st =
    Some (st, Normal (Rejected (Failure reason))).
Proof. done. Qed.

Lemma step_saved st plugin :
  step (Pending (OnSave plugin) [ThenEmit plugin]) Saved st =
    Some (notified plugin st, Normal (Resolved Void)).
Proof. done. Qed.

(** *** [annotate] *)

Lemma annotate_first st plugin key annotation :
  _annotations st !! plugin = None →
  annotate plugin key annotation st =
    (notified plugin
       (with_objects (objects st ++ [Bare [(key, annotation)]])
          (with_annotations
             (<[plugin := JRef (length (objects st))]> (_annotations st)) st)),
     Normal tt).
Proof.
  intros Ha. unfold annotate. unfold newBare. mred. rewrite Ha.
  cbn [truthy negb]. mred. fields.
  rewrite dictionary_lookup_insert_eq. unfold heap_write.
  rewrite list_lookup_middle by done.
  cbn [prop_set]. unfold emit, notified. mred. fields.
  rewrite insert_app_r_alt by lia. rewrite Nat.sub_diag. done.
Qed.

Lemma annotate_again st plugin key annotation lt ts :
  _annotations st !! plugin = Some (JRef lt) →
  objects st !! lt = Some (Bare ts) →
  annotate plugin key annotation st =
    (notified plugin
       (with_objects (<[lt := Bare (prop_set ts key annotation)]> (objects st))
          st),
     Normal tt).
Proof.
  intros Ha Hl. unfold annotate. mred. rewrite Ha. cbn [truthy negb]. mred.
  rewrite Ha. unfold heap_write. rewrite Hl. done.
Qed.

(** *** [received] *)

Lemma received_emitted (s : nat) (plugin : string) (ss : list nat) :
  NoDup ss →
  (snd <$> filter (λ d : nat * string, d.1 = s) ((λ s', (s', plugin)) <$> ss)) =
    if bool_decide (s ∈ ss) then [plugin] else [].
Proof.
  induction 1 as [|s' ss Hs' Hss IH]; [done|].
  rewrite fmap_cons, filter_cons. cbn [fst].
  destruct (decide (s' = s)) as [->|Hne].
  - rewrite bool_decide_eq_true_2 by left. rewrite fmap_cons, IH.
    by rewrite bool_decide_eq_false_2.
  - rewrite IH. case_bool_decide as H1; case_bool_decide as H2; try done.
    + exfalso. apply H2. by right.
    + exfalso. apply elem_of_cons in H2 as [->|]; done.
Qed.

(** A slot connected when [plugin] is emitted receives it once, any other
    slot nothing. *)
Lemma received_notified s plugin st :
  NoDup (_pluginChanged st) →
  received s (notified plugin st) =
    received s st ++ (if bool_decide (s ∈ _pluginChanged st) then [plugin] else []).
Proof.
  intros Hnd. unfold received, notified. fields.
  by rewrite filter_app, fmap_app, received_emitted.
Qed.

(** *** What a handle shows of the side-table *)

Lemma annotation_in_view h c plugin fs tfs key :
  json h c (Object (prop_set fs "annotations" (Object tfs))) →
  annotation_in h (new_Settings (Some c) plugin false) key = prop_get tfs key.
Proof.
  unfold annotation_in, json. cbn [_content]. intros ->.
  by rewrite prop_get_set_eq.
Qed.

Lemma table_annotation h lt ts tt key annotation :
  h !! lt = Some (Bare ts) →
  prop_get ts key = Some annotation →
  json h (JRef lt) tt →
  ∃ tfs ta, tt = Object tfs ∧ prop_get tfs key = Some ta ∧ json h annotation ta.
Proof.
  unfold json. intros Hl Hk Hj. destruct (length h) as [|n] eqn:Hn; [done|].
  rewrite reify_ref, Hl in Hj.
  apply reify_cell_Some in Hj
    as [(? & ? & [=] & _) | (ts' & tfs & [[=] | [= <-]] & _ & Hts & ->)].
  destruct (mapM_prop_get _ _ _ _ _ Hts Hk) as (ta & Hta & Ha).
  exists tfs, ta. repeat split; [done|]. by apply reify_S.
Qed.

(** ** What the methods leave as it is *)

Section Kept.
Context {B : Type} (proj : State → B).
Hypothesis proj_objects : ∀ h st, proj (with_objects h st) = proj st.
Hypothesis proj_annotations : ∀ a st, proj (with_annotations a st) = proj st.
Hypothesis proj_plugins : ∀ p st, proj (with_plugins p st) = proj st.
Hypothesis proj_calls : ∀ c st, proj (with_calls c st) = proj st.

Lemma kept_ret {A} (a : A) : kept proj (mret a).
Proof. by intros st. Qed.

Lemma kept_bind {A A'} (m : M A) (f : A → M A') :
  kept proj m → (∀ a, kept proj (f a)) → kept proj (m ≫= f).
Proof.
  intros Hm Hf st. unfold mbind, M_bind. specialize (Hm st).
  destruct (m st) as [st' [a|e|]]; cbn [fst] in *; [|done..].
  by rewrite Hf.
Qed.

Lemma kept_gets {A} (f : State → A) : kept proj (gets f).
Proof. by intros st. Qed.

Lemma kept_throw {A} e : kept proj (@throw A e).
Proof. by intros st. Qed.

Lemma kept_untyped {A} : kept proj (@untyped A).
Proof. by intros st. Qed.

Lemma kept_readProp o k : kept proj (readProp o k).
Proof. by intros st. Qed.

Lemma kept_writeProp o k v : kept proj (writeProp o k v).
Proof.
  intros st. unfold writeProp. destruct (heap_write _ _ _ _); cbn; auto.
Qed.

Lemma kept_deleteProp o k : kept proj (deleteProp o k).
Proof.
  intros st. unfold deleteProp. destruct (heap_delete _ _ _); cbn; auto.
Qed.

Lemma kept_newObject : kept proj newObject.
Proof. intros st. apply proj_objects. Qed.

Lemma kept_newBare : kept proj newBare.
Proof. intros st. apply proj_objects. Qed.

Lemma kept_deepCopy v : kept proj (deepCopy v).
Proof.
  intros st. unfold deepCopy. destruct (deepCopy_aux _ _ _) as [[]| |]; cbn; auto.
Qed.

Lemma kept_set_annotations f :
  kept proj (modify (λ st, with_annotations (f st) st)).
Proof. intros st. apply proj_annotations. Qed.

Lemma kept_set_plugins f : kept proj (modify (λ st, with_plugins (f st) st)).
Proof. intros st. apply proj_plugins. Qed.

Lemma kept_set_calls f : kept proj (modify (λ st, with_calls (f st) st)).
Proof. intros st. apply proj_calls. Qed.

Ltac keep :=
  repeat first
    [ apply kept_ret | apply kept_gets | apply kept_throw | apply kept_untyped
    | apply kept_readProp | apply kept_writeProp | apply kept_deleteProp
    | apply kept_newObject | apply kept_newBare | apply kept_deepCopy
    | apply kept_set_annotations | apply kept_set_plugins | apply kept_set_calls
    | apply kept_bind; [|intros]
    | match goal with |- kept _ (match ?x with _ => _ end) => destruct x end
    | match goal with |- kept _ (if ?x then _ else _) => destruct x end ].

Lemma kept_view plugin record : kept proj (view plugin record).
Proof. unfold view. keep. Qed.

Lemma kept_load plugin reload : kept proj (load plugin reload).
Proof. unfold load, fetch, ready_promise. keep; auto using kept_view. Qed.

Lemma kept_install plugin result : kept proj (install plugin result).
Proof. unfold install. keep; auto using kept_view. Qed.

Lemma kept_get plugin key level : kept proj (get plugin key level).
Proof. unfold get. keep; auto using kept_load. Qed.

Lemma kept_save plugin : kept proj (_save plugin).
Proof. unfold _save, save. keep. Qed.

Lemma kept_remove plugin key level : kept proj (remove plugin key level).
Proof. unfold remove. keep; auto using kept_save. Qed.

Lemma kept_set plugin key value level : kept proj (set plugin key value level).
Proof. unfold set. keep; auto using kept_save, kept_load. Qed.

Lemma kept_upload plugin : kept proj (upload plugin).
Proof. unfold upload. keep; auto using kept_save. Qed.

Hypothesis proj_delivered : ∀ d st, proj (with_delivered d st) = proj st.
Hypothesis proj_slots : ∀ s st, proj (with_slots s st) = proj st.

Lemma kept_emit plugin : kept proj (emit plugin).
Proof. intros st. apply proj_delivered. Qed.

Lemma kept_annotate plugin key a : kept proj (annotate plugin key a).
Proof. unfold annotate. keep; auto using kept_emit. Qed.

Lemma kept_connect s : kept proj (connect s).
Proof.
  unfold connect. keep. all: intros st; apply proj_slots.
Qed.

Lemma kept_disconnect s : kept proj (disconnect s).
Proof.
  unfold disconnect. keep. all: intros st; apply proj_slots.
Qed.

Lemma kept_callback k a : kept proj (callback k a).
Proof.
  destruct k; cbn [callback]; auto using kept_get, kept_load, kept_set.
  - destruct a; auto using kept_install, kept_untyped.
  - keep; auto using kept_emit.
Qed.

Lemma kept_run ks : ∀ a, kept proj (run ks a).
Proof.
  induction ks as [|k ks IH]; intros a st; [done|]. cbn [run].
  pose proof (kept_callback k a st) as Hk.
  destruct (callback k a st) as [st' [[a'|e|w ks2]|e|]]; cbn [fst] in *; try done.
  by rewrite IH.
Qed.

Lemma kept_step p i st st' r : step p i st = Some (st', r) → proj st' = proj st.
Proof.
  assert (∀ ks a, run ks a st = (st', r) → proj st' = proj st) as Hrun.
  { intros ks a H. pose proof (kept_run ks a st) as Hr. by rewrite H in Hr. }
  destruct p as [| |w ks]; [done..|]. cbn [step].
  destruct w, i; try done; try (by intros [= <- <-]);
    try (intros [= H]; by eapply Hrun).
  destruct (_ready st); [|done]. intros [= H]. by eapply Hrun.
Qed.
End Kept.

Lemma perform_gate a st :
  _ready (perform a st) = _ready st ∧ _datastore (perform a st) = _datastore st.
Proof.
  destruct a; cbn [perform];
    try (split; [apply (kept_annotate _ready) || apply (kept_get _ready) ||
                 apply (kept_load _ready) || apply (kept_remove _ready) ||
                 apply (kept_set _ready) || apply (kept_upload _ready) ||
                 apply (kept_connect _ready) || apply (kept_disconnect _ready)
                |apply (kept_annotate _datastore) || apply (kept_get _datastore) ||
                 apply (kept_load _datastore) || apply (kept_remove _datastore) ||
                 apply (kept_set _datastore) || apply (kept_upload _datastore) ||
                 apply (kept_connect _datastore) || apply (kept_disconnect _datastore)];
         done).
  - destruct (step p i st) as [[st' r]|] eqn:E; [|done].
    split; [eapply (kept_step _ready)|eapply (kept_step _datastore)]; done.
  - done.
Qed.

Lemma perform_all_gate acts : ∀ st,
  _ready (perform_all acts st) = _ready st ∧
  _datastore (perform_all acts st) = _datastore st.
Proof.
  induction acts as [|a acts IH]; intros st; [done|].
  cbn [perform_all]. destruct (IH (perform a st)) as [-> ->]. apply perform_gate.
Qed.

(** ** The promises of a call of [set] *)

Lemma bind_Normal {A B} (m : M A) (f : A → M B) st st1 b :
  (m ≫= f) st = (st1, Normal b) →
  ∃ a st0, m st = (st0, Normal a) ∧ f a st0 = (st1, Normal b).
Proof.
  unfold mbind, M_bind. destruct (m st) as [st0 [a|e|]]; [|done..]. eauto.
Qed.

Lemma save_returns plugin st st1 q :
  _save plugin st = (st1, Normal q) →
  q = Pending (OnSave plugin) [ThenEmit plugin].
Proof.
  unfold _save. mred. destruct (_datastore st); [|done]. unfold save. mred.
  by intros [= _ <-].
Qed.

Lemma load_returns plugin st st1 q :
  load plugin false st = (st1, Normal q) →
  (∃ s, q = Resolved (Handle s)) ∨
  q = Pending (OnFetch plugin) [ThenInstall plugin] ∨
  q = Pending OnReady [ThenLoad plugin] ∨
  q = Pending (OnTurn Void) [ThenLoad plugin].
Proof.
  unfold load. mred. destruct (_plugins st !! plugin) as [record|].
  - destruct (view plugin record st) as [st2 [s|e|]]; [|done..].
    intros [= _ <-]. eauto.
  - destruct (_datastore st).
    + unfold fetch. mred. intros [= _ <-]. auto.
    + unfold ready_promise. mred. destruct (_ready st); intros [= _ <-]; auto.
Qed.

Lemma install_returns plugin result st st1 q :
  install plugin result st = (st1, Normal q) → ∃ s, q = Resolved (Handle s).
Proof.
  unfold install. intros H. apply bind_Normal in H as (id & st2 & _ & H).
  destruct id as [[| | |i| |]|]; try done.
  apply bind_Normal in H as (u & st3 & _ & H).
  apply bind_Normal in H as (s & st4 & _ & H).
  injection H as _ <-. eauto.
Qed.

Lemma load_uncached_returns plugin st st1 q :
  _plugins st !! plugin = None →
  load plugin false st = (st1, Normal q) →
  q = Pending (OnFetch plugin) [ThenInstall plugin] ∨
  q = Pending OnReady [ThenLoad plugin] ∨
  q = Pending (OnTurn Void) [ThenLoad plugin].
Proof.
  intros Hp. unfold load. mred. rewrite Hp. destruct (_datastore st).
  - unfold fetch. mred. intros [= _ <-]. auto.
  - unfold ready_promise. mred. destruct (_ready st); intros [= _ <-]; auto.
Qed.

Lemma set_returns plugin key value level st st1 q :
  set plugin key value level st = (st1, Normal q) →
  set_promise plugin key value level q.
Proof.
  unfold set. intros H. apply bind_Normal in H as (plugins & st2 & Hg & H).
  injection Hg as <- <-.
  destruct (_plugins st !! plugin) as [record|] eqn:Hp.
  - apply bind_Normal in H as (bundle & st3 & _ & H).
    apply bind_Normal in H as (mapping & st4 & _ & H).
    apply bind_Normal in H as (u & st5 & _ & H).
    apply bind_Normal in H as (mapping' & st6 & _ & H).
    apply bind_Normal in H as (u' & st7 & _ & H).
    apply save_returns in H as ->. constructor.
  - apply bind_Normal in H as (p & st3 & Hl & H). injection H as _ <-.
    apply (load_uncached_returns _ _ _ _ Hp) in Hl as [-> | [-> | ->]];
      constructor.
Qed.

Lemma run_cons k ks a st :
  run (k :: ks) a st =
    match callback k a st with
    | (st', Normal (Resolved a')) => run ks a' st'
    | (st', Normal (Rejected e)) => (st', Normal (Rejected e))
    | (st', Normal (Pending w ks2)) => (st', Normal (Pending w (ks2 ++ ks)))
    | (st', Throw e) => (st', Normal (Rejected e))
    | (st', Untyped) => (st', Untyped)
    end.
Proof. done. Qed.

(** The callbacks chained by [set] on a [load], from the point where the
    plugin is loaded. *)
Lemma run_then_set plugin key value level a st st' q' :
  run [ThenSet plugin key value level] a st = (st', Normal q') →
  ((∃ e, q' = Rejected e) ∨ set_promise plugin key value level q') ∧
  delivered st' = delivered st ∧ _pluginChanged st' = _pluginChanged st.
Proof.
  rewrite run_cons. cbn [callback run].
  assert (delivered (set plugin key value level st).1 = delivered st) as Hd
    by (apply (kept_set delivered); by intros).
  assert (_pluginChanged (set plugin key value level st).1 = _pluginChanged st) as Hs
    by (apply (kept_set _pluginChanged); by intros).
  destruct (set plugin key value level st) as [st1 [q|e|]] eqn:E; [| |done].
  - apply set_returns in E. cbn [fst] in *.
    destruct E; cbn [app]; intros [= <- <-]; repeat split; try done;
      right; constructor.
  - intros [= <- <-]. repeat split; eauto.
Qed.

Lemma run_then_load_set plugin key value level a st st' q' :
  run [ThenLoad plugin; ThenSet plugin key value level] a st = (st', Normal q') →
  ((∃ e, q' = Rejected e) ∨ set_promise plugin key value level q') ∧
  delivered st' = delivered st ∧ _pluginChanged st' = _pluginChanged st.
Proof.
  rewrite run_cons. cbn [callback].
  assert (delivered (load plugin false st).1 = delivered st) as Hd
    by (apply (kept_load delivered); by intros).
  assert (_pluginChanged (load plugin false st).1 = _pluginChanged st) as Hs
    by (apply (kept_load _pluginChanged); by intros).
  destruct (load plugin false st) as [st1 [q|e|]] eqn:E; cbn [fst] in *; [| |done].
  - apply load_returns in E as [[s ->] | [-> | [-> | ->]]]; cbn [app].
    + intros H. apply run_then_set in H as (H & Hd' & Hs').
      split; [done|]. by rewrite Hd', Hs'.
    + intros [= <- <-]. repeat split; try done. right. constructor.
    + intros [= <- <-]. repeat split; try done. right. constructor.
    + intros [= <- <-]. repeat split; try done. right. constructor.
  - intros [= <- <-]. repeat split; eauto.
Qed.

Lemma run_then_install_set plugin key value level result st st' q' :
  run [ThenInstall plugin; ThenSet plugin key value level] (Value result) st =
    (st', Normal q') →
  ((∃ e, q' = Rejected e) ∨ set_promise plugin key value level q') ∧
  delivered st' = delivered st ∧ _pluginChanged st' = _pluginChanged st.
Proof.
  rewrite run_cons. cbn [callback].
  assert (delivered (install plugin result st).1 = delivered st) as Hd
    by (apply (kept_install delivered); by intros).
  assert (_pluginChanged (install plugin result st).1 = _pluginChanged st) as Hs
    by (apply (kept_install _pluginChanged); by intros).
  destruct (install plugin result st) as [st1 [q|e|]] eqn:E; cbn [fst] in *;
    [| |done].
  - apply install_returns in E as [s ->].
    intros H. apply run_then_set in H as (H & Hd' & Hs').
    split; [done|]. by rewrite Hd', Hs'.
  - intros [= <- <-]. repeat split; eauto.
Qed.

Lemma set_promise_step plugin key value level q i st st' q' :
  set_promise plugin key value level q →
  step q i st = Some (st', Normal q') →
  (q = Pending (OnSave plugin) [ThenEmit plugin] ∧ i = Saved ∧
   q' = Resolved Void ∧ st' = notified plugin st) ∨
  (((∃ e, q' = Rejected e) ∨ set_promise plugin key value level q') ∧
   delivered st' = delivered st ∧ _pluginChanged st' = _pluginChanged st).
Proof.
  intros [] H; cbn [step] in H.
  - destruct i; try done.
    + left. by injection H as <- <-.
    + right. injection H as <- <-. repeat split; eauto.
  - destruct i; try done.
    + right. injection H as H. exact (run_then_install_set _ _ _ _ _ _ _ _ H).
    + right. injection H as <- <-. repeat split; eauto.
  - destruct i; try done. revert H. destruct (_ready st); [|done].
    intros [= H]. right. exact (run_then_load_set _ _ _ _ Void _ _ _ H).
  - destruct i; try done.
    right. injection H as H. exact (run_then_load_set _ _ _ _ Void _ _ _ H).
Qed.

(** ** Own properties, once more *)

Lemma prop_delete_absent {A} (ps : list (string * A)) k :
  prop_get ps k = None → prop_delete ps k = ps.
Proof.
  induction ps as [|[k' v'] ps IH]; cbn; [done|].
  destruct (String.eqb k' k); [done|]. intros H. by rewrite IH.
Qed.

(** ** The getter [plugins] *)

Lemma closed_from_app k h hn :
  k ≤ length h → closed_from k h → closed_from (length h) (h ++ hn) →
  closed_from k (h ++ hn).
Proof.
  intros Hk Hh Hn i c Hi Hc. destruct (decide (i < length h)) as [Hlt|Hge].
  - rewrite lookup_app_l in Hc by done. by apply (Hh i c).
  - eapply cell_above_le; [|apply (Hn i c)]; [done|lia|done].
Qed.

(** An entry of [plugins] is the content of the handle of [load]. *)
Lemma plugins_entry_view name record st st' s :
  _plugins st !! name = Some record →
  view name record st = (st', Normal s) →
  ∃ c, s = new_Settings (Some c) name false ∧
       plugins_entry name st = (st', Normal c).
Proof.
  intros Hp. unfold view, plugins_entry. mred. rewrite Hp.
  destruct (deepCopy record st) as [st1 [c|e|]]; [|done..].
  destruct (deepCopy (or_null (_annotations st1 !! name)) st1) as [st2 [a|e|]];
    [|done..].
  destruct (heap_write (objects st2) (Some c) "annotations" a); [|done..].
  intros [= <- <-]. eauto.
Qed.

Lemma plugins_entry_ok st name t :
  listed st name t →
  ∃ c hn,
    plugins_entry name st = (with_objects (objects st ++ hn) st, Normal c) ∧
    copy_of (objects st) t c hn.
Proof.
  intros (record & fs & ta & Hp & Hr & Ha & ->).
  destruct (view_ok _ name _ _ _ Hr Ha) as (c & hn & E & Hc).
  destruct (plugins_entry_view _ _ _ _ _ Hp E) as (c' & [= <-] & E').
  by exists c, hn.
Qed.

Lemma listed_app st hn name t :
  listed st name t → listed (with_objects (objects st ++ hn) st) name t.
Proof.
  intros (record & fs & ta & Hp & Hr & Ha & ->). exists record, fs, ta.
  fields. repeat split; auto using json_app.
Qed.

Lemma entries_cons k keys st :
  mapM plugins_entry (k :: keys) st =
    match plugins_entry k st with
    | (st1, Normal c) =>
        match mapM plugins_entry keys st1 with
        | (st2, Normal cs) => (st2, Normal (c :: cs))
        | (st2, Throw e) => (st2, Throw e)
        | (st2, Untyped) => (st2, Untyped)
        end
    | (st1, Throw e) => (st1, Throw e)
    | (st1, Untyped) => (st1, Untyped)
    end.
Proof.
  cbn [mapM]. mred.
  destruct (plugins_entry k st) as [st1 [c|e|]]; [|done..].
  by destruct (mapM plugins_entry keys st1) as [st2 [cs|e|]].
Qed.

Lemma entries_ok keys : ∀ st ts,
  Forall2 (listed st) keys ts →
  ∃ cs hn,
    mapM plugins_entry keys st =
      (with_objects (objects st ++ hn) st, Normal cs) ∧
    closed_from (length (objects st)) (objects st ++ hn) ∧
    Forall2 (λ c t, above (length (objects st)) c ∧ json (objects st ++ hn) c t)
            cs ts.
Proof.
  induction keys as [|k keys IH]; intros st ts H;
    inversion H as [|? t ? ts' Hk Hks]; subst.
  - exists [], []. rewrite app_nil_r, with_objects_same.
    repeat split; [|constructor].
    intros i c Hi Hc. apply lookup_lt_Some in Hc. lia.
  - destruct (plugins_entry_ok _ _ _ Hk) as (c & hn1 & E1 & Hj1 & Hc1 & Ha1).
    destruct (IH (with_objects (objects st ++ hn1) st) ts')
      as (cs & hn2 & E2 & Hc2 & Hcs).
    { eapply Forall2_impl; [exact Hks|]. intros ? ?. apply listed_app. }
    revert E2 Hc2 Hcs. fields. intros E2 Hc2 Hcs.
    exists (c :: cs), (hn1 ++ hn2). rewrite entries_cons, E1, E2. fields.
    rewrite app_assoc. repeat split.
    + apply closed_from_app; [rewrite length_app; lia|done|done].
    + constructor.
      * split; [done|]. by apply json_app.
      * eapply Forall2_impl; [exact Hcs|]. intros c' t' [Ha' Hj']. split; [|done].
        eapply above_le; [|exact Ha']. rewrite length_app. lia.
Qed.

Lemma plugins_ok st ts :
  Forall2 (listed st) (Object_keys (_plugins st)) ts →
  ∃ cs hn,
    plugins st = (with_objects (objects st ++ hn) st, Normal cs) ∧
    closed_from (length (objects st)) (objects st ++ hn) ∧
    Forall2 (λ c t, above (length (objects st)) c ∧ json (objects st ++ hn) c t)
            cs ts.
Proof. intros H. unfold plugins. mred. by apply entries_ok. Qed.

(** ** The promises of a call of [load] *)

Lemma view_returns name record st st' s :
  view name record st = (st', Normal s) →
  plugin s = name ∧ _isDisposed s = false.
Proof.
  unfold view. intros H.
  apply bind_Normal in H as (c & st1 & _ & H).
  apply bind_Normal in H as (t & st2 & _ & H).
  apply bind_Normal in H as (a & st3 & _ & H).
  apply bind_Normal in H as (u & st4 & _ & H).
  by injection H as _ <-.
Qed.

Lemma load_returns_promise name (reload : bool) st st1 q :
  load name reload st = (st1, Normal q) → load_promise name q.
Proof.
  unfold load. mred.
  destruct (if reload then None else _plugins st !! name) as [record|].
  - destruct (view name record st) as [st2 [s|e|]] eqn:E; [|done..].
    intros [= _ <-]. apply view_returns in E as [? ?]. by constructor.
  - destruct (_datastore st).
    + unfold fetch. mred. intros [= _ <-]. constructor.
    + unfold ready_promise. mred. destruct (_ready st); intros [= _ <-]; constructor.
Qed.

Lemma install_returns_promise name result st st1 q :
  install name result st = (st1, Normal q) → load_promise name q.
Proof.
  unfold install. intros H. apply bind_Normal in H as (id & st2 & _ & H).
  destruct id as [[| | |i| |]|]; try done.
  apply bind_Normal in H as (u & st3 & _ & H).
  apply bind_Normal in H as (s & st4 & E & H).
  injection H as _ <-. apply view_returns in E as [? ?]. by constructor.
Qed.

Lemma load_promise_step name q i st st' q' :
  load_promise name q →
  step q i st = Some (st', Normal q') →
  (∃ e, q' = Rejected e) ∨ load_promise name q'.
Proof.
  assert (∀ a, run [ThenLoad name] a st = (st', Normal q') →
               (∃ e, q' = Rejected e) ∨ load_promise name q') as Hload.
  { intros a. rewrite run_cons. cbn [callback run].
    destruct (load name false st) as [st1 [q1|e|]] eqn:E; [| |done].
    - apply load_returns_promise in E. destruct E; cbn [app]; mred;
        intros [= <- <-]; right; by constructor.
    - intros [= <- <-]. eauto. }
  intros Hq H. destruct Hq as [s Hs Hd| | |]; cbn [step] in H; try done.
  - destruct i; try done.
    + injection H as H. revert H.
      destruct (install name result st) as [st1 [q1|e|]] eqn:E; [| |done].
      * apply install_returns_promise in E. destruct E; cbn [app]; mred;
          intros [= <- <-]; right; by constructor.
      * intros [= <- <-]. eauto.
    + injection H as <- <-. eauto.
  - destruct i; try done. revert H. destruct (_ready st); [|done].
    intros [= H]. exact (Hload Void H).
  - destruct i; try done. injection H as H. exact (Hload Void H).
Qed.

(** ** Calls on a plugin that is not cached *)

Lemma get_fetch st d name key level :
  _datastore st = Some d →
  _plugins st !! name = None →
  get name key level st =
    (logged (Fetch d name) st,
     Normal (Pending (OnFetch name) [ThenInstall name; ThenGet name key level])).
Proof.
  intros Hd Hp. unfold get. mred. rewrite Hp.
  by rewrite (load_fetch st d name false).
Qed.

Lemma set_fetch st d name key value level :
  _datastore st = Some d →
  _plugins st !! name = None →
  set name key value level st =
    (logged (Fetch d name) st,
     Normal (Pending (OnFetch name)
               [ThenInstall name; ThenSet name key value level])).
Proof.
  intros Hd Hp. unfold set. mred. rewrite Hp.
  by rewrite (load_fetch st d name false).
Qed.

Lemma bundle_at_app h x record lb bs :
  bundle_at h record lb bs → bundle_at (h ++ x) record lb bs.
Proof.
  intros (l & ps & -> & Hl & Hd & Hb). exists l, ps.
  repeat split; auto using lookup_app_l_Some.
Qed.

Lemma mapping_at_app h x bs level lm ms :
  mapping_at h bs level lm ms → mapping_at (h ++ x) bs level lm ms.
Proof. intros [Hm Hl]. split; auto using lookup_app_l_Some. Qed.

Lemma absent_app h x record key level :
  absent h record key level → absent (h ++ x) record key level.
Proof.
  intros [H | l ps -> Hl H | lb bs Hb H | lb bs lm ms Hb Hm Hk Hown].
  - by apply absent_record.
  - eapply absent_bundle; [done| |done]. by apply lookup_app_l_Some.
  - eapply absent_mapping; [|done]. by apply bundle_at_app.
  - eapply absent_key; [| |done|done]; eauto using bundle_at_app, mapping_at_app.
Qed.

(** A JSON object with a string at [id] is an object of the heap with that
    string as its [id]. *)
Lemma json_object_id h v fs id :
  json h v (Object fs) →
  prop_get fs "id" = Some (Str id) →
  ∃ l ps, v = JRef l ∧
          (h !! l = Some (JSONObject ps) ∨ h !! l = Some (Bare ps)) ∧
          prop_get ps "id" = Some (JStr id).
Proof.
  intros Hr Hid.
  destruct (reify_object _ _ _ _ Hr) as (n' & l & ps & HN & -> & Hl & _ & Hps).
  destruct (mapM_prop_get_inv _ _ _ _ _ Hps Hid) as (v & Hv & Hs).
  apply reify_str in Hs as ->. by exists l, ps.
Qed.

(** A [get] that waits for its [fetch], when the datastore answers with
    the record of the plugin: the record is cached, and [get] is called
    again, on the cached record. *)
Lemma get_fetched st name key level result fs ta :
  json (objects st) result (Object fs) →
  prop_get fs "id" = Some (Str name) →
  json (objects st) (or_null (_annotations st !! name)) ta →
  ∃ hn, ∀ st2 a,
    get name key level
      (with_objects (objects st ++ hn)
         (with_plugins (<[name := result]> (_plugins st)) st)) =
      (st2, Normal (Resolved a)) →
    step (Pending (OnFetch name) [ThenInstall name; ThenGet name key level])
         (Fetched result) st =
      Some (st2, Normal (Resolved a)).
Proof.
  intros Hr Hid Ha.
  destruct (install_ok st name result fs name ta Hr Hid Ha) as (c & hn & E & _).
  exists hn. intros st2 a Hg. cbn [step]. rewrite run_cons. cbn [callback].
  rewrite E, run_cons. cbn [callback]. by rewrite Hg.
Qed.

Lemma get_fetched_reads name key level st result fs ta :
  json (objects st) result (Object fs) →
  prop_get fs "id" = Some (Str name) →
  json (objects st) (or_null (_annotations st !! name)) ta →
  (absent (objects st) result key level →
     ∃ hn,
       feed [Fetched result]
            (Pending (OnFetch name) [ThenInstall name; ThenGet name key level]) st =
         Some (with_objects (objects st ++ hn)
                 (with_plugins (<[name := result]> (_plugins st)) st),
               Resolved (Value JNull))) ∧
  (∀ lb bs lm ms v t,
     bundle_at (objects st) result lb bs →
     mapping_at (objects st) bs level lm ms →
     prop_get ms key = Some v →
     truthy (Some v) = true →
     json (objects st) v t →
     ∃ hn hn' v',
       feed [Fetched result]
            (Pending (OnFetch name) [ThenInstall name; ThenGet name key level]) st =
         Some (with_objects ((objects st ++ hn) ++ hn')
                 (with_plugins (<[name := result]> (_plugins st)) st),
               Resolved (Value v')) ∧
       copy_of (objects st ++ hn) t v' hn').
Proof.
  intros Hr Hid Ha.
  destruct (get_fetched st name key level result fs ta Hr Hid Ha) as (hn & Hstep).
  set (st2 := with_objects (objects st ++ hn)
                (with_plugins (<[name := result]> (_plugins st)) st)) in *.
  split.
  - intros Habs. exists hn. cbn [feed].
    rewrite (Hstep st2 (Value JNull)); [done|].
    apply (get_absent st2 name key level result).
    + unfold st2. fields. apply dictionary_lookup_insert_eq.
    + unfold st2. fields. by apply absent_app.
  - intros lb bs lm ms v t Hb Hm Hk Hv Hj.
    destruct (get_stored_truthy st2 name key level result lb bs lm ms v t)
      as (v' & hn2 & Hg & Hc); try done.
    + unfold st2. fields. apply dictionary_lookup_insert_eq.
    + unfold st2. fields. by apply bundle_at_app.
    + unfold st2. fields. by apply mapping_at_app.
    + unfold st2. fields. by apply json_app.
    + exists hn, hn2, v'. cbn [feed]. rewrite (Hstep _ _ Hg). by split.
Qed.

(** The same step of a [set]: the record is cached, the value is written
    into it, and [save] is called. *)
Lemma set_fetched st d name key value level result fs ta lb bs lm ms :
  _datastore st = Some d →
  json (objects st) result (Object fs) →
  prop_get fs "id" = Some (Str name) →
  json (objects st) (or_null (_annotations st !! name)) ta →
  bundle_at (objects st) result lb bs →
  mapping_at (objects st) bs level lm ms →
  key ≠ "__proto__" →
  ∃ hn,
    step (Pending (OnFetch name) [ThenInstall name; ThenSet name key value level])
         (Fetched result) st =
      Some (logged (Save d name (Some result))
              (with_objects
                 (<[lm := JSONObject (prop_set ms key value)]> (objects st ++ hn))
                 (with_plugins (<[name := result]> (_plugins st)) st)),
            Normal (Pending (OnSave name) [ThenEmit name])).
Proof.
  intros Hd Hr Hid Ha Hb Hm Hk.
  destruct (install_ok st name result fs name ta Hr Hid Ha) as (c & hn & E & _).
  exists hn. cbn [step]. rewrite run_cons. cbn [callback]. rewrite E, run_cons.
  cbn [callback].
  rewrite (set_mapping _ d name key value level result lb bs lm ms); fields;
    [done|done|apply dictionary_lookup_insert_eq|by apply bundle_at_app
    |by apply mapping_at_app|done].
Qed.

(** The step of a call that waits for the [fetch] of [name], when the
    datastore answers with a record of another [id]: the record is cached
    under its [id], and the callback [k], which finds [name] not cached,
    fetches again. *)
Lemma other_id_step st d name k result fs id ta :
  _datastore st = Some d →
  _plugins st !! name = None →
  json (objects st) result (Object fs) →
  prop_get fs "id" = Some (Str id) →
  id ≠ name →
  json (objects st) (or_null (_annotations st !! name)) ta →
  (∀ a st', _datastore st' = Some d → _plugins st' !! name = None →
     callback k a st' =
       (logged (Fetch d name) st',
        Normal (Pending (OnFetch name) [ThenInstall name; k]))) →
  ∃ hn,
    step (Pending (OnFetch name) [ThenInstall name; k]) (Fetched result) st =
      Some (logged (Fetch d name)
              (with_objects (objects st ++ hn)
                 (with_plugins (<[id := result]> (_plugins st)) st)),
            Normal (Pending (OnFetch name) [ThenInstall name; k])).
Proof.
  intros Hd Hp Hr Hid Hne Ha Hk.
  destruct (install_ok st name result fs id ta Hr Hid Ha) as (c & hn & E & _).
  exists hn. cbn [step]. rewrite run_cons. cbn [callback]. rewrite E, run_cons.
  rewrite Hk; [done|done|]. fields. by rewrite dictionary_lookup_insert_ne.
Qed.

Lemma other_id_loop st d name k result fs id ta n :
  json (objects st) result (Object fs) →
  prop_get fs "id" = Some (Str id) →
  id ≠ name →
  json (objects st) (or_null (_annotations st !! name)) ta →
  (∀ a st', _datastore st' = Some d → _plugins st' !! name = None →
     callback k a st' =
       (logged (Fetch d name) st',
        Normal (Pending (OnFetch name) [ThenInstall name; k]))) →
  ∀ st1,
    _datastore st1 = Some d →
    _plugins st1 !! name = None →
    _annotations st1 = _annotations st →
    (∃ x, objects st1 = objects st ++ x) →
    ∃ st2,
      feed (replicate n (Fetched result))
           (Pending (OnFetch name) [ThenInstall name; k]) st1 =
        Some (st2, Pending (OnFetch name) [ThenInstall name; k]) ∧
      calls st2 = calls st1 ++ replicate n (Fetch d name) ∧
      _plugins st2 !! name = None ∧
      delivered st2 = delivered st1.
Proof.
  intros Hr Hid Hne Ha Hk. induction n as [|n IH]; intros st1 Hd Hp Hann [x Hx].
  - exists st1. cbn [feed replicate]. by rewrite app_nil_r.
  - destruct (other_id_step st1 d name k result fs id ta) as (hn & Hstep);
      try done.
    { rewrite Hx. by apply json_app. }
    { rewrite Hx, Hann. by apply json_app. }
    destruct (IH (logged (Fetch d name)
                    (with_objects (objects st1 ++ hn)
                       (with_plugins (<[id := result]> (_plugins st1)) st1))))
      as (st2 & Hfeed & Hcalls & Hp2 & Hdel); fields; try done.
    { by rewrite dictionary_lookup_insert_ne. }
    { exists (x ++ hn). by rewrite Hx, app_assoc. }
    exists st2. cbn [feed replicate]. rewrite Hstep. split; [done|].
    revert Hcalls Hdel. unfold logged. fields. intros -> ->.
    by rewrite <- app_assoc.
Qed.

(** ** Levels *)

Lemma level_name_inj level level' :
  level_name level = level_name level' → level = level'.
Proof. by destruct level, level'. Qed.

Lemma level_name_data level : level_name level ≠ "data".
Proof. by destruct level. Qed.

(** ** Properties of the state that the methods keep *)

Section Stable.
Context (P : State → Prop).
Hypothesis P_objects : ∀ h st, P st → P (with_objects h st).
Hypothesis P_annotations : ∀ a st, P st → P (with_annotations a st).
Hypothesis P_cache :
  ∀ i r st, P st → P (with_plugins (<[i := r]> (_plugins st)) st).
Hypothesis P_fetch : ∀ d p st, P st → P (logged (Fetch d p) st).

Lemma stable_ret {A} (a : A) : stable P (mret a).
Proof. by intros st. Qed.

Lemma stable_bind {A A'} (m : M A) (f : A → M A') :
  stable P m → (∀ a, stable P (f a)) → stable P (m ≫= f).
Proof.
  intros Hm Hf st HP. unfold mbind, M_bind. specialize (Hm st HP).
  destruct (m st) as [st' [a|e|]]; cbn [fst] in *; [|done..].
  by apply Hf.
Qed.

Lemma stable_gets {A} (f : State → A) : stable P (gets f).
Proof. by intros st. Qed.

Lemma stable_throw {A} e : stable P (@throw A e).
Proof. by intros st. Qed.

Lemma stable_untyped {A} : stable P (@untyped A).
Proof. by intros st. Qed.

Lemma stable_readProp o k : stable P (readProp o k).
Proof. by intros st. Qed.

Lemma stable_writeProp o k v : stable P (writeProp o k v).
Proof.
  intros st HP. unfold writeProp. destruct (heap_write _ _ _ _); cbn; auto.
Qed.

Lemma stable_deleteProp o k : stable P (deleteProp o k).
Proof.
  intros st HP. unfold deleteProp. destruct (heap_delete _ _ _); cbn; auto.
Qed.

Lemma stable_newObject : stable P newObject.
Proof. intros st HP. by apply P_objects. Qed.

Lemma stable_newBare : stable P newBare.
Proof. intros st HP. by apply P_objects. Qed.

Lemma stable_deepCopy v : stable P (deepCopy v).
Proof.
  intros st HP. unfold deepCopy.
  destruct (deepCopy_aux _ _ _) as [[]| |]; cbn; auto.
Qed.

Lemma stable_view name record : stable P (view name record).
Proof.
  unfold view.
  repeat first [apply stable_bind; [|intros] | apply stable_deepCopy
               | apply stable_gets | apply stable_writeProp | apply stable_ret].
Qed.

Lemma stable_fetch d name : stable P (fetch d name).
Proof.
  unfold fetch. apply stable_bind; [|intros; apply stable_ret].
  intros st HP. by apply P_fetch.
Qed.

Lemma stable_load name reload : stable P (load name reload).
Proof.
  unfold load, ready_promise. apply stable_bind; [apply stable_gets|].
  intros cache. destruct (if reload then None else cache !! name).
  - apply stable_bind; [apply stable_view|intros; apply stable_ret].
  - apply stable_bind; [apply stable_gets|]. intros [d|].
    + apply stable_bind; [apply stable_fetch|intros; apply stable_ret].
    + apply stable_bind; [apply stable_gets|intros; apply stable_ret].
Qed.

Lemma stable_install name result : stable P (install name result).
Proof.
  unfold install. apply stable_bind; [apply stable_readProp|].
  intros [[| | |i| |]|]; try apply stable_untyped.
  apply stable_bind; [by intros st HP; apply P_cache|]. intros _.
  apply stable_bind; [apply stable_view|intros; apply stable_ret].
Qed.

Lemma stable_get name key level : stable P (get name key level).
Proof.
  unfold get. apply stable_bind; [apply stable_gets|].
  intros cache. destruct (cache !! name) as [record|].
  - repeat first
      [ apply stable_bind; [|intros] | apply stable_deepCopy
      | apply stable_readProp | apply stable_ret
      | match goal with |- stable _ (if ?x then _ else _) => destruct x end ].
  - apply stable_bind; [apply stable_load|intros; apply stable_ret].
Qed.

Hypothesis P_save : ∀ d p r st, P st → P (logged (Save d p r) st).

Lemma stable_save name : stable P (_save name).
Proof.
  unfold _save, save. apply stable_bind; [apply stable_gets|]. intros [d|].
  - apply stable_bind; [apply stable_gets|]. intros record.
    apply stable_bind; [|intros; apply stable_ret].
    apply stable_bind; [|intros; apply stable_ret].
    intros st HP. by apply P_save.
  - apply stable_throw.
Qed.

Lemma stable_remove name key level : stable P (remove name key level).
Proof.
  unfold remove. apply stable_bind; [apply stable_gets|].
  intros cache. destruct (cache !! name) as [record|]; [|apply stable_ret].
  apply stable_bind; [apply stable_readProp|]. intros bundle.
  apply stable_bind; [apply stable_readProp|]. intros mapping.
  destruct (negb (truthy mapping)); [apply stable_ret|].
  apply stable_bind; [apply stable_deleteProp|intros; apply stable_save].
Qed.

Lemma stable_set name key value level : stable P (set name key value level).
Proof.
  unfold set. apply stable_bind; [apply stable_gets|].
  intros cache. destruct (cache !! name) as [record|].
  - apply stable_bind; [apply stable_readProp|]. intros bundle.
    apply stable_bind; [apply stable_readProp|]. intros mapping.
    apply stable_bind.
    { destruct (negb (truthy mapping)); [|apply stable_ret].
      apply stable_bind; [apply stable_newObject|intros; apply stable_writeProp]. }
    intros _. apply stable_bind; [apply stable_readProp|]. intros mapping'.
    apply stable_bind; [apply stable_writeProp|intros; apply stable_save].
  - apply stable_bind; [apply stable_load|intros; apply stable_ret].
Qed.

Lemma stable_upload record : stable P (upload record).
Proof.
  unfold upload. apply stable_bind; [apply stable_readProp|].
  intros [[| | |i| |]|]; try apply stable_untyped.
  apply stable_bind; [by intros st HP; apply P_cache|]. intros _.
  apply stable_save.
Qed.

Hypothesis P_emit : ∀ p st, P st → P (notified p st).

Lemma stable_emit name : stable P (emit name).
Proof. intros st HP. by apply P_emit. Qed.

Lemma stable_annotate name key a : stable P (annotate name key a).
Proof.
  unfold annotate. apply stable_bind; [apply stable_gets|]. intros table.
  apply stable_bind.
  { destruct (negb (truthy table)); [|apply stable_ret].
    apply stable_bind; [apply stable_newBare|]. intros o st HP.
    by apply P_annotations. }
  intros _. apply stable_bind; [apply stable_gets|]. intros table'.
  apply stable_bind; [apply stable_writeProp|intros; apply stable_emit].
Qed.

Lemma stable_callback k a : stable P (callback k a).
Proof.
  destruct k; cbn [callback];
    auto using stable_get, stable_load, stable_set.
  - destruct a; auto using stable_install, stable_untyped.
  - apply stable_bind; [apply stable_emit|intros; apply stable_ret].
Qed.

Lemma stable_run ks : ∀ a, stable P (run ks a).
Proof.
  induction ks as [|k ks IH]; intros a st HP; [done|]. rewrite run_cons.
  pose proof (stable_callback k a st HP) as Hk.
  destruct (callback k a st) as [st' [[a'|e|w ks2]|e|]]; cbn [fst] in *; try done.
  by apply IH.
Qed.

Lemma stable_step q i st st' r : step q i st = Some (st', r) → P st → P st'.
Proof.
  assert (∀ ks a, run ks a st = (st', r) → P st → P st') as Hrun.
  { intros ks a H HP. pose proof (stable_run ks a st HP) as Hr.
    by rewrite H in Hr. }
  destruct q as [| |w ks]; [done..|]. cbn [step].
  destruct w, i; try done; try (by intros [= <- <-]);
    try (intros [= H]; by eapply Hrun).
  destruct (_ready st); [|done]. intros [= H]. by eapply Hrun.
Qed.

Hypothesis P_slots : ∀ s st, P st → P (with_slots s st).

Lemma stable_perform a st : P st → P (perform a st).
Proof.
  intros HP. destruct a as [? ? ?|? ? ?|? ?|? ? ?|? ? ? ?|?|?|?|q i|?];
    cbn [perform].
  - by apply stable_annotate.
  - by apply stable_get.
  - by apply stable_load.
  - by apply stable_remove.
  - by apply stable_set.
  - by apply stable_upload.
  - unfold connect. mred. destruct (bool_decide _); [done|]. by apply P_slots.
  - unfold disconnect. mred. destruct (bool_decide _); [|done]. by apply P_slots.
  - destruct (step q i st) as [[st' r]|] eqn:E; [|done]. by eapply stable_step.
  - by apply P_objects.
Qed.

End Stable.

(** ** Calls that only add objects to the heap *)

Section DeepCopyGrows.
Variable n : nat.
Hypothesis IH : ∀ h v v' h',
  deepCopy_aux n h v = Normal (v', h') → ∃ hn, h' = h ++ hn.

Lemma deepObjectCopy_grows ps : ∀ h ps' h',
  deepObjectCopy (deepCopy_aux n) h ps = Normal (ps', h') → ∃ hn, h' = h ++ hn.
Proof.
  induction ps as [|[k v] ps IHps]; intros h ps' h'; cbn [deepObjectCopy].
  - intros [= _ <-]. exists []. by rewrite app_nil_r.
  - destruct (deepCopy_aux n h v) as [[v1 h1]|e|] eqn:E1; [|done..].
    destruct (deepObjectCopy (deepCopy_aux n) h1 ps) as [[ps2 h2]|e|] eqn:E2;
      [|done..].
    intros [= _ <-]. destruct (IH _ _ _ _ E1) as [hn1 ->].
    destruct (IHps _ _ _ E2) as [hn2 ->]. exists (hn1 ++ hn2).
    by rewrite app_assoc.
Qed.

Lemma deepArrayCopy_grows es : ∀ h es' h',
  deepArrayCopy (deepCopy_aux n) h es = Normal (es', h') → ∃ hn, h' = h ++ hn.
Proof.
  induction es as [|v es IHes]; intros h es' h'; cbn [deepArrayCopy].
  - intros [= _ <-]. exists []. by rewrite app_nil_r.
  - destruct (deepCopy_aux n h v) as [[v1 h1]|e|] eqn:E1; [|done..].
    destruct (deepArrayCopy (deepCopy_aux n) h1 es) as [[es2 h2]|e|] eqn:E2;
      [|done..].
    intros [= _ <-]. destruct (IH _ _ _ _ E1) as [hn1 ->].
    destruct (IHes _ _ _ E2) as [hn2 ->]. exists (hn1 ++ hn2).
    by rewrite app_assoc.
Qed.
End DeepCopyGrows.

(** [deepCopy_aux] adds objects to the heap, and a copy that is an object
    is one of them. *)
Lemma deepCopy_aux_grows n : ∀ h v v' h',
  deepCopy_aux n h v = Normal (v', h') →
  ∃ hn, h' = h ++ hn ∧ ∀ l, v' = JRef l → length h ≤ l < length h'.
Proof.
  assert (∀ (h : list cell) v' h',
    @Normal (JSONValue * list cell) (JRef (length h), h ++ [JSONObject []]) =
      Normal (v', h') →
    ∃ hn, h' = h ++ hn ∧ ∀ l, v' = JRef l → length h ≤ l < length h') as Hnative.
  { intros h v' h' [= <- <-]. exists [JSONObject []]. split; [done|].
    intros l [= <-]. rewrite length_app. cbn. lia. }
  induction n as [|n IH]; intros h v v' h'.
  - destruct v; cbn [deepCopy_aux]; try done; try (by apply Hnative);
      intros [= <- <-]; exists []; rewrite app_nil_r; by split.
  - destruct v as [| | | |l0|k0]; cbn [deepCopy_aux]; try (by apply Hnative);
      try (intros [= <- <-]; exists []; rewrite app_nil_r; by split).
    assert (∀ h v v' h', deepCopy_aux n h v = Normal (v', h') → ∃ hn, h' = h ++ hn)
      as IH'.
    { intros h0 v0 v0' h0' E. destruct (IH _ _ _ _ E) as (hn & -> & _). eauto. }
    destruct (h !! l0) as [[ps|es|ps|p ps]|]; try done.
    + destruct (prop_get ps "__proto__"); [done|].
      destruct (deepObjectCopy (deepCopy_aux n) h ps) as [[ps' h1]|e|] eqn:E;
        [|done..].
      intros [= <- <-]. destruct (deepObjectCopy_grows n IH' _ _ _ _ E) as [hn ->].
      exists (hn ++ [JSONObject ps']). rewrite app_assoc. split; [done|].
      intros l [= <-]. rewrite !length_app. cbn. lia.
    + destruct (deepArrayCopy (deepCopy_aux n) h es) as [[es' h1]|e|] eqn:E;
        [|done..].
      intros [= <- <-]. destruct (deepArrayCopy_grows n IH' _ _ _ _ E) as [hn ->].
      exists (hn ++ [JSONArray es']). rewrite app_assoc. split; [done|].
      intros l [= <-]. rewrite !length_app. cbn. lia.
    + destruct (prop_get ps "__proto__"); [done|].
      destruct (deepObjectCopy (deepCopy_aux n) h ps) as [[ps' h1]|e|] eqn:E;
        [|done..].
      intros [= <- <-]. destruct (deepObjectCopy_grows n IH' _ _ _ _ E) as [hn ->].
      exists (hn ++ [JSONObject ps']). rewrite app_assoc. split; [done|].
      intros l [= <-]. rewrite !length_app. cbn. lia.
Qed.

Lemma deepCopy_grows v st :
  ∃ hn c,
    deepCopy v st = (with_objects (objects st ++ hn) st, c) ∧
    ∀ l, c = Normal (JRef l) →
         length (objects st) ≤ l < length (objects st ++ hn).
Proof.
  unfold deepCopy.
  destruct (deepCopy_aux _ _ _) as [[v' h']|e|] eqn:E.
  - destruct (deepCopy_aux_grows _ _ _ _ _ E) as (hn & -> & Hl).
    exists hn. eexists. split; [done|]. intros l [= ->]. by apply Hl.
  - exists []. eexists. rewrite app_nil_r, with_objects_same. by split.
  - exists []. eexists. rewrite app_nil_r, with_objects_same. by split.
Qed.

Lemma view_grows name record st :
  ∃ hn c, view name record st = (with_objects (objects st ++ hn) st, c) ∧
          ∀ s, c = Normal s → plugin s = name ∧ _isDisposed s = false.
Proof.
  unfold view. mred.
  destruct (deepCopy_grows record st) as (hn1 & [c| |] & -> & Hc);
    [|exists hn1; eexists; by split..].
  fields.
  destruct (deepCopy_grows (or_null (_annotations st !! name))
              (with_objects (objects st ++ hn1) st))
    as (hn2 & [a| |] & -> & _); fields; rewrite <- app_assoc;
    [|exists (hn1 ++ hn2); eexists; by split..].
  destruct c as [| | | |l|k];
    try (exists (hn1 ++ hn2); eexists; by split).
  specialize (Hc l eq_refl).
  destruct (heap_write (objects st ++ hn1 ++ hn2) (Some (JRef l)) "annotations" a)
    as [h'| |] eqn:Hw; try (exists (hn1 ++ hn2); eexists; by split).
  apply heap_write_at in Hw as [-> | [c ->]].
  - exists (hn1 ++ hn2). eexists. split; [done|]. by intros s [= <-].
  - exists (<[l - length (objects st) := c]> (hn1 ++ hn2)).
    eexists. rewrite insert_app_r_alt by lia. split; [done|]. by intros s [= <-].
Qed.

Lemma get_cached st name key level record :
  _plugins st !! name = Some record →
  ∃ hn c, get name key level st = (with_objects (objects st ++ hn) st, c) ∧
          ∀ q, c = Normal q → ∃ v, q = Resolved (Value v).
Proof.
  intros Hp. unfold get. mred. rewrite Hp.
  assert (∀ (b : bool) o k (f : option JSONValue → M promise),
    (∀ v, ∃ hn c, f v st = (with_objects (objects st ++ hn) st, c) ∧
                  ∀ q, c = Normal q → ∃ v, q = Resolved (Value v)) →
    ∃ hn c,
      match (if b then readProp o k else mret o) st with
      | (st', Normal a) => f a st'
      | (st', Throw e) => (st', Throw e)
      | (st', Untyped) => (st', Untyped)
      end = (with_objects (objects st ++ hn) st, c) ∧
      ∀ q, c = Normal q → ∃ v, q = Resolved (Value v)) as Hread.
  { intros b o k f Hf. destruct b; mred; [|apply Hf].
    destruct (heap_read (objects st) o k) as [v| |]; [apply Hf| |];
      exists []; eexists; by rewrite app_nil_r, with_objects_same. }
  apply Hread. intros bundle. apply Hread. intros mapping. apply Hread.
  intros value.
  destruct (deepCopy_grows (or_null value) st) as (hn & [r| |] & -> & _);
    exists hn; eexists; (split; [done|]); try done.
  intros q [= <-]. eauto.
Qed.

Lemma load_cached_grows st name record :
  _plugins st !! name = Some record →
  ∃ hn c, load name false st = (with_objects (objects st ++ hn) st, c) ∧
          ∀ q, c = Normal q → ∃ s, q = Resolved (Handle s) ∧ plugin s = name.
Proof.
  intros Hp. unfold load. mred. rewrite Hp.
  destruct (view_grows name record st) as (hn & [s| |] & -> & Hs);
    exists hn; eexists; (split; [done|]); try done.
  intros q [= <-]. exists s. split; [done|]. by apply Hs.
Qed.

Lemma grows_ret {A} (a : A) : grows (mret a).
Proof. intros st. exists []. by rewrite app_nil_r. Qed.

Lemma grows_bind {A A'} (m : M A) (f : A → M A') :
  grows m → (∀ a, grows (f a)) → grows (m ≫= f).
Proof.
  intros Hm Hf st. unfold mbind, M_bind. destruct (Hm st) as [hn1 H1].
  destruct (m st) as [st' [a|e|]]; cbn [fst] in *; [|by exists hn1..].
  destruct (Hf a st') as [hn2 H2]. exists (hn1 ++ hn2).
  by rewrite H2, H1, app_assoc.
Qed.

Lemma grows_gets {A} (f : State → A) : grows (gets f).
Proof. intros st. exists []. by rewrite app_nil_r. Qed.

Lemma grows_untyped {A} : grows (@untyped A).
Proof. intros st. exists []. by rewrite app_nil_r. Qed.

Lemma grows_readProp o k : grows (readProp o k).
Proof. intros st. exists []. by rewrite app_nil_r. Qed.

Lemma grows_deepCopy v : grows (deepCopy v).
Proof.
  intros st. destruct (deepCopy_grows v st) as (hn & c & -> & _). by exists hn.
Qed.

Lemma grows_view name record : grows (view name record).
Proof.
  intros st. destruct (view_grows name record st) as (hn & c & -> & _).
  by exists hn.
Qed.

Lemma grows_load name reload : grows (load name reload).
Proof.
  unfold load, fetch, ready_promise. apply grows_bind; [apply grows_gets|].
  intros cache. destruct (if reload then None else cache !! name).
  - apply grows_bind; [apply grows_view|intros; apply grows_ret].
  - apply grows_bind; [apply grows_gets|]. intros [d|].
    + apply grows_bind; [|intros; apply grows_ret].
      apply grows_bind; [|intros; apply grows_ret].
      intros st. exists []. by rewrite app_nil_r.
    + apply grows_bind; [apply grows_gets|intros; apply grows_ret].
Qed.

Lemma grows_install name result : grows (install name result).
Proof.
  unfold install. apply grows_bind; [apply grows_readProp|].
  intros [[| | |i| |]|]; try apply grows_untyped.
  apply grows_bind; [intros st; exists []; by rewrite app_nil_r|]. intros _.
  apply grows_bind; [apply grows_view|intros; apply grows_ret].
Qed.

Lemma grows_get name key level : grows (get name key level).
Proof.
  unfold get. apply grows_bind; [apply grows_gets|].
  intros cache. destruct (cache !! name) as [record|].
  - repeat first
      [ apply grows_bind; [|intros] | apply grows_deepCopy
      | apply grows_readProp | apply grows_ret
      | match goal with |- grows (if ?x then _ else _) => destruct x end ].
  - apply grows_bind; [apply grows_load|intros; apply grows_ret].
Qed.

Lemma grows_stable {A} (m : M A) st0 :
  grows m → stable (λ st, ∃ x, objects st = objects st0 ++ x) m.
Proof.
  intros Hm st [x Hx]. destruct (Hm st) as [hn H]. exists (x ++ hn).
  by rewrite H, Hx, app_assoc.
Qed.

Lemma stable_and {A} (P Q : State → Prop) (m : M A) :
  stable P m → stable Q m → stable (λ st, P st ∧ Q st) m.
Proof. intros HP HQ st [? ?]. split; auto. Qed.

Lemma cached_insert (m : dictionary) i r name :
  is_Some (m !! name) → is_Some (<[i := r]> m !! name).
Proof.
  intros H. destruct (decide (i = name)) as [->|Hne].
  - rewrite dictionary_lookup_insert_eq. eauto.
  - by rewrite dictionary_lookup_insert_ne.
Qed.

(** ** The promises of [get] and [load] *)

Lemma load_promise_reading name q : load_promise name q → read_promise q.
Proof. intros []; cbn; by repeat constructor. Qed.

Lemma then_reading q k : read_promise q → reading k → read_promise (then_ q k).
Proof.
  destruct q as [a|e|w ks]; cbn; auto. intros Hks Hk. apply Forall_app. auto.
Qed.

Lemma get_returns_reading name key level st st1 q :
  get name key level st = (st1, Normal q) → read_promise q.
Proof.
  destruct (_plugins st !! name) as [record|] eqn:Hp.
  - destruct (get_cached st name key level record Hp) as (h & c & -> & Hc).
    intros [= _ ->]. by destruct (Hc q eq_refl) as [v ->].
  - unfold get. mred. rewrite Hp.
    destruct (load name false st) as [st2 [p|e|]] eqn:E; [|done..].
    intros [= _ <-]. apply then_reading; [|done].
    eapply load_promise_reading, load_returns_promise, E.
Qed.

Section Reading.
Context (P : State → Prop).
Hypothesis P_get : ∀ p key level, stable P (get p key level).
Hypothesis P_load : ∀ p, stable P (load p false).
Hypothesis P_install : ∀ p v, stable P (install p v).

Lemma callback_reading k a st st' r :
  reading k → callback k a st = (st', r) → P st →
  P st' ∧ ∀ q, r = Normal q → read_promise q.
Proof.
  intros Hk E HP. split.
  - destruct k as [p key level|p|p|p key value level|p]; try done;
      cbn [callback] in E.
    + pose proof (P_get p key level st HP) as H. by rewrite E in H.
    + destruct a as [|v|s]; try by injection E as <- _.
      pose proof (P_install p v st HP) as H. by rewrite E in H.
    + pose proof (P_load p st HP) as H. by rewrite E in H.
  - intros q ->. destruct k as [p key level|p|p|p key value level|p]; try done;
      cbn [callback] in E.
    + by eapply get_returns_reading.
    + destruct a as [|v|s]; try done.
      eapply load_promise_reading, install_returns_promise, E.
    + eapply load_promise_reading, load_returns_promise, E.
Qed.

Lemma run_reading ks : ∀ a st st' q,
  Forall reading ks → run ks a st = (st', Normal q) → P st →
  P st' ∧ read_promise q.
Proof.
  induction ks as [|k ks IH]; intros a st st' q Hks.
  - cbn [run]. mred. by intros [= <- <-].
  - inversion Hks as [|? ? Hk Hks']; subst. rewrite run_cons.
    destruct (callback k a st) as [st1 [[a'|e|w ks2]|e|]] eqn:E; try done;
      intros H HP; destruct (callback_reading _ _ _ _ _ Hk E HP) as [HP1 Hq].
    + by eapply IH.
    + by injection H as <- <-.
    + injection H as <- <-. split; [done|]. cbn. apply Forall_app. split; [|done].
      by apply (Hq _ eq_refl).
    + by injection H as <- <-.
Qed.

Lemma step_reading q i st st' q' :
  read_promise q → step q i st = Some (st', Normal q') → P st →
  P st' ∧ read_promise q'.
Proof.
  destruct q as [| |w ks]; [done..|]. cbn [step read_promise]. intros Hks.
  destruct w, i; try done; try (by intros [= <- <-]);
    try (intros [= H]; by eapply run_reading).
  destruct (_ready st); [|done]. intros [= H]. by eapply run_reading.
Qed.

Lemma feed_reading ins : ∀ q st st' q',
  read_promise q → feed ins q st = Some (st', q') → P st → P st'.
Proof.
  induction ins as [|i ins IH]; intros q st st' q' Hq; cbn [feed].
  - by intros [= <- _].
  - destruct (step q i st) as [[st1 [q1|e|]]|] eqn:E; try done.
    intros H HP. destruct (step_reading _ _ _ _ _ Hq E HP) as [HP1 Hq1].
    by eapply IH.
Qed.
End Reading.

(** ** The slots of the signal *)

Lemma perform_slots a st :
  NoDup (_pluginChanged st) → NoDup (_pluginChanged (perform a st)).
Proof.
  intros Hnd. destruct a as [? ? ?|? ? ?|? ?|? ? ?|? ? ? ?|?|s|s|q i|?];
    cbn [perform].
  - by rewrite (kept_annotate _pluginChanged).
  - by rewrite (kept_get _pluginChanged).
  - by rewrite (kept_load _pluginChanged).
  - by rewrite (kept_remove _pluginChanged).
  - by rewrite (kept_set _pluginChanged).
  - by rewrite (kept_upload _pluginChanged).
  - unfold connect. mred. case_bool_decide as Hs; [done|]. fields.
    apply NoDup_app. repeat split; [done| |apply NoDup_singleton].
    intros x Hx Hx'. apply list_elem_of_singleton in Hx' as ->. done.
  - unfold disconnect. mred. case_bool_decide as Hs; [|done]. fields.
    by apply NoDup_filter.
  - destruct (step q i st) as [[st' r]|] eqn:E; [|done].
    by rewrite (kept_step _pluginChanged) with (p := q) (i := i) (st := st) (r := r).
  - done.
Qed.

(** ** The side-table after [annotate] *)

Lemma annotate_table st name key a :
  table_typed st name →
  ∃ st1 lt ts0,
    annotate name key a st = (st1, Normal tt) ∧
    _annotations st1 = <[name := JRef lt]> (_annotations st) ∧
    objects st1 !! lt = Some (Bare (prop_set ts0 key a)) ∧
    match _annotations st !! name with
    | Some t => t = JRef lt ∧ objects st !! lt = Some (Bare ts0)
    | None => ts0 = []
    end ∧
    _plugins st1 = _plugins st ∧
    _pluginChanged st1 = _pluginChanged st ∧
    delivered st1 = delivered st ++ ((λ s, (s, name)) <$> _pluginChanged st).
Proof.
  intros [Ht | (lt & ts & Ht & Hlt)].
  - eexists _, (length (objects st)), []. split; [by apply annotate_first|].
    unfold notified. fields. rewrite Ht, list_lookup_middle by done.
    by repeat split.
  - eexists _, lt, ts. split; [by eapply annotate_again|].
    unfold notified. fields. rewrite Ht, dictionary_insert_id by done.
    rewrite list_lookup_insert_eq by by eapply lookup_lt_Some.
    by repeat split.
Qed.

(** ** Names of [Object.prototype] in the mapping of a level *)

Lemma deepCopy_native st k :
  deepCopy (JNative k) st =
    (with_objects (objects st ++ [JSONObject []]) st,
     Normal (JRef (length (objects st)))).
Proof.
  assert (∀ n h, deepCopy_aux n h (JNative k) =
                   Normal (JRef (length h), h ++ [JSONObject []])) as H
    by by intros [].
  unfold deepCopy. by rewrite H.
Qed.

(** [get] of a name that the mapping inherits resolves with the copy of
    what [Object.prototype] holds there: a new object without properties. *)
Lemma get_inherited st plugin key level record lb bs lm ms :
  _plugins st !! plugin = Some record →
  bundle_at (objects st) record lb bs →
  mapping_at (objects st) bs level lm ms →
  prop_get ms key = None →
  key ∈ Object_prototype →
  get plugin key level st =
    (with_objects (objects st ++ [JSONObject []]) st,
     Normal (Resolved (Value (JRef (length (objects st)))))).
Proof.
  intros Hp (l & ps & -> & Hl & Hd & Hb) [Hm Hc] Hk Hin.
  unfold get. mred. rewrite Hp. cbn [truthy]. mred.
  rewrite (heap_read_data _ _ _ Hl), Hd. cbn [truthy]. mred.
  rewrite (heap_read_level _ _ _ _ Hb), Hm. cbn [truthy]. mred.
  rewrite (heap_read_object _ _ _ _ Hc), (member_inherited _ _ Hk Hin).
  mred. unfold or_null, truthy. by rewrite deepCopy_native.
Qed.

Lemma heap_write_proto h l ps v :
  h !! l = Some (JSONObject ps) →
  prop_get ps "__proto__" = None →
  heap_write h (Some (JRef l)) "__proto__" v = set_prototype h l ps v.
Proof. intros Hl Hk. unfold heap_write. by rewrite Hl, Hk. Qed.


(** [set] on a plugin cached with a mapping at the level: the write of
    l.319, then [_save]. *)
Lemma set_cached st d plugin key value level record lb bs lm ms :
  _datastore st = Some d →
  _plugins st !! plugin = Some record →
  bundle_at (objects st) record lb bs →
  mapping_at (objects st) bs level lm ms →
  set plugin key value level st =
    match heap_write (objects st) (Some (JRef lm)) key value with
    | Normal h' =>
        (logged (Save d plugin (Some record)) (with_objects h' st),
         Normal (Pending (OnSave plugin) [ThenEmit plugin]))
    | Throw e => (st, Throw e)
    | Untyped => (st, Untyped)
    end.
Proof.
  intros Hd Hp (l & ps & -> & Hl & Hdata & Hb) [Hm Hc].
  unfold set. mred. rewrite Hp. mred.
  rewrite (heap_read_data _ _ _ Hl), Hdata, (heap_read_level _ _ _ _ Hb), Hm.
  cbn [truthy negb]. mred. rewrite (heap_read_level _ _ _ _ Hb), Hm.
  destruct (heap_write (objects st) (Some (JRef lm)) key value); [|done..].
  unfold _save. mred. fields. rewrite Hd. mred.
  unfold save. mred. fields. by rewrite Hp.
Qed.

Lemma upload_json st d record fs id :
  _datastore st = Some d →
  json (objects st) record (Object fs) →
  prop_get fs "id" = Some (Str id) →
  upload record st =
    (logged (Save d id (Some record))
       (with_plugins (<[id := record]> (_plugins st)) st),
     Normal (Pending (OnSave id) [ThenEmit id])).
Proof.
  intros Hd Hr Hid.
  destruct (json_object_id _ _ _ _ Hr Hid) as (l & ps & -> & Hl & Hps).
  unfold upload. mred. rewrite (heap_read_own _ _ _ _ _ Hl Hps).
  mred. unfold _save. mred. fields. rewrite Hd. mred.
  unfold save. mred. fields. by rewrite dictionary_lookup_insert_eq.
Qed.

(** ** The names of the cache *)

Lemma later_names st0 st :
  later st0 st → NoDup (entries (_plugins st0)).*1 →
  NoDup (entries (_plugins st)).*1.
Proof.
  intros Hl Hnd. induction Hl as [|a st Hl IH|ds st Hl IH]; [done| |].
  - apply (stable_perform (λ st, NoDup (entries (_plugins st)).*1)); try done.
    intros i r st1. fields. apply prop_set_NoDup.
  - unfold setDB. mred. by destruct (_datastore st).
Qed.

(** * The claims *)

(** C1: [set(p, k, v, level)] followed by [get(p, k, level)] does not give
    back every JSON value [v].  On the registry that has loaded [pkg.a]:
    after [set] of the number [0], of [false] and of the empty string, saved
    with success, the cache holds the value and [get] resolves with [null];
    and after [set] of the caller's object [{a: 1}], which the cache keeps by
    reference, a change of that object to [{a: 2}] made by the caller before
    [get] is what [get] resolves with. *)
Theorem set_then_get_loses_falsy_values :
  (∀ v, v ∈ [JNum 0; JBool false; JStr ""] →
     ∃ st1 st2,
       set "pkg.a" "fontSize" v user loaded =
         (st1, Normal (Pending (OnSave "pkg.a") [ThenEmit "pkg.a"])) ∧
       step (Pending (OnSave "pkg.a") [ThenEmit "pkg.a"]) Saved st1 =
         Some (st2, Normal (Resolved Void)) ∧
       objects st2 !! 2 = Some (JSONObject [("fontSize", v)]) ∧
       get "pkg.a" "fontSize" user st2 = (st2, Normal (Resolved (Value JNull)))) ∧
  (∃ st1 st2 st3 v',
     set "pkg.a" "theme" (JRef 3) user loaded =
       (st1, Normal (Pending (OnSave "pkg.a") [ThenEmit "pkg.a"])) ∧
     json (objects st1) (JRef 3) (Object [("a", Num 1)]) ∧
     st2 = with_objects (<[3 := JSONObject [("a", JNum 2)]]> (objects st1)) st1 ∧
     get "pkg.a" "theme" user st2 = (st3, Normal (Resolved (Value v'))) ∧
     json (objects st3) v' (Object [("a", Num 2)])).
Proof.
  split.
  - intros v Hv. repeat (apply elem_of_cons in Hv as [->|Hv]);
      [| | |by apply elem_of_nil in Hv];
      (eexists _, _; split; [vm_compute; reflexivity|];
       split; [vm_compute; reflexivity|]; split; vm_compute; reflexivity).
  - eexists _, _, _, _. split; [vm_compute; reflexivity|].
    split; [vm_compute; reflexivity|]. split; [reflexivity|].
    split; vm_compute; reflexivity.
Qed.

(** C2: for a cached plugin, [get] of a key that is absent does not always
    resolve with [null].  The mapping of a level is an object with the
    prototype [Object.prototype], made by the datastore or by [{}] at l.317,
    and [bundle[level][key]] (l.215) reads the names it inherits as well as
    its own.  On the registry that has loaded [pkg.a], whose mapping for
    [user] holds [fontSize] only, [get] of the absent key [lineHeight]
    resolves with [null], and [get] of every name of [Object.prototype],
    [constructor] and [toString] among them, all absent from the mapping,
    resolves with a new object without properties, the copy of what
    [Object.prototype] holds at that name. *)
Theorem get_of_an_inherited_name :
  objects loaded !! 2 = Some (JSONObject [("fontSize", JNum 12)]) ∧
  get "pkg.a" "lineHeight" user loaded =
    (loaded, Normal (Resolved (Value JNull))) ∧
  ∀ key, key ∈ Object_prototype →
    prop_get [("fontSize", JNum 12)] key = None ∧
    get "pkg.a" key user loaded =
      (with_objects (objects loaded ++ [JSONObject []]) loaded,
       Normal (Resolved (Value (JRef (length (objects loaded)))))).
Proof.
  split; [vm_compute; reflexivity|]. split; [vm_compute; reflexivity|].
  intros key Hk.
  assert (prop_get [("fontSize", JNum 12)] key = None) as Hnone.
  { repeat (apply elem_of_cons in Hk as [->|Hk]); try done.
    by apply elem_of_nil in Hk. }
  split; [done|].
  apply (get_inherited loaded "pkg.a" key user (JRef 0)
           1 [("user", JRef 2)] 2 [("fontSize", JNum 12)]);
    [vm_compute; reflexivity| | |done|done].
  - exists 0, [("id", JStr "pkg.a"); ("data", JRef 1)]. by vm_compute.
  - by vm_compute.
Qed.

(** C3: the retry of [load] after the datastore is attached drops the
    [reload] flag (l.266).  A new registry caches [pkg.a] by an [upload]
    that throws for want of a datastore; [load("pkg.a", true)] then waits
    for [setDB] and no input moves it; after [setDB] it resolves from the
    cache and no [fetch] is made, where [load("pkg.a", true)] called with
    the datastore attached fetches. *)
Theorem load_retry_drops_reload :
  ∃ st1 st2 st3 s,
    upload (JRef 0) fresh = (st1, Throw TypeError) ∧
    load "pkg.a" true st1 = (st1, Normal (Pending OnReady [ThenLoad "pkg.a"])) ∧
    (∀ i, step (Pending OnReady [ThenLoad "pkg.a"]) i st1 = None) ∧
    setDB 7 st1 = (st2, Normal tt) ∧
    step (Pending OnReady [ThenLoad "pkg.a"]) Turn st2 =
      Some (st3, Normal (Resolved (Handle s))) ∧
    calls st3 = [] ∧
    load "pkg.a" true st2 =
      (logged (Fetch 7 "pkg.a") st2,
       Normal (Pending (OnFetch "pkg.a") [ThenInstall "pkg.a"])).
Proof.
  eexists _, _, _, _. split; [vm_compute; reflexivity|].
  split; [vm_compute; reflexivity|]. split; [by intros []|].
  split; [vm_compute; reflexivity|]. split; [vm_compute; reflexivity|].
  split; vm_compute; reflexivity.
Qed.

(** C4: [setDB] throws if and only if a datastore is attached already, and
    then leaves the state, with the first datastore, as it is; otherwise it
    attaches the datastore and resolves [_ready], after which a promise
    that waits for [_ready] runs its callbacks, and the pending [load] of a
    plugin that is not cached fetches from the datastore. *)
Theorem setDB_once st ds :
  ((setDB ds st).2 = Throw (Error "Setting registry already has a datastore.")
     ↔ is_Some (_datastore st)) ∧
  ((setDB ds st).2 = Normal tt ↔ _datastore st = None) ∧
  (is_Some (_datastore st) → (setDB ds st).1 = st) ∧
  (_datastore st = None →
     (setDB ds st).1 = with_ready true (with_datastore (Some ds) st) ∧
     (∀ ks, step (Pending OnReady ks) Turn (setDB ds st).1 =
              Some (run ks Void (setDB ds st).1)) ∧
     (∀ plugin, _plugins st !! plugin = None →
        step (Pending OnReady [ThenLoad plugin]) Turn (setDB ds st).1 =
          Some (logged (Fetch ds plugin) (setDB ds st).1,
                Normal (Pending (OnFetch plugin) [ThenInstall plugin])))).
Proof.
  unfold setDB. mred. destruct (_datastore st) as [d|] eqn:Hd.
  - repeat split; try done; by intros [].
  - repeat split; try done; try (by intros [? [=]]).
    intros plugin Hp. cbn [step snd fst]. fields. cbn [run callback].
    rewrite load_fetch with (d := ds); done.
Qed.



(** C6: for a cached plugin, [load(plugin, false)] makes no call on the
    datastore and changes nothing but the heap, to which it adds new
    objects; it resolves at once with a handle whose content is a copy of
    the cached record with, as [annotations], a copy of the side-table of
    the plugin as it is in the state [load] is called in ([null] when there
    is none). *)
Theorem load_cached_copies st plugin record fs ta :
  _plugins st !! plugin = Some record →
  json (objects st) record (Object fs) →
  json (objects st) (or_null (_annotations st !! plugin)) ta →
  ∃ st' c hn,
    load plugin false st =
      (st', Normal (Resolved (Handle (new_Settings (Some c) plugin false)))) ∧
    st' = with_objects (objects st ++ hn) st ∧
    calls st' = calls st ∧
    copy_of (objects st) (Object (prop_set fs "annotations" ta)) c hn.
Proof.
  intros Hp Hr Ha. destruct (load_cached _ _ _ _ _ Hp Hr Ha) as (c & hn & E & Hc).
  by exists (with_objects (objects st ++ hn) st), c, hn.
Qed.

Lemma load_cached_copies_witness :
  let st := (annotate "pkg.a" "fontSize" (JRef 4) loaded).1 in
  ∃ st' c,
    load "pkg.a" false st =
      (st', Normal (Resolved (Handle (new_Settings (Some c) "pkg.a" false)))) ∧
    calls st' = calls st ∧
    json (objects st') c
      (Object [("id", Str "pkg.a");
               ("data", Object [("user", Object [("fontSize", Num 12)])]);
               ("annotations",
                Object [("fontSize", Object [("label", Str "Font size")])])]).
Proof.
  intros st.
  destruct (load_cached_copies st "pkg.a" (JRef 0)
              [("id", Str "pkg.a");
               ("data", Object [("user", Object [("fontSize", Num 12)])])]
              (Object [("fontSize", Object [("label", Str "Font size")])]))
    as (st' & c & hn & Hload & -> & Hcalls & Hjson & _);
    try (vm_compute; reflexivity).
  eexists _, c. split; [exact Hload|]. split; [exact Hcalls|]. exact Hjson.
Defined.

(** C7: [annotate(p, k, a)] puts [a] at [k] into the side-table of [p],
    which it makes first when there is none; it leaves the cache, the
    datastore and every object but the side-table as they are, makes no
    call on the datastore, and emits [p] to the connected slots, whether [p]
    is cached or not.  The handle a [load(p)] then resolves with, from the
    cache or, for a plugin never loaded, from the record the datastore
    answers the [fetch] with, shows at [k] a copy of [a]. *)
Theorem annotate_then_load st plugin key annotation :
  table_typed st plugin →
  ∃ st1 lt ts,
    annotate plugin key annotation st = (st1, Normal tt) ∧
    _annotations st1 !! plugin = Some (JRef lt) ∧
    objects st1 !! lt = Some (Bare ts) ∧
    prop_get ts key = Some annotation ∧
    (_annotations st !! plugin = None → lt = length (objects st)) ∧
    _plugins st1 = _plugins st ∧
    _datastore st1 = _datastore st ∧
    calls st1 = calls st ∧
    (∀ i, i ≠ lt → i < length (objects st) → objects st1 !! i = objects st !! i) ∧
    delivered st1 = delivered st ++ ((λ s, (s, plugin)) <$> _pluginChanged st) ∧
    (∀ record fs tt,
       _plugins st1 !! plugin = Some record →
       json (objects st1) record (Object fs) →
       json (objects st1) (JRef lt) tt →
       ∃ st2 s ta,
         load plugin false st1 = (st2, Normal (Resolved (Handle s))) ∧
         json (objects st1) annotation ta ∧
         annotation_in (objects st2) s key = Some ta) ∧
    (∀ d result fs id tt,
       _plugins st1 !! plugin = None →
       _datastore st1 = Some d →
       json (objects st1) result (Object fs) →
       prop_get fs "id" = Some (Str id) →
       json (objects st1) (JRef lt) tt →
       ∃ st2 s ta,
         load plugin false st1 =
           (logged (Fetch d plugin) st1,
            Normal (Pending (OnFetch plugin) [ThenInstall plugin])) ∧
         step (Pending (OnFetch plugin) [ThenInstall plugin]) (Fetched result)
              (logged (Fetch d plugin) st1) =
           Some (st2, Normal (Resolved (Handle s))) ∧
         json (objects st1) annotation ta ∧
         annotation_in (objects st2) s key = Some ta).
Proof.
  intros Ht.
  assert (∃ st1 lt ts,
    annotate plugin key annotation st = (st1, Normal tt) ∧
    _annotations st1 !! plugin = Some (JRef lt) ∧
    objects st1 !! lt = Some (Bare ts) ∧
    prop_get ts key = Some annotation ∧
    (_annotations st !! plugin = None → lt = length (objects st)) ∧
    _plugins st1 = _plugins st ∧
    _datastore st1 = _datastore st ∧
    calls st1 = calls st ∧
    (∀ i, i ≠ lt → i < length (objects st) → objects st1 !! i = objects st !! i) ∧
    delivered st1 = delivered st ++ ((λ s, (s, plugin)) <$> _pluginChanged st))
    as (st1 & lt & ts & E & Ha & Hl & Hk & Hnew & Hp & Hd & Hc & Hframe & Hdel).
  { destruct Ht as [Ht | (lt & ts & Ht & Hlt)].
    - eexists _, (length (objects st)), _. split; [by apply annotate_first|].
      unfold notified. fields. rewrite dictionary_lookup_insert_eq, list_lookup_middle by done.
      repeat split; try done.
      + cbn. by rewrite String.eqb_refl.
      + intros i _ Hi. by apply lookup_app_l.
    - eexists _, lt, _. split; [by eapply annotate_again|].
      unfold notified. fields.
      rewrite list_lookup_insert_eq by by eapply lookup_lt_Some.
      repeat split; try done.
      + apply prop_get_set_eq.
      + by rewrite Ht.
      + intros i Hi _. by apply list_lookup_insert_ne. }
  exists st1, lt, ts. repeat (split; [done|]). split.
  - intros record fs tt Hrec Hr Hj.
    destruct (table_annotation _ _ _ _ _ _ Hl Hk Hj) as (tfs & ta & -> & Hta & Hja).
    destruct (load_cached st1 plugin record fs (Object tfs)) as (c & hn & El & Hj' & _);
      [done|done|by rewrite Ha|].
    eexists _, _, ta. split; [exact El|]. split; [done|].
    fields. by rewrite (annotation_in_view _ _ _ _ _ _ Hj').
  - intros d result fs id tt Hrec Hds Hr Hid Hj.
    destruct (table_annotation _ _ _ _ _ _ Hl Hk Hj) as (tfs & ta & -> & Hta & Hja).
    destruct (install_ok (logged (Fetch d plugin) st1) plugin result fs id (Object tfs))
      as (c & hn & Ei & Hj' & _); [done|done|by fields; rewrite Ha|].
    eexists _, _, ta. split; [apply load_fetch; done|]. split.
    + cbn [step run callback]. by rewrite Ei.
    + split; [done|]. fields. by rewrite (annotation_in_view _ _ _ _ _ _ Hj').
Qed.

Lemma annotate_then_load_witness :
  ∃ st1 st2 s,
    annotate "pkg.a" "fontSize" (JRef 4) attached = (st1, Normal tt) ∧
    _plugins st1 !! "pkg.a" = None ∧
    load "pkg.a" false st1 =
      (logged (Fetch 7 "pkg.a") st1,
       Normal (Pending (OnFetch "pkg.a") [ThenInstall "pkg.a"])) ∧
    step (Pending (OnFetch "pkg.a") [ThenInstall "pkg.a"]) (Fetched (JRef 0))
         (logged (Fetch 7 "pkg.a") st1) =
      Some (st2, Normal (Resolved (Handle s))) ∧
    annotation_in (objects st2) s "fontSize" = Some (Object [("label", Str "Font size")]).
Proof.
  destruct (annotate_then_load attached "pkg.a" "fontSize" (JRef 4))
    as (st1 & lt & ts & E & Ha & _ & _ & _ & _ & _ & _ & _ & _ & _ & Hfetch).
  { by left. }
  vm_compute in E. injection E as <-.
  vm_compute in Ha. injection Ha as <-.
  destruct (Hfetch 7 (JRef 0)
              [("id", Str "pkg.a");
               ("data", Object [("user", Object [("fontSize", Num 12)])])]
              "pkg.a"
              (Object [("fontSize", Object [("label", Str "Font size")])]))
    as (st2 & s & ta & Hload & Hstep & Hja & Hann);
    try (vm_compute; reflexivity).
  vm_compute in Hja. injection Hja as <-.
  eexists _, st2, s. split; [vm_compute; reflexivity|].
  split; [vm_compute; reflexivity|]. split; [exact Hload|].
  split; [exact Hstep|exact Hann].
Defined.







(** C10: for a cached plugin whose record has [data: null], [set] and
    [remove] throw a [TypeError] on reading the level of the [null] bundle
    (l.316 and l.286), and leave the state as it is: no mapping is made,
    and [remove] does not resolve. *)
Theorem set_remove_null_bundle st plugin key value level l ps :
  _plugins st !! plugin = Some (JRef l) →
  objects st !! l = Some (JSONObject ps) →
  prop_get ps "data" = Some JNull →
  set plugin key value level st = (st, Throw TypeError) ∧
  remove plugin key level st = (st, Throw TypeError).
Proof.
  intros Hp Hl Hd. split.
  - unfold set. mred. rewrite Hp. mred. by rewrite (heap_read_data _ _ _ Hl), Hd.
  - unfold remove. mred. rewrite Hp. mred.
    by rewrite (heap_read_data _ _ _ Hl), Hd.
Qed.

Lemma set_remove_null_bundle_witness :
  let st := with_plugins {["pkg.b" := JRef 0]}
              (init [JSONObject [("id", JStr "pkg.b"); ("data", JNull)]]) in
  set "pkg.b" "fontSize" (JNum 14) user st = (st, Throw TypeError) ∧
  remove "pkg.b" "fontSize" user st = (st, Throw TypeError).
Proof.
  intros st.
  apply (set_remove_null_bundle st "pkg.b" "fontSize" (JNum 14) user 0
           [("id", JStr "pkg.b"); ("data", JNull)]); by vm_compute.
Defined.

(** * Further properties *)

(** X1: for a truthy JSON value and a key other than [__proto__], [set]
    followed by [get] gives the value back:
    on a plugin cached with a mapping at the level, [set] puts [value]
    itself, not a copy, into the mapping and saves; after the datastore's
    acknowledgement, [get] resolves with a copy of what [value] stands for
    at that time, and no later change of the objects that were there when
    [get] was called, [value] and the cache among them, changes what the
    result stands for. *)
Theorem set_then_get_truthy st d plugin key value level l ps lb bs lm ms t :
  _datastore st = Some d →
  _plugins st !! plugin = Some (JRef l) →
  objects st !! l = Some (JSONObject ps) →
  prop_get ps "data" = Some (JRef lb) →
  objects st !! lb = Some (JSONObject bs) →
  mapping_at (objects st) bs level lm ms →
  l ≠ lm → lb ≠ lm →
  key ≠ "__proto__" →
  truthy (Some value) = true →
  ∃ st1 st2,
    set plugin key value level st =
      (st1, Normal (Pending (OnSave plugin) [ThenEmit plugin])) ∧
    step (Pending (OnSave plugin) [ThenEmit plugin]) Saved st1 =
      Some (st2, Normal (Resolved Void)) ∧
    objects st2 = <[lm := JSONObject (prop_set ms key value)]> (objects st) ∧
    (json (objects st2) value t →
     ∃ v' hn,
       get plugin key level st2 =
         (with_objects (objects st2 ++ hn) st2, Normal (Resolved (Value v'))) ∧
       copy_of (objects st2) t v' hn ∧
       ∀ h2, (∀ i, length (objects st2) ≤ i → h2 !! i = (objects st2 ++ hn) !! i) →
             reify (length (objects st2 ++ hn)) h2 v' = Some t).
Proof.
  intros Hd Hp Hl Hdata Hb [Hm Hc] Hne1 Hne2 Hk Hv.
  eexists _, _. split.
  { eapply set_mapping; [done|done| |done|done]. by exists l, ps. }
  split; [apply step_saved|]. split; [done|]. fields. intros Hj.
  set (h' := <[lm := JSONObject (prop_set ms key value)]> (objects st)) in *.
  edestruct (get_stored_truthy
               (notified plugin (logged (Save d plugin (Some (JRef l)))
                  (with_objects h' st)))
               plugin key level (JRef l) lb bs lm (prop_set ms key value) value t)
    as (v' & hn & Hget & Hcopy); try done.
  - exists l, ps. fields. unfold h'. by rewrite !list_lookup_insert_ne.
  - split; [done|]. fields. unfold h'.
    apply list_lookup_insert_eq. by eapply lookup_lt_Some.
  - apply prop_get_set_eq.
  - exists v', hn. split; [exact Hget|]. split; [exact Hcopy|].
    intros h2 Hh2. by eapply copy_of_independent.
Qed.

Lemma set_then_get_truthy_witness :
  ∃ st1 st2 v' hn,
    set "pkg.a" "theme" (JRef 3) user loaded =
      (st1, Normal (Pending (OnSave "pkg.a") [ThenEmit "pkg.a"])) ∧
    step (Pending (OnSave "pkg.a") [ThenEmit "pkg.a"]) Saved st1 =
      Some (st2, Normal (Resolved Void)) ∧
    get "pkg.a" "theme" user st2 =
      (with_objects (objects st2 ++ hn) st2, Normal (Resolved (Value v'))) ∧
    copy_of (objects st2) (Object [("a", Num 1)]) v' hn.
Proof.
  destruct (set_then_get_truthy loaded 7 "pkg.a" "theme" (JRef 3) user
              0 [("id", JStr "pkg.a"); ("data", JRef 1)]
              1 [("user", JRef 2)] 2 [("fontSize", JNum 12)]
              (Object [("a", Num 1)]))
    as (st1 & st2 & Hset & Hstep & Hobj & Hget);
    try (vm_compute; reflexivity); try done.
  destruct Hget as (v' & hn & Hget & Hcopy & _).
  { rewrite Hobj. vm_compute; reflexivity. }
  by exists st1, st2, v', hn.
Defined.

(** X2: with no datastore attached, [load] of a plugin that is not cached,
    and [get] on it, return a promise that waits for [_ready]; whatever is
    called but [setDB], whatever promise is stepped and whatever the callers
    do to the heap, no input moves a promise that waits for [_ready]; after
    [setDB], its callbacks run. *)
Theorem waits_for_the_datastore st plugin key level (reload : bool) acts :
  _datastore st = None →
  _ready st = false →
  _plugins st !! plugin = None →
  load plugin reload st = (st, Normal (Pending OnReady [ThenLoad plugin])) ∧
  get plugin key level st =
    (st, Normal (Pending OnReady [ThenLoad plugin; ThenGet plugin key level])) ∧
  (∀ ks i, step (Pending OnReady ks) i (perform_all acts st) = None) ∧
  (∀ ds ks,
     step (Pending OnReady ks) Turn (setDB ds (perform_all acts st)).1 =
       Some (run ks Void (setDB ds (perform_all acts st)).1)).
Proof.
  intros Hd Hr Hp. destruct (perform_all_gate acts st) as [Hr' Hd'].
  rewrite Hr in Hr'. rewrite Hd in Hd'. repeat split.
  - apply load_wait; try done. by destruct reload.
  - unfold get. mred. rewrite Hp. by rewrite (load_wait st plugin false).
  - intros ks i. cbn [step]. rewrite Hr'. by destruct i.
  - intros ds ks. unfold setDB. mred. by rewrite Hd'.
Qed.

Lemma waits_for_the_datastore_witness :
  load "pkg.a" true fresh = (fresh, Normal (Pending OnReady [ThenLoad "pkg.a"])) ∧
  get "pkg.a" "fontSize" user fresh =
    (fresh, Normal (Pending OnReady [ThenLoad "pkg.a"; ThenGet "pkg.a" "fontSize" user])) ∧
  (∀ ks i,
     step (Pending OnReady ks) i
       (perform_all [Annotate "pkg.a" "fontSize" (JRef 4); Connect 1;
                     Get "pkg.b" "theme" system] fresh) = None).
Proof.
  destruct (waits_for_the_datastore fresh "pkg.a" "fontSize" user true
              [Annotate "pkg.a" "fontSize" (JRef 4); Connect 1;
               Get "pkg.b" "theme" system])
    as (Hload & Hget & Hstep & _); try reflexivity.
  by repeat split.
Defined.

(** X3: a call of [set] whose promise resolves, whether the plugin was
    cached or had to be loaded first, resolves with nothing and has emitted
    the plugin once to each slot connected, and nothing to any other slot;
    the chain of the call is followed with no other call in between. *)
Theorem set_notifies_once plugin key value level st st1 q ins st2 a s :
  NoDup (_pluginChanged st) →
  set plugin key value level st = (st1, Normal q) →
  feed ins q st1 = Some (st2, Resolved a) →
  a = Void ∧
  received s st2 =
    received s st ++ (if bool_decide (s ∈ _pluginChanged st) then [plugin] else []).
Proof.
  intros Hnd Hset Hfeed.
  assert (delivered (set plugin key value level st).1 = delivered st) as Hd
    by (apply (kept_set delivered); by intros).
  assert (_pluginChanged (set plugin key value level st).1 = _pluginChanged st) as Hs
    by (apply (kept_set _pluginChanged); by intros).
  rewrite Hset in Hd, Hs. cbn [fst] in Hd, Hs. apply set_returns in Hset.
  unfold received at 2. rewrite <- Hd, <- Hs in *. clear Hd Hs.
  fold (received s st1). revert q st1 Hnd Hset Hfeed.
  induction ins as [|i ins IH]; intros q st1 Hnd Hq Hfeed.
  - cbn [feed] in Hfeed. injection Hfeed as _ ->. inversion Hq.
  - cbn [feed] in Hfeed.
    destruct (step q i st1) as [[st' [q'|e|]]|] eqn:Hstep; try done.
    apply (set_promise_step _ _ _ _ _ _ _ _ _ Hq) in Hstep
      as [(-> & -> & -> & ->) | ([[e ->] | Hq'] & Hd & Hs)].
    + destruct ins as [|i' ins]; [|done]. injection Hfeed as <- <-.
      split; [done|]. by apply received_notified.
    + destruct ins as [|i' ins]; done.
    + unfold received at 2. rewrite <- Hd, <- Hs.
      apply (IH q' st'); [by rewrite Hs|done|done].
Qed.

Lemma set_notifies_once_witness :
  ∃ st1 q st2,
    set "pkg.a" "fontSize" (JNum 14) user (connect 1 attached).1 = (st1, Normal q) ∧
    q = Pending (OnFetch "pkg.a")
          [ThenInstall "pkg.a"; ThenSet "pkg.a" "fontSize" (JNum 14) user] ∧
    feed [Fetched (JRef 0); Saved] q st1 = Some (st2, Resolved Void) ∧
    received 1 st2 = ["pkg.a"].
Proof.
  eexists _, _, _. split; [vm_compute; reflexivity|]. split; [reflexivity|].
  split; [vm_compute; reflexivity|].
  refine (proj2 (set_notifies_once "pkg.a" "fontSize" (JNum 14) user
                   (connect 1 attached).1 _ _ [Fetched (JRef 0); Saved] _ Void 1
                   _ _ _)).
  - apply NoDup_singleton.
  - vm_compute; reflexivity.
  - vm_compute; reflexivity.
Defined.

(** X4: the getter [plugins] lists the cached plugins, each of them and
    nothing else, in the order of [Object.keys]: the names that are array
    indices first, in ascending order, then the other names in the order in
    which they came into the cache; no name is listed twice in a state a
    registry comes to; a plugin that is cached again keeps its place, and a
    new name that is no array index goes last.  For each name, when the
    cached record is a JSON object, the entry is a copy of the record
    with, as [annotations], a copy of the side-table of the plugin ([null]
    when there is none).  The getter makes no call on the datastore, emits
    nothing and changes nothing but the heap, to which it adds the new
    objects the entries are made of: no later change of an object that was
    there before, cached records among them, changes what an entry stands
    for.  An empty cache gives the empty list. *)
Theorem plugins_lists_copies st :
  (∀ name, name ∈ Object_keys (_plugins st) ↔ is_Some (_plugins st !! name)) ∧
  (reachable st → NoDup (Object_keys (_plugins st))) ∧
  (∀ id record,
     (is_Some (_plugins st !! id) →
        Object_keys (<[id := record]> (_plugins st)) =
          Object_keys (_plugins st)) ∧
     (_plugins st !! id = None → array_index id = None →
        Object_keys (<[id := record]> (_plugins st)) =
          Object_keys (_plugins st) ++ [id])) ∧
  (Object_keys (_plugins st) = [] → plugins st = (st, Normal [])) ∧
  ∀ ts,
    Forall2 (listed st) (Object_keys (_plugins st)) ts →
    ∃ cs hn,
      plugins st = (with_objects (objects st ++ hn) st, Normal cs) ∧
      Forall2 (λ c t, above (length (objects st)) c ∧ json (objects st ++ hn) c t)
              cs ts ∧
      ∀ h2, (∀ i, length (objects st) ≤ i → h2 !! i = (objects st ++ hn) !! i) →
            Forall2 (λ c t, reify (length (objects st ++ hn)) h2 c = Some t) cs ts.
Proof.
  split; [intros name; apply Object_keys_elem_of|].
  split.
  { intros [h Hl]. apply Object_keys_NoDup.
    apply (later_names _ _ Hl). constructor. }
  split.
  { intros id record.
    split; [apply Object_keys_cached|apply Object_keys_new]. }
  split; [intros E; unfold plugins; mred; by rewrite E|].
  intros ts H.
  destruct (plugins_ok _ _ H) as (cs & hn & E & Hc & Hcs).
  exists cs, hn. repeat split; [done..|]. intros h2 Hh2.
  eapply Forall2_impl; [exact Hcs|]. intros c t [Ha Hj].
  by rewrite (reify_closed _ _ _ _ _ Hc Ha Hh2).
Qed.

Lemma plugins_lists_copies_witness :
  let st := perform (Upload (JRef 8))
              (perform (Mutate (objects loaded ++
                                  [JSONObject [("id", JStr "7"); ("data", JNull)]]))
                 loaded) in
  Object_keys (_plugins st) = ["7"; "pkg.a"] ∧
  ∃ st' cs,
    plugins st = (st', Normal cs) ∧
    Forall2 (json (objects st')) cs
      [Object [("id", Str "7"); ("data", Null); ("annotations", Null)];
       Object [("id", Str "pkg.a");
               ("data", Object [("user", Object [("fontSize", Num 12)])]);
               ("annotations", Null)]].
Proof.
  intros st.
  assert (Object_keys (_plugins st) = ["7"; "pkg.a"]) as Hkeys
    by (vm_compute; reflexivity).
  split; [exact Hkeys|].
  destruct (plugins_lists_copies st) as (_ & _ & _ & _ & Hlist).
  destruct (Hlist
              [Object [("id", Str "7"); ("data", Null); ("annotations", Null)];
               Object [("id", Str "pkg.a");
                       ("data", Object [("user", Object [("fontSize", Num 12)])]);
                       ("annotations", Null)]])
    as (cs & hn & E & Hcs & _).
  - rewrite Hkeys. constructor; [|constructor; [|constructor]].
    + exists (JRef 8), [("id", Str "7"); ("data", Null)], Null.
      repeat split; vm_compute; reflexivity.
    + exists (JRef 0),
        [("id", Str "pkg.a");
         ("data", Object [("user", Object [("fontSize", Num 12)])])], Null.
      repeat split; vm_compute; reflexivity.
  - eexists _, cs. split; [exact E|]. fields.
    eapply Forall2_impl; [exact Hcs|]. by intros c t [_ Hj].
Defined.

(** X5: whichever way a call [load(p, reload)] comes to resolve, from the
    cache, after a [fetch], or after waiting for [setDB], it resolves with a
    handle of the class [Settings] whose [plugin] is [p], the name asked
    for, and that is not disposed.  [dispose] sets [isDisposed], puts [null]
    in place of the content, and does nothing the second time; it does not
    cut the handle off: [get], [set] and [remove] of a disposed handle are
    the registry's [get], [set] and [remove] on [p], as before. *)
Theorem load_resolves_with_a_handle name (reload : bool) st st1 q ins st2 a :
  load name reload st = (st1, Normal q) →
  feed ins q st1 = Some (st2, Resolved a) →
  ∃ s, a = Handle s ∧
       plugin s = name ∧
       Settings.isDisposed s = false ∧
       Settings.isDisposed (Settings.dispose s) = true ∧
       _content (Settings.dispose s) = Some JNull ∧
       Settings.dispose (Settings.dispose s) = Settings.dispose s ∧
       ∀ key value level,
         Settings.get (Settings.dispose s) key level = get name key level ∧
         Settings.set (Settings.dispose s) key value level =
           set name key value level ∧
         Settings.remove (Settings.dispose s) key level = remove name key level.
Proof.
  intros Hload Hfeed. apply load_returns_promise in Hload.
  assert (load_promise name (Resolved a)) as Ha.
  { revert q st1 Hload Hfeed.
    induction ins as [|i ins IH]; intros q st1 Hq Hfeed; cbn [feed] in Hfeed.
    - by injection Hfeed as _ ->.
    - destruct (step q i st1) as [[st' [q'|e|]]|] eqn:Hstep; try done.
      apply (load_promise_step _ _ _ _ _ _ Hq) in Hstep as [[e ->]|Hq'].
      + by destruct ins.
      + by apply (IH q' st'). }
  inversion Ha as [s Hs Hd| | |]; subst. exists s.
  unfold Settings.isDisposed, Settings.dispose, Settings.get, Settings.set,
    Settings.remove.
  rewrite Hd. cbn [_isDisposed _content plugin]. by repeat split.
Qed.

Lemma load_resolves_with_a_handle_witness :
  ∃ st1 q st2 s,
    load "pkg.a" false attached = (st1, Normal q) ∧
    feed [Fetched (JRef 0)] q st1 = Some (st2, Resolved (Handle s)) ∧
    plugin s = "pkg.a" ∧
    Settings.set (Settings.dispose s) "fontSize" (JNum 14) user =
      set "pkg.a" "fontSize" (JNum 14) user.
Proof.
  eexists _, _, _, _. split; [vm_compute; reflexivity|].
  split; [vm_compute; reflexivity|].
  edestruct (load_resolves_with_a_handle "pkg.a" false attached)
    with (ins := [Fetched (JRef 0)])
    as (s' & Hs & Hp & _ & _ & _ & _ & Hm).
  - vm_compute; reflexivity.
  - vm_compute; reflexivity.
  - injection Hs as <-. split; [exact Hp|apply Hm].
Defined.

(** X6: when the datastore rejects a [fetch], the promise of the call that
    waits for it, [load] with [reload], or [load], [get] or [set] on a
    plugin that is not cached, is rejected with the reason the datastore
    gave, in whatever state the answer comes; none of the callbacks chained
    on the [fetch] runs, and that state stays as it is.  The call itself
    has logged the [fetch] and changed nothing else: the cache is as it was,
    so that a rejected reload leaves the cached record in place, no [save]
    is made and nothing is emitted. *)
Theorem fetch_failure_rejects st d name key value level reason :
  _datastore st = Some d →
  (∃ q,
     load name true st = (logged (Fetch d name) st, Normal q) ∧
     ∀ st1, step q (FetchFailed reason) st1 =
              Some (st1, Normal (Rejected (Failure reason)))) ∧
  (_plugins st !! name = None →
     (∃ q,
        load name false st = (logged (Fetch d name) st, Normal q) ∧
        ∀ st1, step q (FetchFailed reason) st1 =
                 Some (st1, Normal (Rejected (Failure reason)))) ∧
     (∃ q,
        get name key level st = (logged (Fetch d name) st, Normal q) ∧
        ∀ st1, step q (FetchFailed reason) st1 =
                 Some (st1, Normal (Rejected (Failure reason)))) ∧
     (∃ q,
        set name key value level st = (logged (Fetch d name) st, Normal q) ∧
        ∀ st1, step q (FetchFailed reason) st1 =
                 Some (st1, Normal (Rejected (Failure reason))))).
Proof.
  intros Hd. split; [|intros Hp; repeat split].
  - eexists. split; [by apply load_fetch|done].
  - eexists. split; [by apply load_fetch|done].
  - eexists. split; [by apply get_fetch|done].
  - eexists. split; [by apply set_fetch|done].
Qed.

Lemma fetch_failure_rejects_witness :
  ∃ q,
    load "pkg.a" true loaded = (logged (Fetch 7 "pkg.a") loaded, Normal q) ∧
    step q (FetchFailed (JStr "offline")) (logged (Fetch 7 "pkg.a") loaded) =
      Some (logged (Fetch 7 "pkg.a") loaded,
            Normal (Rejected (Failure (JStr "offline")))) ∧
    _plugins (logged (Fetch 7 "pkg.a") loaded) = _plugins loaded.
Proof.
  destruct (proj1 (fetch_failure_rejects loaded 7 "pkg.a" "fontSize" JNull user
                     (JStr "offline") eq_refl))
    as (q & Hload & Hstep).
  exists q. split; [exact Hload|]. split; [apply Hstep|reflexivity].
Defined.

(** X7: with a datastore attached, [get(p, k, level)] on a plugin that is
    not cached makes one [fetch] and waits.  When the datastore answers
    with the record of [p], a JSON object, the record itself is put into
    the cache, and the promise resolves with what [get] reads in it:
    [null] when nothing is recorded for the key at the level and the key is
    no name that the mapping of the level inherits from [Object.prototype],
    a copy, made of new objects, of the value recorded when that value is
    truthy.  In
    the state the answer comes in, nothing else changes: no other call is
    made on the datastore, nothing is emitted, and the objects that were
    there are left as they were. *)
Theorem get_fetches_then_reads st d name key level :
  _datastore st = Some d →
  _plugins st !! name = None →
  ∃ q,
    get name key level st = (logged (Fetch d name) st, Normal q) ∧
    ∀ st1 result fs ta,
      json (objects st1) result (Object fs) →
      prop_get fs "id" = Some (Str name) →
      json (objects st1) (or_null (_annotations st1 !! name)) ta →
      (absent (objects st1) result key level →
         ∃ hn,
           feed [Fetched result] q st1 =
             Some (with_objects (objects st1 ++ hn)
                     (with_plugins (<[name := result]> (_plugins st1)) st1),
                   Resolved (Value JNull))) ∧
      (∀ lb bs lm ms v t,
         bundle_at (objects st1) result lb bs →
         mapping_at (objects st1) bs level lm ms →
         prop_get ms key = Some v →
         truthy (Some v) = true →
         json (objects st1) v t →
         ∃ hn hn' v',
           feed [Fetched result] q st1 =
             Some (with_objects ((objects st1 ++ hn) ++ hn')
                     (with_plugins (<[name := result]> (_plugins st1)) st1),
                   Resolved (Value v')) ∧
           copy_of (objects st1 ++ hn) t v' hn').
Proof.
  intros Hd Hp. eexists. split; [by apply get_fetch|].
  intros st1 result fs ta. apply get_fetched_reads.
Qed.

Lemma get_fetches_then_reads_witness :
  ∃ q hn hn' v',
    get "pkg.a" "fontSize" user attached =
      (logged (Fetch 7 "pkg.a") attached, Normal q) ∧
    feed [Fetched (JRef 0)] q (logged (Fetch 7 "pkg.a") attached) =
      Some (with_objects ((objects attached ++ hn) ++ hn')
              (with_plugins (<["pkg.a" := JRef 0]> (_plugins attached))
                 (logged (Fetch 7 "pkg.a") attached)),
            Resolved (Value v')) ∧
    json ((objects attached ++ hn) ++ hn') v' (Num 12).
Proof.
  destruct (get_fetches_then_reads attached 7 "pkg.a" "fontSize" user)
    as (q & Hget & Hread); [reflexivity..|].
  destruct (Hread (logged (Fetch 7 "pkg.a") attached) (JRef 0)
              [("id", Str "pkg.a");
               ("data", Object [("user", Object [("fontSize", Num 12)])])] Null)
    as (_ & Hvalue); [vm_compute; reflexivity|reflexivity|vm_compute; reflexivity|].
  destruct (Hvalue 1 [("user", JRef 2)] 2 [("fontSize", JNum 12)] (JNum 12) (Num 12))
    as (hn & hn' & v' & Hfeed & Hj & _).
  { exists 0, [("id", JStr "pkg.a"); ("data", JRef 1)]. by vm_compute. }
  { by vm_compute. }
  { reflexivity. }
  { reflexivity. }
  { vm_compute; reflexivity. }
  by exists q, hn, hn', v'.
Defined.

(** X8: [load] caches the record the datastore answers with under the [id]
    of the record (l.253), not under the name it fetched.  When the
    datastore answers the [fetch] of [p] with a JSON object whose [id] is
    another name, [load(p)] resolves with a handle on [p] while [p] is
    still not cached; and [get] and [set] on [p], which call themselves
    again once the [load] has resolved (l.220, l.311), find [p] not cached
    and fetch again: after any number of such answers their promise is the
    same pending promise, with one more [fetch] made for each answer,
    nothing saved and nothing emitted. *)
Theorem fetch_answered_with_another_id
    st d name key value level result fs id ta :
  _datastore st = Some d →
  _plugins st !! name = None →
  json (objects st) result (Object fs) →
  prop_get fs "id" = Some (Str id) →
  id ≠ name →
  json (objects st) (or_null (_annotations st !! name)) ta →
  (∃ st1 s,
     step (Pending (OnFetch name) [ThenInstall name]) (Fetched result) st =
       Some (st1, Normal (Resolved (Handle s))) ∧
     plugin s = name ∧
     _plugins st1 !! name = None ∧
     _plugins st1 !! id = Some result) ∧
  ∃ qg qs,
    get name key level st = (logged (Fetch d name) st, Normal qg) ∧
    set name key value level st = (logged (Fetch d name) st, Normal qs) ∧
    ∀ q n, q = qg ∨ q = qs →
      ∃ st2,
        feed (replicate n (Fetched result)) q (logged (Fetch d name) st) =
          Some (st2, q) ∧
        calls st2 = calls st ++ replicate (S n) (Fetch d name) ∧
        _plugins st2 !! name = None ∧
        delivered st2 = delivered st.
Proof.
  intros Hd Hp Hr Hid Hne Ha. split.
  - destruct (install_ok st name result fs id ta Hr Hid Ha) as (c & hn & E & _).
    eexists _, _. split.
    + cbn [step]. rewrite run_cons. cbn [callback]. rewrite E. done.
    + fields. rewrite dictionary_lookup_insert_ne by done. by rewrite dictionary_lookup_insert_eq.
  - eexists _, _. split; [by apply get_fetch|]. split; [by apply set_fetch|].
    intros q n [-> | ->].
    + destruct (other_id_loop st d name (ThenGet name key level) result fs id ta n
                  Hr Hid Hne Ha) with (st1 := logged (Fetch d name) st)
        as (st2 & Hfeed & Hcalls & Hp2 & Hdel); try done.
      { intros a st' Hd' Hp'. by apply get_fetch. }
      { exists []. by rewrite app_nil_r. }
      exists st2. split; [done|]. revert Hcalls Hdel. unfold logged. fields.
      intros -> ->. by rewrite <- app_assoc.
    + destruct (other_id_loop st d name (ThenSet name key value level) result fs id
                  ta n Hr Hid Hne Ha) with (st1 := logged (Fetch d name) st)
        as (st2 & Hfeed & Hcalls & Hp2 & Hdel); try done.
      { intros a st' Hd' Hp'. by apply set_fetch. }
      { exists []. by rewrite app_nil_r. }
      exists st2. split; [done|]. revert Hcalls Hdel. unfold logged. fields.
      intros -> ->. by rewrite <- app_assoc.
Qed.

Lemma fetch_answered_with_another_id_witness :
  ∃ q st2,
    get "pkg.b" "fontSize" user attached =
      (logged (Fetch 7 "pkg.b") attached, Normal q) ∧
    feed [Fetched (JRef 0); Fetched (JRef 0); Fetched (JRef 0)] q
         (logged (Fetch 7 "pkg.b") attached) = Some (st2, q) ∧
    calls st2 = replicate 4 (Fetch 7 "pkg.b").
Proof.
  destruct (fetch_answered_with_another_id attached 7 "pkg.b" "fontSize" JNull user
              (JRef 0)
              [("id", Str "pkg.a");
               ("data", Object [("user", Object [("fontSize", Num 12)])])]
              "pkg.a" Null)
    as (_ & qg & qs & Hget & _ & Hloop);
    [vm_compute; reflexivity| vm_compute; reflexivity| vm_compute; reflexivity
    |reflexivity|done|vm_compute; reflexivity|].
  destruct (Hloop qg 3 (or_introl eq_refl)) as (st2 & Hfeed & Hcalls & _).
  by exists qg, st2.
Defined.

(** X9: on a cached plugin whose bundle has no mapping at the level (none,
    or [null]), [set(p, k, v, level)], for a key [k] other than
    [__proto__], makes a new object, puts it into the
    bundle as the mapping of the level, and puts [v] into it at [k]
    (l.316-319); the mappings of the other level and all other objects stay
    as they were, and [save] is called once with the cached record.
    [get(p, k, level)] then resolves with a copy of [v], when [v] is
    truthy. *)
Theorem set_creates_the_mapping st d name key value level record lb bs :
  _datastore st = Some d →
  _plugins st !! name = Some record →
  bundle_at (objects st) record lb bs →
  truthy (prop_get bs (level_name level)) = false →
  key ≠ "__proto__" →
  ∃ st1 bs',
    set name key value level st =
      (st1, Normal (Pending (OnSave name) [ThenEmit name])) ∧
    bundle_at (objects st1) record lb bs' ∧
    mapping_at (objects st1) bs' level (length (objects st)) [(key, value)] ∧
    (∀ level', level' ≠ level →
       prop_get bs' (level_name level') = prop_get bs (level_name level')) ∧
    (∀ i, i < length (objects st) → i ≠ lb → objects st1 !! i = objects st !! i) ∧
    calls st1 = calls st ++ [Save d name (Some record)] ∧
    delivered st1 = delivered st ∧
    _plugins st1 = _plugins st ∧
    (∀ t, truthy (Some value) = true → json (objects st1) value t →
       ∃ v' hn,
         get name key level st1 =
           (with_objects (objects st1 ++ hn) st1, Normal (Resolved (Value v'))) ∧
         copy_of (objects st1) t v' hn).
Proof.
  intros Hd Hp Hb Hm Hkey.
  rewrite (set_no_mapping st d name key value level record lb bs Hd Hp Hb Hm Hkey).
  destruct Hb as (l & ps & -> & Hl & Hdata & Hb).
  assert (lb < length (objects st)) as Hlb by by eapply lookup_lt_Some.
  assert (l < length (objects st)) as Hll by by eapply lookup_lt_Some.
  set (n := length (objects st)) in *.
  set (bs' := prop_set bs (level_name level) (JRef n)).
  set (h1 := <[n := JSONObject [(key, value)]]>
               (<[lb := JSONObject bs']> (objects st ++ [JSONObject []]))).
  assert (h1 !! lb = Some (JSONObject bs')) as Hb1.
  { unfold h1. rewrite list_lookup_insert_ne by lia.
    apply list_lookup_insert_eq. rewrite length_app. lia. }
  assert (h1 !! n = Some (JSONObject [(key, value)])) as Hm1.
  { unfold h1. apply list_lookup_insert_eq.
    rewrite length_insert, length_app. cbn. lia. }
  assert (∀ i, i < n → i ≠ lb → h1 !! i = objects st !! i) as Hframe.
  { intros i Hi Hne. unfold h1. rewrite !list_lookup_insert_ne by lia.
    by apply lookup_app_l. }
  assert (bundle_at h1 (JRef l) lb bs') as Hbundle.
  { destruct (decide (l = lb)) as [->|Hne].
    - exists lb, bs'. rewrite Hl in Hb. injection Hb as ->.
      repeat split; [done| |done]. unfold bs'.
      rewrite prop_get_set_ne; [done|apply level_name_data].
    - exists l, ps. repeat split; [|done..]. by rewrite Hframe. }
  assert (mapping_at h1 bs' level n [(key, value)]) as Hmapping.
  { split; [apply prop_get_set_eq|done]. }
  fold h1. set (st1 := logged (Save d name (Some (JRef l))) (with_objects h1 st)).
  exists st1, bs'. split; [done|].
  split; [exact Hbundle|]. split; [exact Hmapping|].
  split; [|split; [exact Hframe|]].
  - intros level' Hne. unfold bs'. apply prop_get_set_ne.
    intros E. by apply level_name_inj in E.
  - repeat (split; [done|]). intros t Hv Hj.
    apply (get_stored_truthy st1 name key level (JRef l) lb bs' n [(key, value)]
             value t); try done.
    cbn. by rewrite String.eqb_refl.
Qed.

Lemma set_creates_the_mapping_witness :
  ∃ st1,
    set "pkg.a" "fontSize" (JNum 10) system loaded =
      (st1, Normal (Pending (OnSave "pkg.a") [ThenEmit "pkg.a"])) ∧
    get "pkg.a" "fontSize" system st1 = (st1, Normal (Resolved (Value (JNum 10)))).
Proof.
  destruct (set_creates_the_mapping loaded 7 "pkg.a" "fontSize" (JNum 10) system
              (JRef 0) 1 [("user", JRef 2)])
    as (st1 & bs' & Hset & _).
  - vm_compute; reflexivity.
  - vm_compute; reflexivity.
  - exists 0, [("id", JStr "pkg.a"); ("data", JRef 1)]. by vm_compute.
  - reflexivity.
  - done.
  - exists st1. split; [exact Hset|].
    revert Hset. vm_compute. by intros [= <-].
Defined.

(** X10: on a plugin cached with a mapping at the level, an object of its
    own, [remove(p, k, level)] and [set(p, k, v, level)] change the one
    key.  After [remove] and the acknowledgement of its [save], the key is
    no property of the mapping and [get] of it resolves with [null], unless
    it is a name of [Object.prototype], which the mapping inherits as
    before: then [get] resolves with a new object without properties.
    After [remove], and after [set] of a key other than [__proto__], [get]
    of any other key of the level resolves as before: with [null] for a
    key that was not there and that the mapping does not inherit, with a
    copy of the value that was stored for a key that was. *)
Theorem set_and_remove_change_one_key
    st d name key value level l ps lb bs lm ms :
  _datastore st = Some d →
  _plugins st !! name = Some (JRef l) →
  objects st !! l = Some (JSONObject ps) →
  prop_get ps "data" = Some (JRef lb) →
  objects st !! lb = Some (JSONObject bs) →
  mapping_at (objects st) bs level lm ms →
  l ≠ lm → lb ≠ lm →
  (∃ st1 st2 ms',
     remove name key level st =
       (st1, Normal (Pending (OnSave name) [ThenEmit name])) ∧
     step (Pending (OnSave name) [ThenEmit name]) Saved st1 =
       Some (st2, Normal (Resolved Void)) ∧
     objects st2 !! lm = Some (JSONObject ms') ∧
     prop_get ms' key = None ∧
     (key ∉ Object_prototype →
        get name key level st2 = (st2, Normal (Resolved (Value JNull)))) ∧
     (key ∈ Object_prototype →
        get name key level st2 =
          (with_objects (objects st2 ++ [JSONObject []]) st2,
           Normal (Resolved (Value (JRef (length (objects st2))))))) ∧
     (∀ key', key' ≠ key → prop_get ms key' = None → key' ∉ Object_prototype →
        get name key' level st2 = (st2, Normal (Resolved (Value JNull)))) ∧
     (∀ key' v, key' ≠ key → prop_get ms key' = Some v →
        get name key' level st2 =
          match deepCopy (or_null (Some v)) st2 with
          | (st', Normal result) => (st', Normal (Resolved (Value result)))
          | (st', Throw e) => (st', Throw e)
          | (st', Untyped) => (st', Untyped)
          end)) ∧
  (key ≠ "__proto__" →
   ∃ st1 st2,
     set name key value level st =
       (st1, Normal (Pending (OnSave name) [ThenEmit name])) ∧
     step (Pending (OnSave name) [ThenEmit name]) Saved st1 =
       Some (st2, Normal (Resolved Void)) ∧
     (∀ key', key' ≠ key → prop_get ms key' = None → key' ∉ Object_prototype →
        get name key' level st2 = (st2, Normal (Resolved (Value JNull)))) ∧
     (∀ key' v, key' ≠ key → prop_get ms key' = Some v →
        get name key' level st2 =
          match deepCopy (or_null (Some v)) st2 with
          | (st', Normal result) => (st', Normal (Resolved (Value result)))
          | (st', Throw e) => (st', Throw e)
          | (st', Untyped) => (st', Untyped)
          end)).
Proof.
  intros Hd Hp Hl Hdata Hb [Hm Hc] Hne1 Hne2.
  assert (bundle_at (objects st) (JRef l) lb bs) as Hbundle by by exists l, ps.
  assert (lm < length (objects st)) as Hlt by by eapply lookup_lt_Some.
  assert (∀ ms' st2,
    _plugins st2 = _plugins st →
    objects st2 = <[lm := JSONObject ms']> (objects st) →
    _plugins st2 !! name = Some (JRef l) ∧
    bundle_at (objects st2) (JRef l) lb bs ∧
    mapping_at (objects st2) bs level lm ms') as Hshape.
  { intros ms' st2 Hp2 Ho2. rewrite Hp2, Ho2. split; [done|]. split.
    - exists l, ps. by rewrite !list_lookup_insert_ne.
    - split; [done|]. by apply list_lookup_insert_eq. }
  split.
  - set (st1 := logged (Save d name (Some (JRef l)))
                  (with_objects
                     (<[lm := JSONObject (prop_delete ms key)]> (objects st)) st)).
    exists st1, (notified name st1), (prop_delete ms key).
    split; [by eapply remove_mapping|]. split; [apply step_saved|].
    destruct (Hshape (prop_delete ms key) (notified name st1) eq_refl eq_refl)
      as (Hp2 & Hb2 & Hm2).
    split; [apply Hm2|]. split; [apply prop_get_delete_eq|].
    split; [|split; [|split]].
    + intros Hk. eapply get_absent; [exact Hp2|].
      eapply absent_key; [exact Hb2|exact Hm2| |done].
      apply prop_get_delete_eq.
    + intros Hk. eapply get_inherited; [exact Hp2|exact Hb2|exact Hm2| |done].
      apply prop_get_delete_eq.
    + intros key' Hk Hnone Hown. eapply get_absent; [exact Hp2|].
      eapply absent_key; [exact Hb2|exact Hm2| |done].
      by rewrite prop_get_delete_ne.
    + intros key' v Hk Hsome. eapply get_stored; [exact Hp2|exact Hb2|exact Hm2|].
      by rewrite prop_get_delete_ne.
  - intros Hkey.
    set (st1 := logged (Save d name (Some (JRef l)))
                  (with_objects
                     (<[lm := JSONObject (prop_set ms key value)]> (objects st)) st)).
    exists st1, (notified name st1).
    split; [by eapply set_mapping|]. split; [apply step_saved|].
    destruct (Hshape (prop_set ms key value) (notified name st1) eq_refl eq_refl)
      as (Hp2 & Hb2 & Hm2).
    split.
    + intros key' Hk Hnone Hown. eapply get_absent; [exact Hp2|].
      eapply absent_key; [exact Hb2|exact Hm2| |done].
      by rewrite prop_get_set_ne.
    + intros key' v Hk Hsome. eapply get_stored; [exact Hp2|exact Hb2|exact Hm2|].
      by rewrite prop_get_set_ne.
Qed.

Lemma set_and_remove_change_one_key_witness :
  ∃ st1 st2,
    remove "pkg.a" "fontSize" user loaded =
      (st1, Normal (Pending (OnSave "pkg.a") [ThenEmit "pkg.a"])) ∧
    step (Pending (OnSave "pkg.a") [ThenEmit "pkg.a"]) Saved st1 =
      Some (st2, Normal (Resolved Void)) ∧
    get "pkg.a" "fontSize" user st2 = (st2, Normal (Resolved (Value JNull))).
Proof.
  destruct (proj1 (set_and_remove_change_one_key loaded 7 "pkg.a" "fontSize" JNull
                     user 0 [("id", JStr "pkg.a"); ("data", JRef 1)]
                     1 [("user", JRef 2)] 2 [("fontSize", JNum 12)]
                     eq_refl eq_refl eq_refl eq_refl eq_refl
                     (conj eq_refl eq_refl)
                     ltac:(discriminate) ltac:(discriminate)))
    as (st1 & st2 & ms' & Hr & Hs & _ & _ & Hg & _).
  exists st1, st2. split; [exact Hr|]. split; [exact Hs|].
  apply Hg. by apply (bool_decide_unpack _).
Defined.



(** X12: in every state a registry comes to, [_ready] is resolved if and
    only if a datastore is attached, and no slot is connected twice to
    [pluginChanged].  Hence a call of [load] returns a promise that is
    resolved with a handle, or waits for a [fetch], with a datastore
    attached, or waits for [_ready], with none: the [then] of l.266 is
    never chained on a [_ready] that is resolved already. *)
Theorem reachable_gate st :
  reachable st →
  (_ready st = true ↔ is_Some (_datastore st)) ∧
  NoDup (_pluginChanged st) ∧
  ∀ name (reload : bool) st1 q,
    load name reload st = (st1, Normal q) →
    (∃ s, q = Resolved (Handle s)) ∨
    (is_Some (_datastore st) ∧ q = Pending (OnFetch name) [ThenInstall name]) ∨
    (_datastore st = None ∧ q = Pending OnReady [ThenLoad name]).
Proof.
  intros [h Hr].
  assert ((_ready st = true ↔ is_Some (_datastore st)) ∧
          NoDup (_pluginChanged st)) as [Hg Hnd].
  { induction Hr as [|a st Hr [IHg IHs]|ds st Hr [IHg IHs]].
    - split; [|constructor]. cbn. split; [done|]. by intros [? [=]].
    - destruct (perform_gate a st) as [-> ->]. split; [done|].
      by apply perform_slots.
    - unfold setDB. mred.
      destruct (_datastore st) as [d|] eqn:Hd; cbn [fst]; fields.
      + rewrite ?Hd. split; [exact IHg|exact IHs].
      + split; [|done]. split; eauto. }
  repeat split; try done; try apply Hg.
  intros name reload st1 q. unfold load. mred.
  destruct (if reload then None else _plugins st !! name) as [record|].
  - destruct (view name record st) as [st2 [s|e|]]; [|done..].
    intros [= _ <-]. eauto.
  - destruct (_datastore st) as [d|] eqn:Hd.
    + unfold fetch. mred. intros [= _ <-]. right. left. eauto.
    + unfold ready_promise. mred. destruct (_ready st) eqn:Hready.
      * destruct Hg as [Hg _]. by destruct (Hg eq_refl) as [? [=]].
      * intros [= _ <-]. right. right. eauto.
Qed.

Lemma reachable_gate_witness :
  _ready loaded = true ∧ is_Some (_datastore loaded) ∧
  NoDup (_pluginChanged (connect 1 loaded).1).
Proof.
  assert (later (init example_heap) loaded) as Hr.
  { apply (later_perform _
             (Step (Pending (OnFetch "pkg.a") [ThenInstall "pkg.a"])
                   (Fetched (JRef 0)))
             (perform (Load "pkg.a" false) attached)).
    apply later_perform. apply (later_setDB _ 7 fresh). apply later_now. }
  destruct (reachable_gate loaded (ex_intro _ example_heap Hr)) as (Hg & _ & _).
  destruct (reachable_gate (perform (Connect 1) loaded)
              (ex_intro _ example_heap (later_perform _ (Connect 1) loaded Hr)))
    as (_ & Hnd & _).
  split; [reflexivity|]. split; [by apply Hg|exact Hnd].
Defined.

(** X13: the registry never drops a plugin from its cache.  Once [p] is
    cached it stays cached, whatever is called on the registry, [setDB]
    included, whatever promise is stepped and whatever the callers do to
    the heap; from then on [get(p, k, level)] and [load(p)] make no call on
    the datastore and change nothing: they add new objects to the heap at
    most, and the promise they return, if they return, is resolved (with a
    value, with a handle on [p]), never pending. *)
Theorem cached_stays_cached st name st' :
  is_Some (_plugins st !! name) →
  later st st' →
  is_Some (_plugins st' !! name) ∧
  (∀ key level,
     ∃ hn c, get name key level st' = (with_objects (objects st' ++ hn) st', c) ∧
             ∀ q, c = Normal q → ∃ v, q = Resolved (Value v)) ∧
  (∃ hn c, load name false st' = (with_objects (objects st' ++ hn) st', c) ∧
           ∀ q, c = Normal q → ∃ s, q = Resolved (Handle s) ∧ plugin s = name).
Proof.
  intros Hc Hl.
  assert (is_Some (_plugins st' !! name)) as [record Hp].
  { induction Hl as [|a st' Hl IH|ds st' Hl IH]; [done| |].
    - apply (stable_perform (λ st, is_Some (_plugins st !! name))); try done.
      intros i r st0. apply cached_insert.
    - unfold setDB. mred. by destruct (_datastore st'). }
  split; [by exists record|]. split.
  - intros key level. by eapply get_cached.
  - by eapply load_cached_grows.
Qed.

Lemma cached_stays_cached_witness :
  let st' := perform (Step (Pending (OnFetch "pkg.a") [ThenInstall "pkg.a"])
                           (FetchFailed JNull))
               (perform (Load "pkg.a" true)
                  (perform (Remove "pkg.a" "fontSize" user) loaded)) in
  ∃ hn c,
    get "pkg.a" "fontSize" user st' = (with_objects (objects st' ++ hn) st', c).
Proof.
  intros st'.
  destruct (cached_stays_cached loaded "pkg.a" st') as (_ & Hget & _).
  - exists (JRef 0). vm_compute; reflexivity.
  - do 3 apply later_perform. apply later_now.
  - destruct (Hget "fontSize" user) as (hn & c & E & _). by exists hn, c.
Defined.

(** X14: [get] and [load] only read.  From the call to whatever point the
    promise has come to, whatever the datastore answers, no object that
    was there is changed, objects are added to the heap at most; nothing
    is emitted; the map of the side-tables, the slots and the datastore are
    as they were; every call made on the datastore is a [fetch], never a
    [save]; and a plugin that was cached is cached still. *)
Theorem get_and_load_only_fetch name key level (reload : bool) st st1 q ins st2 r :
  get name key level st = (st1, Normal q) ∨ load name reload st = (st1, Normal q) →
  feed ins q st1 = Some (st2, r) →
  (∃ x, objects st2 = objects st ++ x) ∧
  delivered st2 = delivered st ∧
  _annotations st2 = _annotations st ∧
  _pluginChanged st2 = _pluginChanged st ∧
  _datastore st2 = _datastore st ∧
  (∃ cs, calls st2 = calls st ++ cs ∧ Forall (λ c, ∃ d p, c = Fetch d p) cs) ∧
  (∀ p, is_Some (_plugins st !! p) → is_Some (_plugins st2 !! p)).
Proof.
  set (P1 := λ st' : State,
    delivered st' = delivered st ∧
    _annotations st' = _annotations st ∧
    _pluginChanged st' = _pluginChanged st ∧
    _datastore st' = _datastore st ∧
    (∃ cs, calls st' = calls st ++ cs ∧ Forall (λ c, ∃ d p, c = Fetch d p) cs) ∧
    (∀ p, is_Some (_plugins st !! p) → is_Some (_plugins st' !! p))).
  set (P := λ st' : State, (∃ x, objects st' = objects st ++ x) ∧ P1 st').
  assert (∀ h st', P1 st' → P1 (with_objects h st')) as P_objects by done.
  assert (∀ i r st', P1 st' → P1 (with_plugins (<[i := r]> (_plugins st')) st'))
    as P_cache.
  { intros i r' st' (? & ? & ? & ? & ? & Hc). repeat split; try done.
    intros p Hp. fields. by apply cached_insert, Hc. }
  assert (∀ d p st', P1 st' → P1 (logged (Fetch d p) st')) as P_fetch.
  { intros d p st' (? & ? & ? & ? & (cs & Hcs & HF) & ?). repeat split; try done.
    exists (cs ++ [Fetch d p]). unfold logged. fields. rewrite Hcs, app_assoc.
    split; [done|]. apply Forall_app. split; [done|]. constructor; eauto. }
  assert (∀ p k l, stable P (get p k l)) as P_get.
  { intros p k l. apply stable_and; [apply grows_stable, grows_get|].
    by apply stable_get. }
  assert (∀ p b, stable P (load p b)) as P_load.
  { intros p b. apply stable_and; [apply grows_stable, grows_load|].
    by apply stable_load. }
  assert (∀ p v, stable P (install p v)) as P_install.
  { intros p v. apply stable_and; [apply grows_stable, grows_install|].
    by apply stable_install. }
  assert (P st) as HP.
  { split; [exists []; by rewrite app_nil_r|].
    repeat split; try done. exists []. by rewrite app_nil_r. }
  intros Hcall Hfeed.
  assert (P st1 ∧ read_promise q) as [HP1 Hq].
  { destruct Hcall as [E|E].
    - split; [|by eapply get_returns_reading].
      pose proof (P_get name key level st HP) as H. by rewrite E in H.
    - split; [|eapply load_promise_reading, load_returns_promise, E].
      pose proof (P_load name reload st HP) as H. by rewrite E in H. }
  exact (feed_reading P P_get (λ p, P_load p false) P_install
           ins q st1 st2 r Hq Hfeed HP1).
Qed.

Lemma get_and_load_only_fetch_witness :
  ∃ st1 q st2 r,
    get "pkg.a" "fontSize" user (connect 1 attached).1 = (st1, Normal q) ∧
    feed [Fetched (JRef 0)] q st1 = Some (st2, r) ∧
    (∃ x, objects st2 = objects (connect 1 attached).1 ++ x) ∧
    delivered st2 = [] ∧
    ∃ cs, calls st2 = [] ++ cs ∧ Forall (λ c, ∃ d p, c = Fetch d p) cs.
Proof.
  eexists _, _, _, _. split; [vm_compute; reflexivity|].
  split; [vm_compute; reflexivity|].
  edestruct (get_and_load_only_fetch "pkg.a" "fontSize" user false
               (connect 1 attached).1)
    with (ins := [Fetched (JRef 0)]) as (Ho & Hd & _ & _ & _ & Hc & _).
  - left. vm_compute; reflexivity.
  - vm_compute; reflexivity.
  - split; [exact Ho|]. split; [exact Hd|exact Hc].
Defined.

(** X15: annotations accumulate in the side-table of a plugin.  After
    [annotate(p, k1, a1)] and [annotate(p, k2, a2)] the side-table of [p],
    one object, holds [a2] at [k2] and, when the keys differ, [a1] at [k1]:
    for one key the last one wins.  The side-tables of the other plugins
    and the cache are as they were, each slot connected has received [p]
    twice, and the handle a [load(p)] of the cached plugin then resolves
    with shows a copy of both. *)
Theorem annotate_accumulates st name k1 a1 k2 a2 :
  table_typed st name →
  ∃ st1 st2 lt ts,
    annotate name k1 a1 st = (st1, Normal tt) ∧
    annotate name k2 a2 st1 = (st2, Normal tt) ∧
    _annotations st2 !! name = Some (JRef lt) ∧
    objects st2 !! lt = Some (Bare ts) ∧
    prop_get ts k2 = Some a2 ∧
    (k1 ≠ k2 → prop_get ts k1 = Some a1) ∧
    (∀ name', name' ≠ name → _annotations st2 !! name' = _annotations st !! name') ∧
    _plugins st2 = _plugins st ∧
    (NoDup (_pluginChanged st) →
     ∀ s, received s st2 =
            received s st ++
            (if bool_decide (s ∈ _pluginChanged st) then [name; name] else [])) ∧
    (∀ record fs tt,
       _plugins st2 !! name = Some record →
       json (objects st2) record (Object fs) →
       json (objects st2) (JRef lt) tt →
       ∃ st3 s ta2,
         load name false st2 = (st3, Normal (Resolved (Handle s))) ∧
         json (objects st2) a2 ta2 ∧
         annotation_in (objects st3) s k2 = Some ta2 ∧
         (k1 ≠ k2 →
          ∃ ta1, json (objects st2) a1 ta1 ∧
                 annotation_in (objects st3) s k1 = Some ta1)).
Proof.
  intros Ht.
  destruct (annotate_table st name k1 a1 Ht)
    as (st1 & lt & ts0 & E1 & Ha1 & Hl1 & _ & Hp1 & Hs1 & Hd1).
  assert (table_typed st1 name) as Ht1.
  { right. exists lt, (prop_set ts0 k1 a1). by rewrite Ha1, dictionary_lookup_insert_eq. }
  destruct (annotate_table st1 name k2 a2 Ht1)
    as (st2 & lt2 & ts1 & E2 & Ha2 & Hl2 & Hold & Hp2 & Hs2 & Hd2).
  rewrite Ha1, dictionary_lookup_insert_eq in Hold. destruct Hold as [[= <-] Hts1].
  rewrite Hl1 in Hts1. injection Hts1 as <-.
  set (ts := prop_set (prop_set ts0 k1 a1) k2 a2) in *.
  assert (prop_get ts k2 = Some a2) as Hk2 by apply prop_get_set_eq.
  assert (k1 ≠ k2 → prop_get ts k1 = Some a1) as Hk1.
  { intros Hne. unfold ts. rewrite prop_get_set_ne by done. apply prop_get_set_eq. }
  assert (_annotations st2 !! name = Some (JRef lt)) as Hlt
    by by rewrite Ha2, dictionary_lookup_insert_eq.
  exists st1, st2, lt, ts. repeat (split; [done|]). split; [|split; [|split]].
  - intros name' Hne. by rewrite Ha2, Ha1, !dictionary_lookup_insert_ne.
  - by rewrite Hp2, Hp1.
  - intros Hnd s. unfold received. rewrite Hd2, Hd1, Hs1.
    rewrite !filter_app, !fmap_app, !received_emitted by done.
    rewrite <- app_assoc. by case_bool_decide.
  - intros record fs tt Hrec Hr Hj.
    destruct (table_annotation _ _ _ _ _ _ Hl2 Hk2 Hj)
      as (tfs & ta2 & -> & Hta2 & Hja2).
    destruct (load_cached st2 name record fs (Object tfs))
      as (c & hn & El & Hj' & _); [done|done|by rewrite Hlt|].
    eexists _, _, ta2. split; [exact El|]. split; [done|].
    fields. rewrite (annotation_in_view _ _ _ _ _ _ Hj'). split; [done|].
    intros Hne.
    destruct (table_annotation _ _ _ _ _ _ Hl2 (Hk1 Hne) Hj)
      as (tfs' & ta1 & [= <-] & Hta1 & Hja1).
    exists ta1. split; [done|]. by rewrite (annotation_in_view _ _ _ _ _ _ Hj').
Qed.

Lemma annotate_accumulates_witness :
  ∃ st1 st2 st3 s,
    annotate "pkg.a" "fontSize" (JRef 4) loaded = (st1, Normal tt) ∧
    annotate "pkg.a" "theme" (JRef 3) st1 = (st2, Normal tt) ∧
    load "pkg.a" false st2 = (st3, Normal (Resolved (Handle s))) ∧
    annotation_in (objects st3) s "theme" = Some (Object [("a", Num 1)]) ∧
    annotation_in (objects st3) s "fontSize" =
      Some (Object [("label", Str "Font size")]).
Proof.
  destruct (annotate_accumulates loaded "pkg.a" "fontSize" (JRef 4) "theme" (JRef 3))
    as (st1 & st2 & lt & ts & E1 & E2 & Hlt & _ & _ & _ & _ & _ & _ & Hload).
  { by left. }
  vm_compute in E1. injection E1 as <-.
  vm_compute in E2. injection E2 as <-.
  vm_compute in Hlt. injection Hlt as <-.
  destruct (Hload (JRef 0)
              [("id", Str "pkg.a");
               ("data", Object [("user", Object [("fontSize", Num 12)])])]
              (Object [("fontSize", Object [("label", Str "Font size")]);
                       ("theme", Object [("a", Num 1)])]))
    as (st3 & s & ta2 & El & Hj2 & Hann2 & Hrest); [vm_compute; reflexivity..|].
  destruct Hrest as (ta1 & Hj1 & Hann1); [done|].
  vm_compute in Hj2. injection Hj2 as <-.
  vm_compute in Hj1. injection Hj1 as <-.
  eexists _, _, st3, s. split; [vm_compute; reflexivity|].
  split; [vm_compute; reflexivity|]. by repeat split.
Defined.

(** X16: [upload] puts the record it is given, itself and not a copy, into
    the cache under the [id] of the record, in place of what was cached
    under that name, and calls [save] once.  From that point, before the
    datastore has answered, [load] of that name resolves from the cache
    with a handle whose content is a copy of the uploaded record with the
    annotations of the plugin, and [get] resolves with [null] for a key
    that the uploaded record does not hold and that the mapping of the
    level, where there is one, does not inherit from [Object.prototype]. *)
Theorem upload_then_load st d record fs id ta :
  _datastore st = Some d →
  json (objects st) record (Object fs) →
  prop_get fs "id" = Some (Str id) →
  json (objects st) (or_null (_annotations st !! id)) ta →
  ∃ st1 c hn,
    upload record st = (st1, Normal (Pending (OnSave id) [ThenEmit id])) ∧
    st1 = logged (Save d id (Some record))
            (with_plugins (<[id := record]> (_plugins st)) st) ∧
    load id false st1 =
      (with_objects (objects st ++ hn) st1,
       Normal (Resolved (Handle (new_Settings (Some c) id false)))) ∧
    copy_of (objects st) (Object (prop_set fs "annotations" ta)) c hn ∧
    (∀ key level, absent (objects st) record key level →
       get id key level st1 = (st1, Normal (Resolved (Value JNull)))).
Proof.
  intros Hd Hr Hid Ha.
  set (st1 := logged (Save d id (Some record))
                (with_plugins (<[id := record]> (_plugins st)) st)).
  assert (_plugins st1 !! id = Some record) as Hp1
    by apply dictionary_lookup_insert_eq.
  destruct (load_cached st1 id record fs ta Hp1 Hr Ha) as (c & hn & El & Hc).
  exists st1, c, hn. split; [by apply (upload_json st d record fs id)|].
  split; [done|]. split; [exact El|]. split; [exact Hc|].
  intros key level Habs. by apply (get_absent st1 id key level record).
Qed.

Lemma upload_then_load_witness :
  ∃ st1 st2 s,
    upload (JRef 0) attached =
      (st1, Normal (Pending (OnSave "pkg.a") [ThenEmit "pkg.a"])) ∧
    calls st1 = [Save 7 "pkg.a" (Some (JRef 0))] ∧
    load "pkg.a" false st1 = (st2, Normal (Resolved (Handle s))) ∧
    calls st2 = calls st1.
Proof.
  destruct (upload_then_load attached 7 (JRef 0)
              [("id", Str "pkg.a");
               ("data", Object [("user", Object [("fontSize", Num 12)])])]
              "pkg.a" Null)
    as (st1 & c & hn & Hup & -> & Hload & _); [vm_compute; reflexivity..|].
  eexists _, _, _. split; [exact Hup|]. split; [reflexivity|].
  split; [exact Hload|reflexivity].
Defined.

(** X17: with a datastore attached, [load(p, true)] makes a [fetch]
    whether [p] is cached or not, and leaves the cache as it is until the
    datastore answers.  When it answers with the record of [p], a JSON
    object, that record takes the place of the one that was cached, the
    promise resolves with a handle whose content is a copy of it with the
    annotations of [p], and a [get] that follows reads the new record: it
    resolves with [null] for a key the new record does not hold, and that
    its mapping of the level, where there is one, does not inherit from
    [Object.prototype], whatever the old record held. *)
Theorem reload_replaces_the_record st d name :
  _datastore st = Some d →
  ∃ q,
    load name true st = (logged (Fetch d name) st, Normal q) ∧
    ∀ st1 result fs ta,
      json (objects st1) result (Object fs) →
      prop_get fs "id" = Some (Str name) →
      json (objects st1) (or_null (_annotations st1 !! name)) ta →
      ∃ st2 c hn,
        step q (Fetched result) st1 =
          Some (st2, Normal (Resolved (Handle (new_Settings (Some c) name false)))) ∧
        st2 = with_objects (objects st1 ++ hn)
                (with_plugins (<[name := result]> (_plugins st1)) st1) ∧
        copy_of (objects st1) (Object (prop_set fs "annotations" ta)) c hn ∧
        (∀ key level, absent (objects st1) result key level →
           get name key level st2 = (st2, Normal (Resolved (Value JNull)))).
Proof.
  intros Hd. eexists. split; [by apply load_fetch|].
  intros st1 result fs ta Hr Hid Ha.
  destruct (install_ok st1 name result fs name ta Hr Hid Ha) as (c & hn & E & Hc).
  eexists _, c, hn. split.
  { cbn [step]. rewrite run_cons. cbn [callback]. by rewrite E. }
  split; [done|]. split; [exact Hc|].
  intros key level Habs. eapply get_absent.
  - fields. apply dictionary_lookup_insert_eq.
  - fields. by apply absent_app.
Qed.

Lemma reload_replaces_the_record_witness :
  let st := with_objects
              (objects loaded ++
                 [JSONObject [("id", JStr "pkg.a"); ("data", JRef 9)];
                  JSONObject []]) loaded in
  ∃ q st2 s,
    get "pkg.a" "fontSize" user st =
      (st, Normal (Resolved (Value (JNum 12)))) ∧
    load "pkg.a" true st = (logged (Fetch 7 "pkg.a") st, Normal q) ∧
    step q (Fetched (JRef 8)) (logged (Fetch 7 "pkg.a") st) =
      Some (st2, Normal (Resolved (Handle s))) ∧
    get "pkg.a" "fontSize" user st2 = (st2, Normal (Resolved (Value JNull))).
Proof.
  intros st.
  destruct (reload_replaces_the_record st 7 "pkg.a") as (q & Hload & Hanswer);
    [reflexivity|].
  destruct (Hanswer (logged (Fetch 7 "pkg.a") st) (JRef 8)
              [("id", Str "pkg.a"); ("data", Object [])] Null)
    as (st2 & c & hn & Hstep & _ & _ & Hget);
    [vm_compute; reflexivity|reflexivity|vm_compute; reflexivity|].
  exists q, st2, (new_Settings (Some c) "pkg.a" false).
  split; [vm_compute; reflexivity|]. split; [exact Hload|].
  split; [exact Hstep|]. apply Hget.
  apply (absent_mapping _ _ _ _ 9 []).
  - exists 8, [("id", JStr "pkg.a"); ("data", JRef 9)]. by vm_compute.
  - reflexivity.
Defined.

(** X18: with a datastore attached, [set(p, k, v, level)], for a key [k]
    other than [__proto__], on a plugin that is not cached makes one
    [fetch] and waits.  When the datastore answers with the record of [p],
    a JSON object with a mapping at the level, the record itself is put
    into the cache, [v] is written at [k] into the mapping of that record,
    the object the datastore handed over, and [save] is called with the
    record; nothing is emitted until the datastore acknowledges the [save],
    and then [p] is emitted and the promise resolves. *)
Theorem set_fetches_then_writes st d name key value level :
  _datastore st = Some d →
  _plugins st !! name = None →
  ∃ q,
    set name key value level st = (logged (Fetch d name) st, Normal q) ∧
    ∀ st1 d1 result fs ta lb bs lm ms,
      _datastore st1 = Some d1 →
      json (objects st1) result (Object fs) →
      prop_get fs "id" = Some (Str name) →
      json (objects st1) (or_null (_annotations st1 !! name)) ta →
      bundle_at (objects st1) result lb bs →
      mapping_at (objects st1) bs level lm ms →
      key ≠ "__proto__" →
      ∃ st2 hn ms',
        feed [Fetched result] q st1 =
          Some (st2, Pending (OnSave name) [ThenEmit name]) ∧
        st2 = logged (Save d1 name (Some result))
                (with_objects
                   (<[lm := JSONObject ms']> (objects st1 ++ hn))
                   (with_plugins (<[name := result]> (_plugins st1)) st1)) ∧
        prop_get ms' key = Some value ∧
        (∀ key', key' ≠ key → prop_get ms' key' = prop_get ms key') ∧
        feed [Fetched result; Saved] q st1 = Some (notified name st2, Resolved Void).
Proof.
  intros Hd Hp. eexists. split; [by apply set_fetch|].
  intros st1 d1 result fs ta lb bs lm ms Hd1 Hr Hid Ha Hb Hm Hk.
  destruct (set_fetched st1 d1 name key value level result fs ta lb bs lm ms
              Hd1 Hr Hid Ha Hb Hm Hk) as (hn & Hstep).
  eexists _, hn, (prop_set ms key value). cbn [feed]. rewrite Hstep. cbn [feed].
  rewrite step_saved. split; [done|]. split; [done|].
  split; [apply prop_get_set_eq|]. split; [|done].
  intros key' Hne. by apply prop_get_set_ne.
Qed.

Lemma set_fetches_then_writes_witness :
  ∃ q st2 ms',
    set "pkg.a" "fontSize" (JNum 14) user attached =
      (logged (Fetch 7 "pkg.a") attached, Normal q) ∧
    feed [Fetched (JRef 0)] q (logged (Fetch 7 "pkg.a") attached) =
      Some (st2, Pending (OnSave "pkg.a") [ThenEmit "pkg.a"]) ∧
    objects st2 !! 2 = Some (JSONObject ms') ∧
    prop_get ms' "fontSize" = Some (JNum 14) ∧
    calls st2 = [Fetch 7 "pkg.a"; Save 7 "pkg.a" (Some (JRef 0))].
Proof.
  destruct (set_fetches_then_writes attached 7 "pkg.a" "fontSize" (JNum 14) user)
    as (q & Hset & Hanswer); [reflexivity..|].
  destruct (Hanswer (logged (Fetch 7 "pkg.a") attached) 7 (JRef 0)
              [("id", Str "pkg.a");
               ("data", Object [("user", Object [("fontSize", Num 12)])])] Null
              1 [("user", JRef 2)] 2 [("fontSize", JNum 12)])
    as (st2 & hn & ms' & Hfeed & -> & Hk & _).
  - reflexivity.
  - vm_compute; reflexivity.
  - reflexivity.
  - vm_compute; reflexivity.
  - exists 0, [("id", JStr "pkg.a"); ("data", JRef 1)]. by vm_compute.
  - by vm_compute.
  - done.
  - exists q. eexists _, ms'. split; [exact Hset|]. split; [exact Hfeed|].
    split; [|split; [exact Hk|reflexivity]]. unfold logged. fields.
    assert (2 < length (objects attached)) by (vm_compute; lia).
    rewrite list_lookup_insert_eq; [done|]. rewrite length_app. lia.
Defined.

(** X19: a [get(p, k, level)] called before any datastore is attached, on
    a plugin that is not cached, waits, and no input moves it.  Once a
    datastore is attached, [setDB] having resolved [_ready], it goes on by
    itself: on its turn it makes one [fetch] on that datastore, and when
    the datastore answers with the record of [p], a JSON object, the record
    is put into the cache and the promise resolves with what [get] reads
    in it: [null] when nothing is recorded for the key at the level and the
    key is no name that the mapping of the level inherits from
    [Object.prototype], a copy of the value recorded when that value is
    truthy. *)
Theorem get_before_setDB st name key level :
  _datastore st = None →
  _ready st = false →
  _plugins st !! name = None →
  ∃ q,
    get name key level st = (st, Normal q) ∧
    (∀ i, step q i st = None) ∧
    ∀ st1 ds,
      _datastore st1 = Some ds →
      _ready st1 = true →
      _plugins st1 !! name = None →
      ∃ q1,
        step q Turn st1 = Some (logged (Fetch ds name) st1, Normal q1) ∧
        ∀ st2 result fs ta,
          json (objects st2) result (Object fs) →
          prop_get fs "id" = Some (Str name) →
          json (objects st2) (or_null (_annotations st2 !! name)) ta →
          (absent (objects st2) result key level →
             ∃ hn,
               feed [Fetched result] q1 st2 =
                 Some (with_objects (objects st2 ++ hn)
                         (with_plugins (<[name := result]> (_plugins st2)) st2),
                       Resolved (Value JNull))) ∧
          (∀ lb bs lm ms v t,
             bundle_at (objects st2) result lb bs →
             mapping_at (objects st2) bs level lm ms →
             prop_get ms key = Some v →
             truthy (Some v) = true →
             json (objects st2) v t →
             ∃ hn hn' v',
               feed [Fetched result] q1 st2 =
                 Some (with_objects ((objects st2 ++ hn) ++ hn')
                         (with_plugins (<[name := result]> (_plugins st2)) st2),
                       Resolved (Value v')) ∧
               copy_of (objects st2 ++ hn) t v' hn').
Proof.
  intros Hd Hready Hp. eexists. split.
  { unfold get. mred. rewrite Hp. by rewrite (load_wait st name false). }
  split.
  { intros i. cbn [step then_ app]. rewrite Hready. by destruct i. }
  intros st1 ds Hd1 Hready1 Hp1. eexists. split.
  { cbn [step then_ app]. rewrite Hready1, run_cons. cbn [callback].
    by rewrite (load_fetch st1 ds name false). }
  cbn [app]. intros st2 result fs ta. apply get_fetched_reads.
Qed.

Lemma get_before_setDB_witness :
  ∃ q q1 hn hn' v',
    get "pkg.a" "fontSize" user fresh = (fresh, Normal q) ∧
    (∀ i, step q i fresh = None) ∧
    step q Turn attached = Some (logged (Fetch 7 "pkg.a") attached, Normal q1) ∧
    feed [Fetched (JRef 0)] q1 (logged (Fetch 7 "pkg.a") attached) =
      Some (with_objects ((objects attached ++ hn) ++ hn')
              (with_plugins (<["pkg.a" := JRef 0]> (_plugins attached))
                 (logged (Fetch 7 "pkg.a") attached)),
            Resolved (Value v')) ∧
    json ((objects attached ++ hn) ++ hn') v' (Num 12).
Proof.
  destruct (get_before_setDB fresh "pkg.a" "fontSize" user)
    as (q & Hget & Hwait & Hgo); [reflexivity..|].
  destruct (Hgo attached 7) as (q1 & Hturn & Hread); [reflexivity..|].
  destruct (Hread (logged (Fetch 7 "pkg.a") attached) (JRef 0)
              [("id", Str "pkg.a");
               ("data", Object [("user", Object [("fontSize", Num 12)])])] Null)
    as (_ & Hvalue); [vm_compute; reflexivity|reflexivity|vm_compute; reflexivity|].
  destruct (Hvalue 1 [("user", JRef 2)] 2 [("fontSize", JNum 12)] (JNum 12) (Num 12))
    as (hn & hn' & v' & Hfeed & Hj & _).
  { exists 0, [("id", JStr "pkg.a"); ("data", JRef 1)]. by vm_compute. }
  { by vm_compute. }
  { reflexivity. }
  { reflexivity. }
  { vm_compute; reflexivity. }
  by exists q, q1, hn, hn', v'.
Defined.

(** X20: [remove(p, k, level)] of a key that the mapping of the level does
    not hold is no no-op: it changes no object, yet it calls [save] with
    the cached record, and when the datastore acknowledges the [save], [p]
    is emitted to the connected slots, as for a key that was there. *)
Theorem remove_of_a_missing_key_saves st d name key level record lb bs lm ms :
  _datastore st = Some d →
  _plugins st !! name = Some record →
  bundle_at (objects st) record lb bs →
  mapping_at (objects st) bs level lm ms →
  prop_get ms key = None →
  remove name key level st =
    (logged (Save d name (Some record)) st,
     Normal (Pending (OnSave name) [ThenEmit name])) ∧
  step (Pending (OnSave name) [ThenEmit name]) Saved
       (logged (Save d name (Some record)) st) =
    Some (notified name (logged (Save d name (Some record)) st),
          Normal (Resolved Void)) ∧
  (NoDup (_pluginChanged st) →
   ∀ s, s ∈ _pluginChanged st →
        received s (notified name (logged (Save d name (Some record)) st)) =
          received s st ++ [name]).
Proof.
  intros Hd Hp Hb Hm Hk. split; [|split].
  - rewrite (remove_mapping st d name key level record lb bs lm ms Hd Hp Hb Hm).
    rewrite (prop_delete_absent _ _ Hk). destruct Hm as [_ Hl].
    by rewrite list_insert_id, with_objects_same.
  - apply step_saved.
  - intros Hnd s Hs. rewrite received_notified by done.
    unfold logged. fields. by rewrite bool_decide_eq_true_2.
Qed.

Lemma remove_of_a_missing_key_saves_witness :
  let st := (connect 1 loaded).1 in
  remove "pkg.a" "theme" user st =
    (logged (Save 7 "pkg.a" (Some (JRef 0))) st,
     Normal (Pending (OnSave "pkg.a") [ThenEmit "pkg.a"])) ∧
  received 1 (notified "pkg.a" (logged (Save 7 "pkg.a" (Some (JRef 0))) st)) =
    ["pkg.a"].
Proof.
  intros st.
  destruct (remove_of_a_missing_key_saves st 7 "pkg.a" "theme" user (JRef 0)
              1 [("user", JRef 2)] 2 [("fontSize", JNum 12)])
    as (Hremove & _ & Hrecv).
  - reflexivity.
  - vm_compute; reflexivity.
  - exists 0, [("id", JStr "pkg.a"); ("data", JRef 1)]. by vm_compute.
  - by vm_compute.
  - reflexivity.
  - split; [exact Hremove|]. apply (Hrecv (NoDup_singleton 1) 1). by left.
Defined.

(** X21: the registry keeps no track of a [fetch] that is under way: a
    second [load(p)] called before the datastore has answered the first
    makes a second [fetch].  Each answer, in whatever state it comes, puts
    its record into the cache under [p], in place of the record that is
    there: the record of the last answer stays, and a [get] then reads
    that record, and resolves with [null] for a key it does not hold, and
    that its mapping of the level, where there is one, does not inherit
    from [Object.prototype], whatever had been written into the record of
    an earlier answer. *)
Theorem fetches_are_not_shared st d name :
  _datastore st = Some d →
  _plugins st !! name = None →
  ∃ q,
    load name false st = (logged (Fetch d name) st, Normal q) ∧
    load name false (logged (Fetch d name) st) =
      (logged (Fetch d name) (logged (Fetch d name) st), Normal q) ∧
    ∀ st1 result fs ta,
      json (objects st1) result (Object fs) →
      prop_get fs "id" = Some (Str name) →
      json (objects st1) (or_null (_annotations st1 !! name)) ta →
      ∃ st2 s,
        step q (Fetched result) st1 = Some (st2, Normal (Resolved (Handle s))) ∧
        _plugins st2 = <[name := result]> (_plugins st1) ∧
        (∀ key level, absent (objects st1) result key level →
           get name key level st2 = (st2, Normal (Resolved (Value JNull)))).
Proof.
  intros Hd Hp. eexists. split; [by apply load_fetch|]. split.
  { by apply load_fetch. }
  intros st1 result fs ta Hr Hid Ha.
  destruct (install_ok st1 name result fs name ta Hr Hid Ha) as (c & hn & E & Hc).
  eexists _, _. split.
  { cbn [step]. rewrite run_cons. cbn [callback]. by rewrite E. }
  split; [done|].
  intros key level Habs. eapply get_absent.
  - fields. apply dictionary_lookup_insert_eq.
  - fields. by apply absent_app.
Qed.

Lemma fetches_are_not_shared_witness :
  let st := with_objects
              (objects loaded ++
                 [JSONObject [("id", JStr "pkg.a"); ("data", JRef 9)];
                  JSONObject []]) loaded in
  ∃ q st2 s,
    load "pkg.a" false attached = (logged (Fetch 7 "pkg.a") attached, Normal q) ∧
    load "pkg.a" false (logged (Fetch 7 "pkg.a") attached) =
      (logged (Fetch 7 "pkg.a") (logged (Fetch 7 "pkg.a") attached), Normal q) ∧
    get "pkg.a" "fontSize" user st = (st, Normal (Resolved (Value (JNum 12)))) ∧
    step q (Fetched (JRef 8)) st = Some (st2, Normal (Resolved (Handle s))) ∧
    get "pkg.a" "fontSize" user st2 = (st2, Normal (Resolved (Value JNull))).
Proof.
  intros st.
  destruct (fetches_are_not_shared attached 7 "pkg.a") as (q & H1 & H2 & Hanswer);
    [reflexivity..|].
  destruct (Hanswer st (JRef 8) [("id", Str "pkg.a"); ("data", Object [])] Null)
    as (st2 & s & Hstep & _ & Hget);
    [vm_compute; reflexivity|reflexivity|vm_compute; reflexivity|].
  exists q, st2, s. split; [exact H1|]. split; [exact H2|].
  split; [vm_compute; reflexivity|]. split; [exact Hstep|]. apply Hget.
  apply (absent_mapping _ _ _ _ 9 []).
  - exists 8, [("id", JStr "pkg.a"); ("data", JRef 9)]. by vm_compute.
  - reflexivity.
Defined.

(** X22: what [get(p, k, level)] resolves with, on a cached plugin, for a
    key that the mapping of the level does not hold.  It resolves at once
    and reads only.  Where the record, its bundle or the mapping of the
    level is missing, and where the mapping, an object with the prototype
    [Object.prototype], neither holds the key nor inherits it, it resolves
    with [null] and changes nothing.  Where the key is a name that such a
    mapping inherits, [constructor] or [toString] for one, it resolves with
    a new object without properties, the copy of what [Object.prototype]
    holds there, which it adds to the heap.  Where the mapping is an object
    without prototype, it resolves with [null] for every key the mapping
    does not hold. *)
Theorem get_of_a_key_not_recorded st name key level record :
  _plugins st !! name = Some record →
  (absent (objects st) record key level →
     get name key level st = (st, Normal (Resolved (Value JNull)))) ∧
  (∀ lb bs lm ms,
     bundle_at (objects st) record lb bs →
     prop_get bs (level_name level) = Some (JRef lm) →
     prop_get ms key = None →
     (objects st !! lm = Some (JSONObject ms) → key ∉ Object_prototype →
        get name key level st = (st, Normal (Resolved (Value JNull)))) ∧
     (objects st !! lm = Some (JSONObject ms) → key ∈ Object_prototype →
        get name key level st =
          (with_objects (objects st ++ [JSONObject []]) st,
           Normal (Resolved (Value (JRef (length (objects st))))))) ∧
     (objects st !! lm = Some (Bare ms) →
        get name key level st = (st, Normal (Resolved (Value JNull))))).
Proof.
  intros Hp. split; [by apply get_absent|].
  intros lb bs lm ms Hb Hm Hk. split; [|split].
  - intros Hc Hown. eapply get_absent; [done|]. by eapply absent_key.
  - intros Hc Hin. by eapply get_inherited.
  - intros Hc. destruct Hb as (l & ps & -> & Hl & Hd & Hb).
    unfold get. mred. rewrite Hp. cbn [truthy]. mred.
    rewrite (heap_read_data _ _ _ Hl), Hd. cbn [truthy]. mred.
    rewrite (heap_read_level _ _ _ _ Hb), Hm. cbn [truthy]. mred.
    unfold heap_read. rewrite Hc, Hk. mred. cbn [or_null].
    by rewrite deepCopy_null.
Qed.

Lemma get_of_a_key_not_recorded_witness :
  get "pkg.a" "lineHeight" system loaded =
    (loaded, Normal (Resolved (Value JNull))) ∧
  get "pkg.a" "lineHeight" user loaded =
    (loaded, Normal (Resolved (Value JNull))) ∧
  get "pkg.a" "toString" user loaded =
    (with_objects (objects loaded ++ [JSONObject []]) loaded,
     Normal (Resolved (Value (JRef (length (objects loaded)))))).
Proof.
  destruct (get_of_a_key_not_recorded loaded "pkg.a" "lineHeight" system (JRef 0))
    as [Hsystem _]; [vm_compute; reflexivity|].
  destruct (get_of_a_key_not_recorded loaded "pkg.a" "lineHeight" user (JRef 0))
    as [_ Huser]; [vm_compute; reflexivity|].
  destruct (get_of_a_key_not_recorded loaded "pkg.a" "toString" user (JRef 0))
    as [_ Hname]; [vm_compute; reflexivity|].
  assert (bundle_at (objects loaded) (JRef 0) 1 [("user", JRef 2)]) as Hb.
  { exists 0, [("id", JStr "pkg.a"); ("data", JRef 1)]. by vm_compute. }
  split; [|split].
  - apply Hsystem. by apply (absent_mapping _ _ _ _ 1 [("user", JRef 2)]).
  - destruct (Huser 1 [("user", JRef 2)] 2 [("fontSize", JNum 12)])
      as (Hnull & _); [exact Hb|reflexivity|reflexivity|].
    apply Hnull; [vm_compute; reflexivity|]. by apply (bool_decide_unpack _).
  - destruct (Hname 1 [("user", JRef 2)] 2 [("fontSize", JNum 12)])
      as (_ & Hobject & _); [exact Hb|reflexivity|reflexivity|].
    apply Hobject; [vm_compute; reflexivity|]. by apply (bool_decide_unpack _).
Defined.

(** X23: [set(p, "__proto__", v, level)] stores no setting.  On a plugin
    cached with a mapping at the level, an object with the prototype
    [Object.prototype] and without property of its own named [__proto__],
    the assignment of l.319 calls the setter that the mapping inherits.
    For a boolean, a number or a string it changes nothing: [save] is
    called all the same, and [get(p, "__proto__", level)] then resolves
    with a new object without properties.  For [null] the mapping keeps its
    properties and loses its prototype, and [save] is called.  For the
    mapping itself the setter throws a [TypeError]: [set] throws, calls no
    [save] and leaves the state as it is.  For another object or array
    whose prototype was never changed, the mapping keeps its properties and
    gets that object as its prototype, and [save] is called. *)
Theorem set_proto_stores_no_setting st d name level record lb bs lm ms :
  _datastore st = Some d →
  _plugins st !! name = Some record →
  bundle_at (objects st) record lb bs →
  mapping_at (objects st) bs level lm ms →
  prop_get ms "__proto__" = None →
  (∀ value,
     (∃ b, value = JBool b) ∨ (∃ n, value = JNum n) ∨ (∃ s, value = JStr s) →
     set name "__proto__" value level st =
       (logged (Save d name (Some record)) st,
        Normal (Pending (OnSave name) [ThenEmit name])) ∧
     get name "__proto__" level (logged (Save d name (Some record)) st) =
       (with_objects (objects st ++ [JSONObject []])
          (logged (Save d name (Some record)) st),
        Normal (Resolved (Value (JRef (length (objects st))))))) ∧
  set name "__proto__" JNull level st =
    (logged (Save d name (Some record))
       (with_objects (<[lm := Bare ms]> (objects st)) st),
     Normal (Pending (OnSave name) [ThenEmit name])) ∧
  set name "__proto__" (JRef lm) level st = (st, Throw TypeError) ∧
  (∀ l' c,
     l' ≠ lm → objects st !! l' = Some c → made_by_copy c →
     set name "__proto__" (JRef l') level st =
       (logged (Save d name (Some record))
          (with_objects (<[lm := Derived (JRef l') ms]> (objects st)) st),
        Normal (Pending (OnSave name) [ThenEmit name]))).
Proof.
  intros Hd Hp Hb Hm Hk.
  assert (∀ value, set name "__proto__" value level st =
            match set_prototype (objects st) lm ms value with
            | Normal h' =>
                (logged (Save d name (Some record)) (with_objects h' st),
                 Normal (Pending (OnSave name) [ThenEmit name]))
            | Throw e => (st, Throw e)
            | Untyped => (st, Untyped)
            end) as Hset.
  { intros value.
    rewrite (set_cached st d name "__proto__" value level record lb bs lm ms
               Hd Hp Hb Hm).
    destruct Hm as [_ Hc]. by rewrite (heap_write_proto _ _ _ _ Hc Hk). }
  split; [|split; [|split]].
  - intros value Hv. split.
    + rewrite Hset.
      destruct Hv as [[b ->] | [[n ->] | [s ->]]]; cbn [set_prototype];
        by rewrite with_objects_same.
    + by apply (get_inherited (logged (Save d name (Some record)) st)
                  name "__proto__" level record lb bs lm ms);
        [..|apply (bool_decide_unpack _)].
  - by rewrite Hset.
  - rewrite Hset. cbn [set_prototype].
    assert (inherits (length (objects st)) (objects st) lm lm = true) as ->; [|done].
    destruct (length (objects st)); cbn [inherits];
      by rewrite bool_decide_eq_true_2.
  - intros l' c Hne Hl' Hc. rewrite Hset. cbn [set_prototype].
    assert (inherits (length (objects st)) (objects st) l' lm = false) as ->; [|done].
    destruct (length (objects st)); cbn [inherits];
      rewrite bool_decide_eq_false_2 by done; [done|].
    rewrite Hl'. by destruct c.
Qed.

Lemma set_proto_stores_no_setting_witness :
  set "pkg.a" "__proto__" (JNum 5) user loaded =
    (logged (Save 7 "pkg.a" (Some (JRef 0))) loaded,
     Normal (Pending (OnSave "pkg.a") [ThenEmit "pkg.a"])) ∧
  set "pkg.a" "__proto__" (JRef 2) user loaded = (loaded, Throw TypeError) ∧
  set "pkg.a" "__proto__" (JRef 3) user loaded =
    (logged (Save 7 "pkg.a" (Some (JRef 0)))
       (with_objects
          (<[2 := Derived (JRef 3) [("fontSize", JNum 12)]]> (objects loaded))
          loaded),
     Normal (Pending (OnSave "pkg.a") [ThenEmit "pkg.a"])).
Proof.
  destruct (set_proto_stores_no_setting loaded 7 "pkg.a" user (JRef 0)
              1 [("user", JRef 2)] 2 [("fontSize", JNum 12)])
    as (Hprimitive & _ & Hself & Hother).
  - vm_compute; reflexivity.
  - vm_compute; reflexivity.
  - exists 0, [("id", JStr "pkg.a"); ("data", JRef 1)]. by vm_compute.
  - by vm_compute.
  - reflexivity.
  - split; [|split; [exact Hself|]].
    + apply (Hprimitive (JNum 5)). right. left. by exists 5%Z.
    + apply (Hother 3 (JSONObject [("a", JNum 1)])); [done| |done].
      vm_compute; reflexivity.
Defined.
